(** * Mnemosyne: versioned knowledge graph over a property-graph store

    A shallow embedding of [Neo4jStorageProvider] and of
    [LocalEmbeddingService._normalizeVector].

    The persistent graph store is modelled as a property graph: a list of
    nodes (entity versions) and a list of edges (relation versions), each
    edge linking two nodes by their store identity.  Every Cypher statement
    of the provider is written out as the list operation it denotes.

    Numbers.  Timestamps and versions are integers ([Z]).  Limits, scores,
    strengths and confidences are rationals ([Q]) wherever the code only
    compares, floors or copies them.  The decay of confidences, which calls
    [Math.exp]/[Math.log], is carried out over the real numbers ([R]).  The
    normalisation of embedding vectors is carried out on IEEE 754 doubles,
    the kernel's primitive floats, with their rounding, NaN and infinities.

    Diagnostics, logging and [timeTaken] are an out-of-band trace and are
    left out; only clock readings that flow into stored or returned data are
    kept. *)

From Stdlib Require Import List Sorted ZArith QArith Qround String Bool Lia Lra Reals.
From Stdlib Require PrimFloat FloatOps SpecFloat.
Import ListNotations.

Local Open Scope Z_scope.

(** ** JavaScript idioms *)

Module JS.

(** [x || d] on an optional number: [undefined], [null] and [0] are falsy. *)
Definition num_or (x : option Z) (d : Z) : Z :=
  match x with
  | Some v => if Z.eqb v 0 then d else v
  | None => d
  end.

Definition Qis_zero (q : Q) : bool := Z.eqb (Qnum q) 0.

Definition qnum_or (x : option Q) (d : Q) : Q :=
  match x with
  | Some v => if Qis_zero v then d else v
  | None => d
  end.

(** [x || null] on an optional number. *)
Definition qnum_or_null (x : option Q) : option Q :=
  match x with
  | Some v => if Qis_zero v then None else Some v
  | None => None
  end.

(** [s || null] on an optional string: the empty string is falsy. *)
Definition str_or_null (x : option string) : option string :=
  match x with
  | Some v => if String.eqb v EmptyString then None else Some v
  | None => None
  end.

(** [x !== undefined ? x : d]. *)
Definition defined_or {A} (x : option A) (d : A) : A :=
  match x with Some v => v | None => d end.

(** [Array.prototype.includes] on strings. *)
Definition includes (l : list string) (s : string) : bool :=
  existsb (String.eqb s) l.

(** [Array.prototype.join]. *)
Fixpoint join (sep : string) (l : list string) : string :=
  match l with
  | [] => EmptyString
  | [x] => x
  | x :: rest => (x ++ sep ++ join sep rest)%string
  end.

Definition is_null {A} (x : option A) : bool :=
  match x with None => true | Some _ => false end.

End JS.

(** ** Data model *)

(** A value of the metadata bag. *)
Inductive MetaValue :=
| MNum (z : Z)
| MText (s : string).

Definition Metadata := list (string * MetaValue).

(** A node of label [Entity]: one version of a logical entity.  [nid] is the
    store's own node identity; [n_id] is the [id] property (a uuid).  A
    property set to [null] is absent. *)
Record Node := mkNode {
  nid : nat;
  n_id : string;
  n_name : string;
  n_entityType : string;
  n_observations : list string;
  n_version : Z;
  n_createdAt : Z;
  n_updatedAt : Z;
  n_validFrom : Z;
  n_validTo : option Z;
  n_changedBy : option string;
  n_embedding : option (list Q)
}.

(** The properties of a [RELATES_TO] relationship. *)
Record RelProps := mkRelProps {
  r_id : string;
  r_relationType : string;
  r_strength : option Q;
  r_confidence : option Q;
  r_metadata : option Metadata;
  r_version : Z;
  r_createdAt : Z;
  r_updatedAt : Z;
  r_validFrom : Z;
  r_validTo : option Z;
  r_changedBy : option string
}.

(** A relationship of the store: its two end nodes and its properties. *)
Record Edge := mkEdge {
  e_src : nat;
  e_dst : nat;
  e_props : RelProps
}.

Record Store := mkStore {
  nodes : list Node;
  edges : list Edge;
  next_nid : nat
}.

Definition empty_store : Store := mkStore [] [] 0.

(** [ExtendedEntity]: what [nodeToEntity] returns. *)
Record Entity := mkEntity {
  name : string;
  entityType : string;
  observations : list string;
  id : string;
  version : Z;
  createdAt : Z;
  updatedAt : Z;
  validFrom : Z;
  validTo : option Z;
  changedBy : option string
}.

(** [Relation]: what [relationshipToRelation] returns.  The type of the
    numeric fields is a parameter: [Q] as stored, [R] once decay is applied. *)
Record Relation (num : Type) := mkRelation {
  from : string;
  to : string;
  relationType : string;
  strength : option num;
  confidence : option num;
  metadata : Metadata
}.

Arguments mkRelation {num}.
Arguments from {num}.
Arguments to {num}.
Arguments relationType {num}.
Arguments strength {num}.
Arguments confidence {num}.
Arguments metadata {num}.

Record KnowledgeGraph (num : Type) := mkGraph {
  entities : list Entity;
  relations : list (Relation num)
}.

Arguments mkGraph {num}.
Arguments entities {num}.
Arguments relations {num}.

(** Inputs of the write operations. *)
Record EntityInput := mkEntityInput {
  ei_name : string;
  ei_entityType : string;
  ei_observations : option (list string);
  ei_createdAt : option Z;
  ei_updatedAt : option Z;
  ei_validFrom : option Z;
  ei_changedBy : option string
}.

Record RelationInput := mkRelationInput {
  ri_from : string;
  ri_to : string;
  ri_relationType : string;
  ri_strength : option Q;
  ri_confidence : option Q;
  ri_metadata : option Metadata;
  ri_createdAt : option Z;
  ri_updatedAt : option Z;
  ri_validFrom : option Z;
  ri_changedBy : option string
}.

Record ObservationInput := mkObservationInput {
  entityName : string;
  contents : list string
}.

Record ObservationResult := mkObservationResult {
  or_entityName : string;
  addedObservations : list string
}.

Record SearchOptions := mkSearchOptions {
  limit : option Q;
  entityTypes : option (list string);
  minSimilarity : option Q;
  queryVector : option (list Q)
}.

(** ** The host: clock, identifiers and the external collaborators *)

Record Host := mkHost {
  (** the value of the n-th reading of [Date.now()] *)
  clock : nat -> Z;
  (** the n-th identifier drawn from [uuidv4()] *)
  uuidv4 : nat -> string;
  (** Cypher [text =~ pattern] *)
  regex_matches : string -> string -> bool;
  (** [JSON.stringify] on an array of strings *)
  JSON_stringify : list string -> string;
  (** [this.embeddingService]: absent, or a [generateEmbedding] that may throw *)
  embeddingService : option (string -> option (list Q));
  (** [db.index.vector.queryNodes(index, k, vector)]: ranked (node, score)
      pairs, or a failure of the index *)
  vector_queryNodes : list Node -> Z -> list Q -> option (list (Node * Q))
}.

Record DecayConfig := mkDecayConfig {
  enabled : bool;
  halfLifeDays : R;
  minConfidence : R
}.

(** ** State: the store and the positions in the clock and uuid streams *)

Record World := mkWorld {
  store : Store;
  ticks : nat;
  drawn : nat
}.

Definition M (A : Type) : Type := World -> A * World.

Definition ret {A} (a : A) : M A := fun w => (a, w).

Definition bind {A B} (m : M A) (k : A -> M B) : M B :=
  fun w => let (a, w') := m w in k a w'.

Declare Scope m_scope.
Delimit Scope m_scope with M.
Notation "x <- c ;; k" := (bind c (fun x => k))
  (at level 61, c at next level, right associativity) : m_scope.
Notation "c ;;; k" := (bind c (fun _ => k))
  (at level 61, right associativity) : m_scope.

Definition get_store : M Store := fun w => (store w, w).

Definition put_store (s : Store) : M unit :=
  fun w => (tt, mkWorld s (ticks w) (drawn w)).

Fixpoint mapM {A B} (f : A -> M B) (l : list A) : M (list B) :=
  match l with
  | [] => ret []
  | x :: rest =>
      (y <- f x ;;
       ys <- mapM f rest ;;
       ret (y :: ys))%M
  end.

(** A [for ... of] loop whose body may push onto a result array. *)
Fixpoint forM {A B} (body : A -> M (list B)) (l : list A) : M (list B) :=
  match l with
  | [] => ret []
  | x :: rest =>
      (ys <- body x ;;
       zs <- forM body rest ;;
       ret (ys ++ zs))%M
  end.

(** ** Store primitives: what the Cypher patterns denote *)

Definition node_current (n : Node) : bool := JS.is_null (n_validTo n).

Definition edge_current (e : Edge) : bool := JS.is_null (r_validTo (e_props e)).

Definition lookup_node (s : Store) (k : nat) : option Node :=
  find (fun n => Nat.eqb (nid n) k) (nodes s).

(** [MATCH (e:Entity {name: $name})] *)
Definition nodes_named (s : Store) (nm : string) : list Node :=
  filter (fun n => String.eqb (n_name n) nm) (nodes s).

(** [MATCH (e:Entity {name: $name}) WHERE e.validTo IS NULL] *)
Definition current_named (s : Store) (nm : string) : list Node :=
  filter (fun n => String.eqb (n_name n) nm && node_current n) (nodes s).

(** [MATCH (e:Entity {id: $id})] *)
Definition nodes_with_id (s : Store) (i : string) : list Node :=
  filter (fun n => String.eqb (n_id n) i) (nodes s).

(** [MATCH (from:Entity)-[r:RELATES_TO]->(to:Entity)]: every relationship
    together with its two end nodes. *)
Definition match_edges (s : Store) : list (Node * Edge * Node) :=
  flat_map
    (fun e =>
       match lookup_node s (e_src e), lookup_node s (e_dst e) with
       | Some f, Some t => [(f, e, t)]
       | _, _ => []
       end)
    (edges s).

(** [CREATE (e:Entity {...})]: the store picks the identity of the node. *)
Definition create_node (mk : nat -> Node) (s : Store) : Node * Store :=
  let n := mk (next_nid s) in
  (n, mkStore (nodes s ++ [n]) (edges s) (S (next_nid s))).

(** [MATCH (from ...) MATCH (to ...) CREATE (from)-[r {...}]->(to)]: one
    relationship per matched pair of nodes. *)
Definition create_edges (pairs : list (Node * Node)) (p : RelProps) (s : Store)
  : Store :=
  mkStore (nodes s)
          (edges s ++ map (fun ft => mkEdge (nid (fst ft)) (nid (snd ft)) p) pairs)
          (next_nid s).

Definition set_node_validTo (now : Z) (n : Node) : Node :=
  mkNode (nid n) (n_id n) (n_name n) (n_entityType n) (n_observations n)
         (n_version n) (n_createdAt n) (n_updatedAt n) (n_validFrom n)
         (Some now) (n_changedBy n) (n_embedding n).

Definition set_rel_validTo (now : Z) (p : RelProps) : RelProps :=
  mkRelProps (r_id p) (r_relationType p) (r_strength p) (r_confidence p)
             (r_metadata p) (r_version p) (r_createdAt p) (r_updatedAt p)
             (r_validFrom p) (Some now) (r_changedBy p).

Definition set_edge_validTo (now : Z) (e : Edge) : Edge :=
  mkEdge (e_src e) (e_dst e) (set_rel_validTo now (e_props e)).

Definition nat_mem (k : nat) (l : list nat) : bool := existsb (Nat.eqb k) l.

(** The invalidation statement of [addObservations]:
    [MATCH (e:Entity {id: $id}) SET e.validTo = $now], then the same for
    every current relationship leaving or entering [e]. *)
Definition invalidate_entity_and_rels (i : string) (now : Z) (s : Store) : Store :=
  let hit := fun n => String.eqb (n_id n) i in
  let hit_nids := map nid (filter hit (nodes s)) in
  mkStore
    (map (fun n => if hit n then set_node_validTo now n else n) (nodes s))
    (map (fun e =>
            if (nat_mem (e_src e) hit_nids || nat_mem (e_dst e) hit_nids)
               && edge_current e
            then set_edge_validTo now e else e)
         (edges s))
    (next_nid s).

(** The invalidation statement of [deleteObservations]:
    [MATCH (e:Entity {id: $id}) SET e.validTo = $now]. *)
Definition invalidate_entity (i : string) (now : Z) (s : Store) : Store :=
  mkStore
    (map (fun n => if String.eqb (n_id n) i then set_node_validTo now n else n)
         (nodes s))
    (edges s)
    (next_nid s).

(** [MATCH (e:Entity) WHERE e.name IN $names DETACH DELETE e] *)
Definition detach_delete (names : list string) (s : Store) : Store :=
  let gone := fun n => JS.includes names (n_name n) in
  let gone_nids := map nid (filter gone (nodes s)) in
  mkStore
    (filter (fun n => negb (gone n)) (nodes s))
    (filter (fun e => negb (nat_mem (e_src e) gone_nids || nat_mem (e_dst e) gone_nids))
            (edges s))
    (next_nid s).

(** Does the relationship match
    [(from:Entity {name: $fromName})-[r]->(to:Entity {name: $toName})
     WHERE r.relationType = $relationType]? *)
Definition edge_matches (s : Store) (f t ty : string) (e : Edge) : bool :=
  match lookup_node s (e_src e), lookup_node s (e_dst e) with
  | Some a, Some b =>
      String.eqb (n_name a) f && String.eqb (n_name b) t
      && String.eqb (r_relationType (e_props e)) ty
  | _, _ => false
  end.

(** [Object.assign(target, source)] on key/value bags. *)
Fixpoint assign_key (k : string) (v : MetaValue) (m : Metadata) : Metadata :=
  match m with
  | [] => [(k, v)]
  | (k', v') :: rest =>
      if String.eqb k k' then (k, v) :: rest else (k', v') :: assign_key k v rest
  end.

Definition Object_assign (target source : Metadata) : Metadata :=
  fold_left (fun acc kv => assign_key (fst kv) (snd kv) acc) source target.

Definition newline : string := String (Ascii.ascii_of_nat 10) EmptyString.

(** ** The storage provider *)

Section Provider.

Variable H : Host.

Local Open Scope m_scope.

Definition Date_now : M Z :=
  fun w => (clock H (ticks w), mkWorld (store w) (S (ticks w)) (drawn w)).

Definition uuid : M string :=
  fun w => (uuidv4 H (drawn w), mkWorld (store w) (ticks w) (S (drawn w))).

Definition nodeToEntity (node : Node) : Entity :=
  mkEntity (n_name node) (n_entityType node) (n_observations node) (n_id node)
           (n_version node) (n_createdAt node) (n_updatedAt node)
           (n_validFrom node) (n_validTo node) (n_changedBy node).

Definition relationshipToRelation (rel : RelProps) (fromNode toNode : string)
  : M (Relation Q) :=
  now <- Date_now ;;
  let createdAt := JS.num_or (Some (r_createdAt rel)) now in
  let updatedAt := JS.num_or (Some (r_updatedAt rel)) now in
  let metadata := [("createdAt"%string, MNum createdAt);
                   ("updatedAt"%string, MNum updatedAt)] in
  let metadata :=
    match r_metadata rel with
    | Some parsedMetadata => Object_assign metadata parsedMetadata
    | None => metadata
    end in
  ret (mkRelation fromNode toNode (r_relationType rel)
                  (r_strength rel) (r_confidence rel) metadata).

(** *** createEntities *)

Definition createEntity (entity : EntityInput) : M (list Entity) :=
  now <- Date_now ;;
  entityId <- uuid ;;
  let embedding :=
    match embeddingService H with
    | Some generateEmbedding =>
        let text := match ei_observations entity with
                    | Some obs => JS.join newline obs
                    | None => EmptyString
                    end in
        generateEmbedding text
    | None => None
    end in
  s <- get_store ;;
  let result :=
    create_node
      (fun k =>
         mkNode k entityId (ei_name entity) (ei_entityType entity)
                (JS.defined_or (ei_observations entity) [])
                1
                (JS.num_or (ei_createdAt entity) now)
                (JS.num_or (ei_updatedAt entity) now)
                (JS.num_or (ei_validFrom entity) now)
                None
                (JS.str_or_null (ei_changedBy entity))
                embedding)
      s in
  put_store (snd result) ;;;
  ret [nodeToEntity (fst result)].

Definition createEntities (entities : list EntityInput) : M (list Entity) :=
  match entities with
  | [] => ret []
  | _ => forM createEntity entities
  end.

(** *** createRelations *)

(** [MATCH (from:Entity {name: $fromName}) MATCH (to:Entity {name: $toName})] *)
Definition endpoint_pairs (s : Store) (fromName toName : string)
  : list (Node * Node) :=
  list_prod (nodes_named s fromName) (nodes_named s toName).

Definition createRelation (relation : RelationInput) : M (list (Relation Q)) :=
  now <- Date_now ;;
  relationId <- uuid ;;
  s <- get_store ;;
  let checkResult := endpoint_pairs s (ri_from relation) (ri_to relation) in
  match checkResult with
  | [] => ret []
  | _ =>
      let params :=
        mkRelProps relationId (ri_relationType relation)
                   (JS.qnum_or_null (ri_strength relation))
                   (JS.qnum_or_null (ri_confidence relation))
                   (ri_metadata relation)
                   1
                   (JS.num_or (ri_createdAt relation) now)
                   (JS.num_or (ri_updatedAt relation) now)
                   (JS.num_or (ri_validFrom relation) now)
                   None
                   (JS.str_or_null (ri_changedBy relation)) in
      let result := endpoint_pairs s (ri_from relation) (ri_to relation) in
      put_store (create_edges result params s) ;;;
      match result with
      | (fromNode, toNode) :: _ =>
          createdRelation <-
            relationshipToRelation params (n_name fromNode) (n_name toNode) ;;
          ret [createdRelation]
      | [] => ret []
      end
  end.

Definition createRelations (relations : list RelationInput)
  : M (list (Relation Q)) :=
  match relations with
  | [] => ret []
  | _ => forM createRelation relations
  end.

(** *** addObservations *)

(** The [outgoing] and [incoming] collections of the first query: the
    current relationships of [e] with the node at their other end. *)
Definition outgoing_of (s : Store) (e : Node) : list (RelProps * Node) :=
  flat_map
    (fun r =>
       if Nat.eqb (e_src r) (nid e) && edge_current r then
         match lookup_node s (e_dst r) with
         | Some t => [(e_props r, t)]
         | None => []
         end
       else [])
    (edges s).

Definition incoming_of (s : Store) (e : Node) : list (RelProps * Node) :=
  flat_map
    (fun r =>
       if Nat.eqb (e_dst r) (nid e) && edge_current r then
         match lookup_node s (e_src r) with
         | Some f => [(e_props r, f)]
         | None => []
         end
       else [])
    (edges s).

(** The properties carried onto a recreated relationship. *)
Definition carried_props (newRelId : string) (relProps : RelProps) (now : Z)
  : M RelProps :=
  createdAt <- (if Z.eqb (r_createdAt relProps) 0 then Date_now
                else ret (r_createdAt relProps)) ;;
  ret (mkRelProps newRelId (r_relationType relProps)
                  (Some (JS.defined_or (r_strength relProps) (9 # 10)))
                  (Some (JS.defined_or (r_confidence relProps) (95 # 100)))
                  (r_metadata relProps)
                  (JS.num_or (Some (r_version relProps)) 1)
                  createdAt now now None None).

Definition recreate_outgoing (newEntityId : string) (now : Z)
           (outRel : RelProps * Node) : M unit :=
  let relProps := fst outRel in
  newRelId <- uuid ;;
  p <- carried_props newRelId relProps now ;;
  s <- get_store ;;
  put_store
    (create_edges
       (list_prod (nodes_with_id s newEntityId)
                  (nodes_with_id s (n_id (snd outRel))))
       p s).

Definition recreate_incoming (newEntityId : string) (now : Z)
           (inRel : RelProps * Node) : M unit :=
  let relProps := fst inRel in
  newRelId <- uuid ;;
  p <- carried_props newRelId relProps now ;;
  s <- get_store ;;
  put_store
    (create_edges
       (list_prod (nodes_with_id s (n_id (snd inRel)))
                  (nodes_with_id s newEntityId))
       p s).

Fixpoint iterM {A} (body : A -> M unit) (l : list A) : M unit :=
  match l with
  | [] => ret tt
  | x :: rest => body x ;;; iterM body rest
  end.

(** [!obs.entityName || !obs.contents || obs.contents.length === 0] *)
Definition blank_item (obs : ObservationInput) : bool :=
  String.eqb (entityName obs) EmptyString
  || match contents obs with [] => true | _ => false end.

Definition addObservation (obs : ObservationInput) : M (list ObservationResult) :=
  if blank_item obs
  then ret []
  else
    s <- get_store ;;
    match current_named s (entityName obs) with
    | [] => ret []
    | currentNode :: _ =>
        let currentObservations := n_observations currentNode in
        let outgoingRels := outgoing_of s currentNode in
        let incomingRels := incoming_of s currentNode in
        now <- Date_now ;;
        let newVersion := n_version currentNode + 1 in
        newEntityId <- uuid ;;
        let newObservations :=
          filter (fun content => negb (JS.includes currentObservations content))
                 (contents obs) in
        match newObservations with
        | [] => ret [mkObservationResult (entityName obs) []]
        | _ =>
            let allObservations := currentObservations ++ newObservations in
            put_store (invalidate_entity_and_rels (n_id currentNode) now s) ;;;
            s1 <- get_store ;;
            put_store
              (snd (create_node
                      (fun k =>
                         mkNode k newEntityId (n_name currentNode)
                                (n_entityType currentNode) allObservations
                                newVersion (n_createdAt currentNode)
                                now now None None None)
                      s1)) ;;;
            iterM (recreate_outgoing newEntityId now) outgoingRels ;;;
            iterM (recreate_incoming newEntityId now) incomingRels ;;;
            ret [mkObservationResult (entityName obs) newObservations]
        end
    end.

Definition addObservations (observations : list ObservationInput)
  : M (list ObservationResult) :=
  match observations with
  | [] => ret []
  | _ => forM addObservation observations
  end.

(** *** deleteEntities, deleteObservations, deleteRelations *)

Definition deleteEntities (entityNames : list string) : M unit :=
  match entityNames with
  | [] => ret tt
  | _ =>
      s <- get_store ;;
      put_store (detach_delete entityNames s)
  end.

(** A deletion is [{entityName, observations}]; the record of
    [addObservations] is reused, [contents] standing for [observations]. *)
Definition deleteObservation (deletion : ObservationInput) : M unit :=
  if blank_item deletion
  then ret tt
  else
    s <- get_store ;;
    match current_named s (entityName deletion) with
    | [] => ret tt
    | currentNode :: _ =>
        let currentObservations := n_observations currentNode in
        let updatedObservations :=
          filter (fun obs => negb (JS.includes (contents deletion) obs))
                 currentObservations in
        now <- Date_now ;;
        let newVersion := n_version currentNode + 1 in
        newEntityId <- uuid ;;
        put_store (invalidate_entity (n_id currentNode) now s) ;;;
        s1 <- get_store ;;
        put_store
          (snd (create_node
                  (fun k =>
                     mkNode k newEntityId (n_name currentNode)
                            (n_entityType currentNode) updatedObservations
                            newVersion (n_createdAt currentNode)
                            now now None None None)
                  s1))
    end.

Definition deleteObservations (deletions : list ObservationInput) : M unit :=
  match deletions with
  | [] => ret tt
  | _ => iterM deleteObservation deletions
  end.

Definition deleteRelation (relation : RelationInput) : M unit :=
  s <- get_store ;;
  put_store
    (mkStore (nodes s)
             (filter
                (fun e =>
                   negb (edge_matches s (ri_from relation) (ri_to relation)
                                      (ri_relationType relation) e))
                (edges s))
             (next_nid s)).

Definition deleteRelations (relations : list RelationInput) : M unit :=
  match relations with
  | [] => ret tt
  | _ => iterM deleteRelation relations
  end.

(** *** getEntity, updateRelation *)

Definition getEntity (s : Store) (entityName : string) : option Entity :=
  match current_named s entityName with
  | [] => None
  | node :: _ => Some (nodeToEntity node)
  end.

(** The outcome of a call that may throw. *)
Inductive Result (A : Type) :=
| Ok (a : A)
| Throw (message : string).

Arguments Ok {A}.
Arguments Throw {A}.

Definition relation_not_found (relation : RelationInput) : string :=
  ("Relation not found: " ++ ri_from relation ++ " -> " ++ ri_to relation
   ++ " (" ++ ri_relationType relation ++ ")")%string.

(** The statement that closes the old version:
    [MATCH (from {name})-[r:RELATES_TO {id: $id}]->(to {name}) SET r.validTo = $now] *)
Definition invalidate_relation (s : Store) (f t i : string) (now : Z) : Store :=
  mkStore (nodes s)
          (map (fun e =>
                  match lookup_node s (e_src e), lookup_node s (e_dst e) with
                  | Some a, Some b =>
                      if String.eqb (n_name a) f && String.eqb (n_name b) t
                         && String.eqb (r_id (e_props e)) i
                      then set_edge_validTo now e else e
                  | _, _ => e
                  end)
               (edges s))
          (next_nid s).

(** The value a field of the new version takes:
    [relation.x !== undefined ? relation.x : currentRel.x]; [None] is
    [undefined], from a request that leaves the field out and a current
    version that has no such property. *)
Definition carried_forward {A} (requested current : option A) : option A :=
  match requested with
  | Some v => Some v
  | None => current
  end.

(** The parameters of the [CREATE] statement of [updateRelation] that are
    [undefined].  The driver sends no value for such a parameter, and the
    store rejects a statement that names a parameter it was not given. *)
Definition undefined_parameters (strength confidence : option Q)
           (metadata : option Metadata) : list string :=
  (match strength with None => ["strength"%string] | Some _ => [] end)
  ++ (match confidence with None => ["confidence"%string] | Some _ => [] end)
  ++ (match metadata with None => ["metadata"%string] | Some _ => [] end).

(** The error of the store for missing parameters; its wording is the
    store's own. *)
Definition missing_parameters (names : list string) : string :=
  ("Expected parameter(s): " ++ JS.join ", " names)%string.

Definition updateRelation (relation : RelationInput) : M (Result unit) :=
  s <- get_store ;;
  let getResult :=
    filter (fun e =>
              edge_matches s (ri_from relation) (ri_to relation)
                           (ri_relationType relation) e
              && edge_current e)
           (edges s) in
  match getResult with
  | [] =>
      (* the transaction is rolled back and the error rethrown *)
      put_store s ;;;
      ret (Throw (relation_not_found relation))
  | current :: _ =>
      let currentRel := e_props current in
      now <- Date_now ;;
      let newVersion := r_version currentRel + 1 in
      newRelationId <- uuid ;;
      put_store (invalidate_relation s (ri_from relation) (ri_to relation)
                                     (r_id currentRel) now) ;;;
      let strength := carried_forward (ri_strength relation) (r_strength currentRel) in
      let confidence :=
        carried_forward (ri_confidence relation) (r_confidence currentRel) in
      let metadata := carried_forward (ri_metadata relation) (r_metadata currentRel) in
      match undefined_parameters strength confidence metadata with
      | [] =>
          s1 <- get_store ;;
          let createParams :=
            mkRelProps newRelationId (ri_relationType relation)
                       strength confidence metadata
                       newVersion (r_createdAt currentRel) now now None
                       (JS.str_or_null (ri_changedBy relation)) in
          put_store
            (create_edges (endpoint_pairs s1 (ri_from relation) (ri_to relation))
                          createParams s1) ;;;
          ret (Ok tt)
      | missing =>
          (* the statement is rejected, the transaction rolled back and the
             error rethrown *)
          put_store s ;;;
          ret (Throw (missing_parameters missing))
      end
  end.

(** *** Reading: loadGraph, openNodes, searchNodes, getGraphAtTime *)

Definition relation_of_row (row : Node * Edge * Node) : M (Relation Q) :=
  let '(f, e, t) := row in
  relationshipToRelation (e_props e) (n_name f) (n_name t).

Definition loadGraph : M (KnowledgeGraph Q) :=
  s <- get_store ;;
  let entities := map nodeToEntity (filter node_current (nodes s)) in
  relations <-
    mapM relation_of_row
         (filter (fun row => edge_current (snd (fst row))) (match_edges s)) ;;
  ret (mkGraph entities relations).

(** Current relationships whose two end nodes are both named in [names]. *)
Definition relations_among (s : Store) (names : list string)
  : list (Node * Edge * Node) :=
  filter (fun row =>
            let '(f, e, t) := row in
            JS.includes names (n_name f) && JS.includes names (n_name t)
            && edge_current e)
         (match_edges s).

Definition openNodes (names : list string) : M (KnowledgeGraph Q) :=
  match names with
  | [] => ret (mkGraph [] [])
  | _ =>
      s <- get_store ;;
      let entities :=
        map nodeToEntity
            (filter (fun e => JS.includes names (n_name e) && node_current e)
                    (nodes s)) in
      relations <- mapM relation_of_row (relations_among s names) ;;
      ret (mkGraph entities relations)
  end.

Definition search_pattern (query : string) : string :=
  ("(?i).*" ++ query ++ ".*")%string.

Definition node_matches (query : string) (e : Node) : bool :=
  regex_matches H (n_name e) (search_pattern query)
  || regex_matches H (n_entityType e) (search_pattern query)
  || regex_matches H (JSON_stringify H (n_observations e)) (search_pattern query).

Definition entityType_allowed (types : option (list string)) (ty : string) : bool :=
  match types with
  | Some (t :: ts) => JS.includes (t :: ts) ty
  | _ => true
  end.

(** [LIMIT $limit]: the store rejects a negative limit. *)
Definition cypher_limit {A} (n : Z) (rows : list A) : Result (list A) :=
  if Z.ltb n 0 then Throw "LIMIT: must be a non-negative integer"
  else Ok (firstn (Z.to_nat n) rows).

Definition searchNodes (query : string) (options : SearchOptions)
  : M (Result (KnowledgeGraph Q)) :=
  let rawLimit := JS.qnum_or (limit options) (10 # 1) in
  s <- get_store ;;
  match cypher_limit (Qfloor rawLimit)
          (filter (fun e =>
                     node_matches query e
                     && entityType_allowed (entityTypes options) (n_entityType e)
                     && node_current e)
                  (nodes s))
  with
  | Throw msg => ret (Throw msg)
  | Ok records =>
      let entities := map nodeToEntity records in
      let entityNames := map name entities in
      match entityNames with
      | [] => ret (Ok (mkGraph entities []))
      | _ =>
          relations <- mapM relation_of_row (relations_among s entityNames) ;;
          ret (Ok (mkGraph entities relations))
      end
  end.

(** The two queries of [getGraphAtTime]. *)
Definition valid_at (timestamp vFrom : Z) (vTo : option Z) : bool :=
  Z.leb vFrom timestamp
  && match vTo with
     | None => true
     | Some t => Z.ltb timestamp t
     end.

Definition entities_at (s : Store) (timestamp : Z) : list Node :=
  filter (fun e => valid_at timestamp (n_validFrom e) (n_validTo e)) (nodes s).

Definition relations_at (s : Store) (timestamp : Z) : list (Node * Edge * Node) :=
  filter (fun row =>
            let r := e_props (snd (fst row)) in
            valid_at timestamp (r_validFrom r) (r_validTo r))
         (match_edges s).

Definition getGraphAtTime (timestamp : Z) : M (KnowledgeGraph Q) :=
  s <- get_store ;;
  let entities := map nodeToEntity (entities_at s timestamp) in
  relations <- mapM relation_of_row (relations_at s timestamp) ;;
  ret (mkGraph entities relations).

(** *** getDecayedGraph *)

Variable decayConfig : DecayConfig.

(** The object built by [relationshipToRelation] has exactly the own
    properties [from], [to], [relationType], [strength], [confidence] and
    [metadata]; the cast [relation as ExtendedRelation] adds none.  Reading
    [validFrom] or [createdAt] on it therefore yields [undefined]. *)
Definition relation_validFrom {num} (relation : Relation num) : option Z := None.

Definition relation_createdAt {num} (relation : Relation num) : option Z := None.

(** A relation as read, its numeric fields seen as real numbers. *)
Definition relation_to_real (r : Relation Q) : Relation R :=
  mkRelation (from r) (to r) (relationType r)
             (option_map Q2R (strength r)) (option_map Q2R (confidence r))
             (metadata r).

Definition graph_to_real (g : KnowledgeGraph Q) : KnowledgeGraph R :=
  mkGraph (entities g) (map relation_to_real (relations g)).

Definition halfLifeMs : R := (halfLifeDays decayConfig * 24 * 60 * 60 * 1000)%R.

Definition decayFactor : R := (ln (1 / 2) / halfLifeMs)%R.

Definition apply_decay (startTime : Z) (relation : Relation Q) : Relation R :=
  match confidence relation with
  | Some c =>
      let ageDiff :=
        startTime
        - JS.num_or (relation_validFrom relation)
                    (JS.num_or (relation_createdAt relation) startTime) in
      let decayedConfidence := (Q2R c * exp (decayFactor * IZR ageDiff))%R in
      let decayedConfidence :=
        if Rlt_dec decayedConfidence (minConfidence decayConfig)
        then minConfidence decayConfig
        else decayedConfidence in
      mkRelation (from relation) (to relation) (relationType relation)
                 (option_map Q2R (strength relation))
                 (Some decayedConfidence)
                 (metadata relation)
  | None => relation_to_real relation
  end.

Definition getDecayedGraph : M (KnowledgeGraph R) :=
  if negb (enabled decayConfig) then
    g <- loadGraph ;;
    ret (graph_to_real g)
  else
    startTime <- Date_now ;;
    s <- get_store ;;
    let entities := map nodeToEntity (filter node_current (nodes s)) in
    relations <-
      mapM (fun row =>
              relation <- relation_of_row row ;;
              ret (apply_decay startTime relation))
           (filter (fun row => edge_current (snd (fst row))) (match_edges s)) ;;
    ret (mkGraph entities relations).

(** *** findSimilarEntities, semanticSearch *)

(** [ORDER BY score DESC]; rows of equal score keep their order. *)
Fixpoint insert_by_score {A} (x : A * Q) (l : list (A * Q)) : list (A * Q) :=
  match l with
  | [] => [x]
  | y :: rest =>
      if Qle_bool (snd y) (snd x) then x :: y :: rest
      else y :: insert_by_score x rest
  end.

Definition order_by_score_desc {A} (l : list (A * Q)) : list (A * Q) :=
  fold_right insert_by_score [] l.

(** [Array.prototype.slice(0, e)] for an integer [e]: a negative end counts
    from the end of the array. *)
Definition slice0 {A} (l : list A) (e : Z) : list A :=
  if Z.ltb e 0 then firstn (List.length l - Z.to_nat (- e)) l
  else firstn (Z.to_nat e) l.

(** What reading a field of an object gives in JavaScript. *)
Inductive Field (A : Type) :=
| Null
| Undefined
| Value (a : A).

Arguments Null {A}.
Arguments Undefined {A}.
Arguments Value {A}.

(** A field that [nodeToEntity] copied from a node.  The store keeps no
    property whose value is null, so a property of a node holds a value or
    is missing, and reading a missing property gives [undefined]. *)
Definition read_property {A} (x : option A) : Field A :=
  match x with
  | Some v => Value v
  | None => Undefined
  end.

(** [x === null] *)
Definition strictly_null {A} (x : Field A) : bool :=
  match x with
  | Null => true
  | _ => false
  end.

(** Every failure inside [findSimilarEntities] is caught and turned into
    an empty result. *)
Definition findSimilarEntities (s : Store) (queryVector : list Q) (lim : Z)
  : list (Entity * Q) :=
  match vector_queryNodes H (nodes s) lim queryVector with
  | Some rows =>
      let records := order_by_score_desc rows in
      let entities :=
        flat_map (fun record =>
                    match getEntity s (n_name (fst record)) with
                    | Some entity => [(entity, snd record)]
                    | None => []
                    end)
                 records in
      slice0 (filter (fun entity => strictly_null (read_property (validTo (fst entity))))
                     entities)
             lim
  | None => []
  end.

Definition with_limit (options : SearchOptions) (l : Q) : SearchOptions :=
  mkSearchOptions (Some l) (entityTypes options) (minSimilarity options)
                  (queryVector options).

Definition with_queryVector (options : SearchOptions) (v : list Q) : SearchOptions :=
  mkSearchOptions (limit options) (entityTypes options) (minSimilarity options)
                  (Some v).

Definition empty_graph : KnowledgeGraph Q := mkGraph [] [].

(** The tail of [semanticSearch]: the lexical search. *)
Definition text_search (query : string) (options : SearchOptions)
  : M (Result (KnowledgeGraph Q)) :=
  let textSearchLimit := Qfloor (JS.qnum_or (limit options) (10 # 1)) in
  searchNodes query (with_limit options (inject_Z textSearchLimit)).

(** The branch of [semanticSearch] taken when [options.queryVector] is set
    on entry. *)
Definition vector_search (options : SearchOptions) (queryVector : list Q)
  : M (Result (KnowledgeGraph Q)) :=
  let searchLimit := Qfloor (JS.qnum_or (limit options) (10 # 1)) in
  let minSimilarity := JS.qnum_or (minSimilarity options) (6 # 10) in
  s <- get_store ;;
  match vector_queryNodes H (nodes s) searchLimit queryVector with
  | Some rows =>
      (* the direct lookup: WHERE score >= $minScore ... ORDER BY score DESC *)
      let vectorResult :=
        order_by_score_desc
          (filter (fun row => Qle_bool minSimilarity (snd row)) rows) in
      match vectorResult with
      | [] => ret (Ok empty_graph)
      | _ =>
          let entities :=
            flat_map (fun record =>
                        match getEntity s (n_name (fst record)) with
                        | Some entity => [entity]
                        | None => []
                        end)
                     vectorResult in
          match entities with
          | [] => ret (Ok empty_graph)
          | _ =>
              finalGraph <- openNodes (map name entities) ;;
              ret (Ok finalGraph)
          end
      end
  | None =>
      (* the direct lookup failed: the original implementation *)
      let results := findSimilarEntities s queryVector (searchLimit * 2) in
      let filteredResults :=
        slice0
          (filter (fun result =>
                     entityType_allowed (entityTypes options)
                                        (entityType (fst result)))
                  (filter (fun result => Qle_bool minSimilarity (snd result))
                          results))
          searchLimit in
      match filteredResults with
      | [] => ret (Ok empty_graph)
      | _ =>
          finalGraph <- openNodes (map (fun r => name (fst r)) filteredResults) ;;
          ret (Ok finalGraph)
      end
  end.

(** The lazy initialisation of the vector store at the head of
    [semanticSearch] only logs; a failure of the index shows when the
    lookup itself is made. *)
Definition semanticSearch (query : string) (options : SearchOptions)
  : M (Result (KnowledgeGraph Q)) :=
  match queryVector options, embeddingService H with
  | None, Some generateEmbedding =>
      (* if (!options.queryVector && this.embeddingService): the vector is
         generated, a failure is caught; the else-if below is not entered *)
      let options :=
        match generateEmbedding query with
        | Some v => with_queryVector options v
        | None => options
        end in
      text_search query options
  | Some v, _ =>
      (* else if (options.queryVector) *)
      vector_search options v
  | None, None =>
      text_search query options
  end.

End Provider.

Arguments Ok {A}.
Arguments Throw {A}.
Arguments Null {A}.
Arguments Undefined {A}.
Arguments Value {A}.

(** *** saveGraph *)

Record SavedEntity := mkSavedEntity {
  se_name : string;
  se_entityType : string;
  se_observations : option (list string);
  se_id : option string;
  se_version : option Z;
  se_createdAt : option Z;
  se_updatedAt : option Z;
  se_validFrom : option Z;
  se_validTo : option Z;
  se_changedBy : option string
}.

Record SavedRelation := mkSavedRelation {
  sr_from : string;
  sr_to : string;
  sr_relationType : string;
  sr_strength : option Q;
  sr_confidence : option Q;
  sr_metadata : option Metadata;
  sr_id : option string;
  sr_version : option Z;
  sr_createdAt : option Z;
  sr_updatedAt : option Z;
  sr_validFrom : option Z;
  sr_validTo : option Z;
  sr_changedBy : option string
}.

Section SaveGraph.

Variable H : Host.

Local Open Scope m_scope.

(** [x || Date.now()]: the clock is read only when [x] is falsy. *)
Definition num_or_now (x : option Z) : M Z :=
  match x with
  | Some v => if Z.eqb v 0 then Date_now H else ret v
  | None => Date_now H
  end.

(** [x || uuidv4()] *)
Definition str_or_uuid (x : option string) : M string :=
  match JS.str_or_null x with
  | Some v => ret v
  | None => uuid H
  end.

Definition num_or_null (x : option Z) : option Z :=
  match x with
  | Some v => if Z.eqb v 0 then None else Some v
  | None => None
  end.

Definition saveEntity (entity : SavedEntity) : M unit :=
  i <- str_or_uuid (se_id entity) ;;
  c <- num_or_now (se_createdAt entity) ;;
  u <- num_or_now (se_updatedAt entity) ;;
  f <- num_or_now (se_validFrom entity) ;;
  s <- get_store ;;
  put_store
    (snd (create_node
            (fun k =>
               mkNode k i (se_name entity) (se_entityType entity)
                      (JS.defined_or (se_observations entity) [])
                      (JS.num_or (se_version entity) 1)
                      c u f
                      (num_or_null (se_validTo entity))
                      (JS.str_or_null (se_changedBy entity))
                      None)
            s)).

Definition saveRelation (relation : SavedRelation) : M unit :=
  i <- str_or_uuid (sr_id relation) ;;
  c <- num_or_now (sr_createdAt relation) ;;
  u <- num_or_now (sr_updatedAt relation) ;;
  f <- num_or_now (sr_validFrom relation) ;;
  s <- get_store ;;
  put_store
    (create_edges
       (endpoint_pairs s (sr_from relation) (sr_to relation))
       (mkRelProps i (sr_relationType relation)
                   (JS.qnum_or_null (sr_strength relation))
                   (JS.qnum_or_null (sr_confidence relation))
                   (sr_metadata relation)
                   (JS.num_or (sr_version relation) 1)
                   c u f
                   (num_or_null (sr_validTo relation))
                   (JS.str_or_null (sr_changedBy relation)))
       s).

Definition saveGraph (graphEntities : list SavedEntity)
           (graphRelations : list SavedRelation) : M unit :=
  s <- get_store ;;
  (* MATCH (n) DETACH DELETE n *)
  put_store (mkStore [] [] (next_nid s)) ;;;
  iterM saveEntity graphEntities ;;;
  iterM saveRelation graphRelations.

End SaveGraph.

(** ** LocalEmbeddingService *)

Module LocalEmbeddingService.

Import PrimFloat.

(** A JavaScript number is an IEEE 754 double; [+], [*], [/], [<] and
    [Math.sqrt] are the operations of that format. *)

(** The first loop of [_normalizeVector]: [magnitude += vector[i] * vector[i]]. *)
Definition sum_of_squares (vector : list float) : float :=
  fold_left (fun magnitude x => (magnitude + x * x)%float) vector 0%float.

(** [vector[0] = 1]; on an empty array the assignment creates the element. *)
Definition set_first_to_one (vector : list float) : list float :=
  match vector with
  | [] => [1%float]
  | _ :: rest => 1%float :: rest
  end.

(** [magnitude > 0] is false for a magnitude of 0 and for NaN. *)
Definition _normalizeVector (vector : list float) : list float :=
  let magnitude := sqrt (sum_of_squares vector) in
  if (0 <? magnitude)%float then map (fun x => (x / magnitude)%float) vector
  else set_first_to_one vector.

(** What [_initialize()] leaves: it throws with a message when the pipeline
    cannot be loaded, and otherwise [this.extractor] is the loaded pipeline,
    or nothing.  A run of the pipeline gives [Array.from(output.data)] or
    throws with a message. *)
Definition Extractor (input : Type) : Type :=
  Result (option (input -> Result (list float))).

Definition generateEmbedding (initialized : Extractor string) (text : string)
  : Result (list float) :=
  match initialized with
  | Throw message =>
      Throw ("Failed to initialize local embedding model: " ++ message)
  | Ok None => Throw "Embedding model not initialized"
  | Ok (Some run) =>
      match run text with
      | Throw message => Throw ("Error generating local embedding: " ++ message)
      | Ok [] =>
          Throw "Error generating local embedding: Invalid embedding returned from local model"
      | Ok embedding => Ok (_normalizeVector embedding)
      end
  end.




(** The Euclidean norm as the code itself would compute it, in doubles. *)
Definition l2_norm (vector : list float) : float := sqrt (sum_of_squares vector).





End LocalEmbeddingService.

(** ** Sequences of write operations *)

Inductive Operation :=
| CreateEntities (entities : list EntityInput)
| CreateRelations (relations : list RelationInput)
| AddObservations (observations : list ObservationInput)
| DeleteObservations (deletions : list ObservationInput)
| UpdateRelation (relation : RelationInput)
| DeleteEntities (entityNames : list string)
| DeleteRelations (relations : list RelationInput).

Definition perform (H : Host) (op : Operation) (w : World) : World :=
  match op with
  | CreateEntities l => snd (createEntities H l w)
  | CreateRelations l => snd (createRelations H l w)
  | AddObservations l => snd (addObservations H l w)
  | DeleteObservations l => snd (deleteObservations H l w)
  | UpdateRelation r => snd (updateRelation H r w)
  | DeleteEntities l => snd (deleteEntities l w)
  | DeleteRelations l => snd (deleteRelations l w)
  end.

Fixpoint perform_all (H : Host) (ops : list Operation) (w : World) : World :=
  match ops with
  | [] => w
  | op :: rest => perform_all H rest (perform H op w)
  end.

(** ** Properties of a store *)

(** At most one row of a name is current. *)
Definition unique_current (s : Store) : Prop :=
  forall nm, (List.length (current_named s nm) <= 1)%nat.

(** Every relationship is attached to two stored nodes. *)
Definition no_dangling (s : Store) : Prop :=
  forall e, In e (edges s) ->
            lookup_node s (e_src e) <> None /\ lookup_node s (e_dst e) <> None.

(** Nothing is left to add for the item: it is blank, or each of its
    contents is already an observation of the first current row of its
    entity, if the entity has one. *)
Definition settled (s : Store) (obs : ObservationInput) : Prop :=
  blank_item obs = true
  \/ forall c rest,
      current_named s (entityName obs) = c :: rest ->
      forall x, In x (contents obs) -> In x (n_observations c).

(** The names of a [createEntities] batch are pairwise distinct and none of
    them has a current row. *)
Definition fresh_names (s : Store) (entities : list EntityInput) : Prop :=
  NoDup (map ei_name entities)
  /\ forall e, In e entities -> current_named s (ei_name e) = [].

Fixpoint creates_only_fresh (H : Host) (ops : list Operation) (w : World) : Prop :=
  match ops with
  | [] => True
  | op :: rest =>
      match op with
      | CreateEntities l => fresh_names (store w) l
      | _ => True
      end
      /\ creates_only_fresh H rest (perform H op w)
  end.

(** The validity interval of a row contains the instant. *)
Definition in_validity_interval (timestamp vFrom : Z) (vTo : option Z) : Prop :=
  vFrom <= timestamp /\ (vTo = None \/ exists t, vTo = Some t /\ timestamp < t).

(** What a returned relation shows of its row. *)
Definition relation_core (r : Relation Q)
  : string * string * string * option Q * option Q :=
  (from r, to r, relationType r, strength r, confidence r).

Definition row_core (row : Node * Edge * Node)
  : string * string * string * option Q * option Q :=
  let '(f, e, t) := row in
  (n_name f, n_name t, r_relationType (e_props e), r_strength (e_props e),
   r_confidence (e_props e)).

(** ** A concrete host and concrete inputs *)

Module Example.

Fixpoint tally (n : nat) : string :=
  match n with
  | O => "u"%string
  | S k => ("i" ++ tally k)%string
  end.

Definition contains (text q : string) : bool :=
  match String.index 0 q text with
  | Some _ => true
  | None => false
  end.

(** A matcher for the patterns [(?i).*q.*] of [searchNodes] on lower-case
    text: does the text contain [q]? *)
Definition substring_matcher (text pattern : string) : bool :=
  contains text (String.substring 6 (String.length pattern - 8) pattern).

Definition quote : string := String (Ascii.ascii_of_nat 34) EmptyString.

Definition stringify (l : list string) : string :=
  ("[" ++ JS.join ","%string (map (fun s => quote ++ s ++ quote) l) ++ "]")%string.

(** An index that scores every node carrying an embedding 9/10 and refuses
    a non-positive [k]. *)
Definition flat_index (ns : list Node) (k : Z) (v : list Q)
  : option (list (Node * Q)) :=
  if Z.leb k 0 then None
  else Some (firstn (Z.to_nat k)
               (flat_map (fun n => match n_embedding n with
                                   | Some _ => [(n, 9 # 10)]
                                   | None => []
                                   end) ns)).

Definition host (service : option (string -> option (list Q))) : Host :=
  mkHost (fun n => 1000 + Z.of_nat n) tally substring_matcher stringify
         service flat_index.

Definition unit_embedder : option (string -> option (list Q)) :=
  Some (fun _ => Some [1 # 1]).

Definition start : World := mkWorld empty_store 0 0.

Definition entity (nm ty : string) (obs : list string) : EntityInput :=
  mkEntityInput nm ty (Some obs) None None None None.

Definition relation (f t ty : string) : RelationInput :=
  mkRelationInput f t ty None None None None None None None.

Definition plain_options : SearchOptions := mkSearchOptions None None None None.

(** Two entities and one relation between them. *)
Definition populated : World :=
  perform_all (host None)
    [CreateEntities [entity "a" "person" ["likes tea"%string]; entity "b" "city" []];
     CreateRelations [relation "a" "b" "lives_in"]]
    start.

(** A saved graph in which the only version of "a" is already superseded. *)
Definition superseded_a : World :=
  snd (saveGraph (host None)
         [mkSavedEntity "a" "person" None None None None None None (Some 5) None;
          mkSavedEntity "b" "city" None None None None None None None None]
         [] start).

(** One entity, created while an embedding service is present. *)
Definition embedded : World :=
  perform_all (host unit_embedder)
    [CreateEntities [entity "cat" "animal" ["purrs"%string]]] start.

Definition half_limit : SearchOptions :=
  mkSearchOptions (Some (1 # 2)) None None None.

Definition only_cities : SearchOptions :=
  mkSearchOptions None (Some ["city"%string]) None (Some [1 # 1]).

(** Two entities and a relation of confidence 8/10, created at 1002. *)
Definition trusted : World :=
  perform_all (host None)
    [CreateEntities [entity "a" "person" []; entity "b" "city" []];
     CreateRelations
       [mkRelationInput "a" "b" "lives_in" None (Some (8 # 10)) None
                        None None None None]]
    start.

(** The same host thirty days (2592000000 ms) after 1002. *)
Definition month_later : Host :=
  mkHost (fun _ => 2592001002) tally substring_matcher stringify None flat_index.

Definition decay30 : DecayConfig := mkDecayConfig true 30%R (1 / 10)%R.

(** An index whose direct lookup with [k = 10] fails. *)
Definition picky_index (ns : list Node) (k : Z) (v : list Q)
  : option (list (Node * Q)) :=
  if Z.eqb k 10 then None else flat_index ns k v.

Definition picky_host : Host :=
  mkHost (fun n => 1000 + Z.of_nat n) tally substring_matcher stringify
         None picky_index.

(** A batch that names "a" twice and an unknown entity once. *)
Definition batch : list ObservationInput :=
  [mkObservationInput "a" ["tall"%string];
   mkObservationInput "a" ["tall"%string; "kind"%string];
   mkObservationInput "ghost" ["seen"%string]].

End Example.

(** ** More of the storage provider: single reads, histories, embeddings *)

(** [EntityEmbedding], as the provider uses it. *)
Record EntityEmbedding := mkEntityEmbedding {
  vector : list Q;
  model : string;
  lastUpdated : Z
}.

(** [ORDER BY x.validFrom ASC]; rows of equal key keep their order. *)
Fixpoint insert_ascending {A} (key : A -> Z) (x : A) (l : list A) : list A :=
  match l with
  | [] => [x]
  | y :: rest =>
      if Z.leb (key x) (key y) then x :: y :: rest
      else y :: insert_ascending key x rest
  end.

Definition order_ascending {A} (key : A -> Z) (l : list A) : list A :=
  fold_right (insert_ascending key) [] l.

(** [SET e.embedding = $embedding, e.updatedAt = $now] *)
Definition set_node_embedding (v : list Q) (now : Z) (n : Node) : Node :=
  mkNode (nid n) (n_id n) (n_name n) (n_entityType n) (n_observations n)
         (n_version n) (n_createdAt n) now (n_validFrom n)
         (n_validTo n) (n_changedBy n) (Some v).

Definition entity_not_found (entityName : string) : string :=
  ("Entity " ++ entityName ++ " not found")%string.

Section ProviderReads.

Variable H : Host.

Local Open Scope m_scope.

(** Rows matching
    [(from:Entity {name})-[r:RELATES_TO]->(to:Entity {name})
     WHERE r.relationType = $relationType]. *)
Definition relation_rows (s : Store) (f t ty : string) : list (Node * Edge * Node) :=
  filter (fun row =>
            let '(a, e, b) := row in
            String.eqb (n_name a) f && String.eqb (n_name b) t
            && String.eqb (r_relationType (e_props e)) ty)
         (match_edges s).

Definition getRelation (fromName toName type : string) : M (option (Relation Q)) :=
  s <- get_store ;;
  match filter (fun row => edge_current (snd (fst row)))
               (relation_rows s fromName toName type) with
  | [] => ret None
  | record :: _ =>
      relation <- relation_of_row H record ;;
      ret (Some relation)
  end.

Definition getEntityHistory (s : Store) (entityName : string) : list Entity :=
  map nodeToEntity (order_ascending n_validFrom (nodes_named s entityName)).

Definition getRelationHistory (fromName toName relationType : string)
  : M (list (Relation Q)) :=
  s <- get_store ;;
  mapM (relation_of_row H)
       (order_ascending (fun row => r_validFrom (e_props (snd (fst row))))
                        (relation_rows s fromName toName relationType)).

Definition updateEntityEmbedding (entityName : string) (embedding : EntityEmbedding)
  : M (Result unit) :=
  s <- get_store ;;
  match getEntity s entityName with
  | None => ret (Throw (entity_not_found entityName))
  | Some _ =>
      now <- Date_now H ;;
      put_store
        (mkStore
           (map (fun e =>
                   if String.eqb (n_name e) entityName && node_current e
                   then set_node_embedding (vector embedding) now e
                   else e)
                (nodes s))
           (edges s) (next_nid s)) ;;;
      ret (Ok tt)
  end.

(** Every failure inside [getEntityEmbedding] is caught and turned into
    [null]. *)
Definition getEntityEmbedding (entityName : string) : M (option EntityEmbedding) :=
  s <- get_store ;;
  match getEntity s entityName with
  | None => ret None
  | Some entity =>
      match current_named s entityName with
      | [] => ret None
      | record :: _ =>
          match n_embedding record with
          | None => ret None
          | Some embeddingVector =>
              lastUpdated <- (if Z.eqb (updatedAt entity) 0 then Date_now H
                              else ret (updatedAt entity)) ;;
              ret (Some (mkEntityEmbedding embeddingVector "unknown" lastUpdated))
          end
      end
  end.

End ProviderReads.

(** ** LocalEmbeddingService: batches *)

Module LocalEmbeddingBatch.

Import PrimFloat LocalEmbeddingService.

(** [ToIntegerOrInfinity]: NaN and the zeros give 0, a finite number is
    truncated towards zero. *)
Inductive IntegerOrInfinity :=
| Finite (z : Z)
| PlusInfinity
| MinusInfinity.

Definition ToIntegerOrInfinity (x : float) : IntegerOrInfinity :=
  match FloatOps.Prim2SF x with
  | SpecFloat.S754_nan => Finite 0
  | SpecFloat.S754_zero _ => Finite 0
  | SpecFloat.S754_infinity false => PlusInfinity
  | SpecFloat.S754_infinity true => MinusInfinity
  | SpecFloat.S754_finite s m e =>
      let magnitude :=
        if Z.leb 0 e then Zpos m * 2 ^ e else Zpos m / 2 ^ (- e) in
      Finite (if s then - magnitude else magnitude)
  end.

(** The position in an array of length [len] that a relative index
    denotes: a negative index counts from the end, and the result is
    clamped to the array. *)
Definition position (len : Z) (relative : IntegerOrInfinity) : Z :=
  match relative with
  | MinusInfinity => 0
  | PlusInfinity => len
  | Finite z => if Z.ltb z 0 then Z.max (len + z) 0 else Z.min z len
  end.

(** [TypedArray.prototype.slice(start, end)] *)
Definition typed_slice {A} (data : list A) (start stop : float) : list A :=
  let len := Z.of_nat (List.length data) in
  let k := position len (ToIntegerOrInfinity start) in
  let final := position len (ToIntegerOrInfinity stop) in
  firstn (Z.to_nat (Z.max (final - k) 0)) (skipn (Z.to_nat k) data).

(** The loop [for (let i = 0; i < texts.length; i++)], from index [i] on
    with [remaining] iterations left. *)
Fixpoint embeddings_from (data : list float) (embeddingSize i : float)
         (remaining : nat) : list (list float) :=
  match remaining with
  | O => []
  | S more =>
      let start := (i * embeddingSize)%float in
      let stop := (start + embeddingSize)%float in
      _normalizeVector (typed_slice data start stop)
      :: embeddings_from data embeddingSize (i + 1)%float more
  end.

(** [dimensions] is [this.dimensions]. *)
Definition generateEmbeddings (initialized : Extractor (list string))
           (dimensions : float) (texts : list string)
  : Result (list (list float)) :=
  match initialized with
  | Throw message =>
      Throw ("Failed to initialize local embedding model: " ++ message)
  | Ok None => Throw "Embedding model not initialized"
  | Ok (Some run) =>
      match run texts with
      | Throw message => Throw ("Failed to generate local embeddings: " ++ message)
      | Ok data => Ok (embeddings_from data dimensions 0%float (List.length texts))
      end
  end.

(** The index arithmetic of the loop is exact for [remaining] rounds from
    round [k] on: with [d] the integer that [embeddingSize] stands for, the
    bounds computed in round [k] are [k * d] and [k * d + d]. *)
Fixpoint exact_layout (embeddingSize i : float) (d k : Z) (remaining : nat) : bool :=
  match remaining with
  | O => true
  | S more =>
      let start := (i * embeddingSize)%float in
      let stop := (start + embeddingSize)%float in
      match ToIntegerOrInfinity start, ToIntegerOrInfinity stop with
      | Finite a, Finite b =>
          Z.eqb a (k * d) && Z.eqb b (k * d + d)
          && exact_layout embeddingSize (i + 1)%float d (k + 1) more
      | _, _ => false
      end
  end.

(** Sample data: two texts, two numbers each. *)
Definition two_by_two : list float := [3%float; 4%float; 0%float; 0%float].

End LocalEmbeddingBatch.

(** ** EmbeddingServiceFactory.createFromEnvironment *)

Module EmbeddingServiceFactory.

(** The variables of [process.env] the factory reads. *)
Record Environment := mkEnvironment {
  MOCK_EMBEDDINGS : option string;
  EMBEDDING_PROVIDER : option string;
  OPENAI_API_KEY : option string;
  LOCAL_EMBEDDING_MODEL : option string;
  OPENAI_EMBEDDING_MODEL : option string
}.

(** The service the factory returns, by the constructor that built it. *)
Inductive Service :=
| DefaultEmbeddingService
| LocalEmbeddingService (modelName : string)
| OpenAIEmbeddingService (apiKey modelName : string).

Section Factory.

(** [String.prototype.toLowerCase]. *)
Variable toLowerCase : string -> string.

(** Does [new OpenAIEmbeddingService({apiKey, model})] return, rather than
    throw?  (The class is not part of these sources.) *)
Variable openai_constructs : string -> string -> bool.

(** [new LocalEmbeddingService({model})] does not throw, so the [catch]
    around it is never entered. *)
Definition createFromEnvironment (env : Environment) : Service :=
  let useMockEmbeddings :=
    match MOCK_EMBEDDINGS env with
    | Some v => String.eqb v "true"
    | None => false
    end in
  let embeddingProvider :=
    JS.defined_or (JS.str_or_null (option_map toLowerCase (EMBEDDING_PROVIDER env)))
                  "auto"%string in
  let localModel :=
    JS.defined_or (JS.str_or_null (LOCAL_EMBEDDING_MODEL env))
                  "Xenova/bge-base-en-v1.5"%string in
  if useMockEmbeddings then DefaultEmbeddingService
  else if String.eqb embeddingProvider "local" then
    LocalEmbeddingService localModel
  else
    let openaiApiKey := JS.str_or_null (OPENAI_API_KEY env) in
    let embeddingModel :=
      JS.defined_or (JS.str_or_null (OPENAI_EMBEDDING_MODEL env))
                    "text-embedding-3-small"%string in
    match (if String.eqb embeddingProvider "openai"
              || String.eqb embeddingProvider "auto"
           then openaiApiKey else None) with
    | Some key =>
        if openai_constructs key embeddingModel
        then OpenAIEmbeddingService key embeddingModel
        else DefaultEmbeddingService
    | None =>
        if String.eqb embeddingProvider "auto"
        then LocalEmbeddingService localModel
        else DefaultEmbeddingService
    end.

End Factory.

End EmbeddingServiceFactory.

(** ** LocalEmbeddingService: construction *)

Module LocalEmbeddingModel.

Inductive Pooling := mean | cls.

Record LocalEmbeddingConfig := mkLocalEmbeddingConfig {
  lc_model : option string;
  lc_dimensions : option Q;
  lc_version : option string;
  lc_pooling : option Pooling
}.

Record ModelConfig := mkModelConfig {
  mc_dimensions : Q;
  mc_pooling : Pooling;
  mc_version : string
}.

(** [SUPPORTED_MODELS[name]].  A name that the object inherits rather than
    owns gives a value without [dimensions], [pooling] or [version], which
    the reads below treat like a missing entry. *)
Definition SUPPORTED_MODELS (name : string) : option ModelConfig :=
  if String.eqb name "Xenova/bge-base-en-v1.5"
  then Some (mkModelConfig (768 # 1) mean "1.5.0")
  else if String.eqb name "Xenova/bge-small-en-v1.5"
  then Some (mkModelConfig (384 # 1) mean "1.5.0")
  else if String.eqb name "Xenova/bge-m3"
  then Some (mkModelConfig (1024 # 1) cls "3.0.0")
  else if String.eqb name "Xenova/bge-large-en-v1.5"
  then Some (mkModelConfig (1024 # 1) mean "1.5.0")
  else None.

(** The fields the constructor sets. *)
Record Service := mkService {
  model : string;
  dimensions : Q;
  version : string;
  pooling : Pooling
}.

Definition constructor (config : LocalEmbeddingConfig) : Service :=
  let model :=
    JS.defined_or (JS.str_or_null (lc_model config)) "Xenova/bge-base-en-v1.5"%string in
  let modelConfig := SUPPORTED_MODELS model in
  mkService
    model
    (JS.qnum_or (lc_dimensions config)
                (JS.qnum_or (option_map mc_dimensions modelConfig) (768 # 1)))
    (JS.defined_or (JS.str_or_null (lc_version config))
                   (JS.defined_or
                      (JS.str_or_null (option_map mc_version modelConfig))
                      "1.0.0"%string))
    (JS.defined_or (lc_pooling config)
                   (JS.defined_or (option_map mc_pooling modelConfig) mean)).

(** [getModelInfo()]: name, dimensions, version. *)
Definition getModelInfo (service : Service) : string * Q * string :=
  (model service, dimensions service, version service).

(** [new LocalEmbeddingService({ model: localModel })], as
    [createFromEnvironment] calls it. *)
Definition from_model (localModel : string) : Service :=
  constructor (mkLocalEmbeddingConfig (Some localModel) None None None).

End LocalEmbeddingModel.

(** ** The router script: project lookup and configuration *)

Module Router.

Local Open Scope N_scope.

(** A JavaScript string, as the sequence of its UTF-16 code units. *)
Definition JSString := list N.

(** A string literal of the source (ASCII). *)
Definition lit (s : string) : JSString :=
  map Ascii.N_of_ascii (list_ascii_of_string s).

(** [===] on strings. *)
Fixpoint jseqb (a b : JSString) : bool :=
  match a, b with
  | [], [] => true
  | x :: a', y :: b' => N.eqb x y && jseqb a' b'
  | _, _ => false
  end.

(** The code units that [String.prototype.trim] strips: WhiteSpace (TAB, VT,
    FF, SP, NBSP, ZWNBSP and the category Zs) and LineTerminator (LF, CR,
    LS, PS). *)
Definition is_white_space (c : N) : bool :=
  existsb (N.eqb c)
          [9; 10; 11; 12; 13; 32; 160; 5760; 8232; 8233; 8239; 8287; 12288; 65279]
  || (N.leb 8192 c && N.leb c 8202).

(** The code units that [.] does not match in a regular expression. *)
Definition is_line_terminator (c : N) : bool :=
  existsb (N.eqb c) [10; 13; 8232; 8233].

Fixpoint trimStart (s : JSString) : JSString :=
  match s with
  | [] => []
  | c :: rest => if is_white_space c then trimStart rest else s
  end.

Definition trimEnd (s : JSString) : JSString := rev (trimStart (rev s)).

Definition trim (s : JSString) : JSString := trimEnd (trimStart s).

(** [s.startsWith(c)] and [s.endsWith(c)] for a one-unit string [c]. *)
Definition startsWith (c : N) (s : JSString) : bool :=
  match s with
  | [] => false
  | x :: _ => N.eqb x c
  end.

Definition endsWith (c : N) (s : JSString) : bool := startsWith c (rev s).

(** [s.slice(1, -1)] *)
Definition slice_1_minus_1 (s : JSString) : JSString := removelast (tl s).

(** [content.split('\n')] *)
Fixpoint split_lines (content : JSString) : list JSString :=
  match content with
  | [] => [[]]
  | c :: rest =>
      if N.eqb c 10 then [] :: split_lines rest
      else match split_lines rest with
           | line :: lines => (c :: line) :: lines
           | [] => [[c]]
           end
  end.

(** The text before and after the first [=]. *)
Fixpoint break_at_equals (s : JSString) : option (JSString * JSString) :=
  match s with
  | [] => None
  | c :: rest =>
      if N.eqb c 61 then Some ([], rest)
      else match break_at_equals rest with
           | Some (before, after) => Some (c :: before, after)
           | None => None
           end
  end.

(** [line.match] with the pattern "one or more characters other than [=],
    then [=], then any characters to the end of the input".  The first
    group cannot cross a [=], so it ends at the first one and must not be
    empty; the second group must reach the end of the input, which the dot
    does only when no line terminator is in the way. *)
Definition match_assignment (line : JSString) : option (JSString * JSString) :=
  match break_at_equals line with
  | Some (before, after) =>
      match before with
      | [] => None
      | _ => if existsb is_line_terminator after then None
             else Some (before, after)
      end
  | None => None
  end.

(** What one line of the file assigns, if anything: the body of the
    [forEach] callback up to the assignment. *)
Definition assignment_of (line : JSString) : option (JSString * JSString) :=
  let line := trim line in
  match line with
  | [] => None
  | _ =>
      if startsWith 35 line then None
      else
        match match_assignment line with
        | Some (before, after) =>
            let key := trim before in
            let value := trim after in
            let value :=
              if (startsWith 34 value && endsWith 34 value)
                 || (startsWith 39 value && endsWith 39 value)
              then slice_1_minus_1 value
              else value in
            Some (key, value)
        | None => None
        end
  end.

(** Padding: white space only. *)
Definition blank (s : JSString) : bool := forallb is_white_space s.

(** Padding that the dot of a regular expression matches: white space
    without line terminators. *)
Definition blank_in_line (s : JSString) : bool :=
  forallb (fun c => is_white_space c && negb (is_line_terminator c)) s.

(** Text with no white space at either end. *)
Definition tight (s : JSString) : bool :=
  match s with
  | [] => true
  | c :: _ => negb (is_white_space c) && negb (is_white_space (last s 0))
  end.

(** A key as a configuration file spells it: not empty, no white space at
    its ends, no [=] in it, and not starting a comment. *)
Definition plain_key (key : JSString) : bool :=
  match key with
  | [] => false
  | c :: _ =>
      tight key && negb (N.eqb c 35) && forallb (fun x => negb (N.eqb x 61)) key
  end.

(** A value on one line with no white space at its ends. *)
Definition plain_value (value : JSString) : bool :=
  tight value && negb (existsb is_line_terminator value).

(** The removal of one layer of matching quotes. *)
Definition unquote (value : JSString) : JSString :=
  if (startsWith 34 value && endsWith 34 value)
     || (startsWith 39 value && endsWith 39 value)
  then slice_1_minus_1 value
  else value.

(** The object [config]: its own properties, the latest first. *)
Definition Config := list (JSString * JSString).

(** [config[key] = value] on an ordinary object: the key [__proto__] names
    the accessor of [Object.prototype], whose setter ignores a string. *)
Definition set_property (config : Config) (key value : JSString) : Config :=
  if jseqb key (lit "__proto__") then config else (key, value) :: config.

(** [config.KEY], for a [KEY] that [Object.prototype] does not define. *)
Fixpoint get_property (config : Config) (key : JSString) : option JSString :=
  match config with
  | [] => None
  | (k, v) :: rest => if jseqb k key then Some v else get_property rest key
  end.

Definition parse_line (config : Config) (line : JSString) : Config :=
  match assignment_of line with
  | Some (key, value) => set_property config key value
  | None => config
  end.

Definition parse_content (content : JSString) : Config :=
  fold_left parse_line (split_lines content) [].

(** [a || b] on possibly missing strings: the empty string is falsy. *)
Definition or_else (a b : option JSString) : option JSString :=
  match a with
  | Some (c :: s) => Some (c :: s)
  | _ => b
  end.

(** [a || d] with a literal default. *)
Definition or_default (a : option JSString) (d : JSString) : JSString :=
  match a with
  | Some (c :: s) => c :: s
  | _ => d
  end.

(** A resolved absolute path: the names of its directories from the
    innermost outwards; the empty list is the root. *)
Definition Path := list JSString.

Inductive ConfigType := DotMnemosyne | DotEnv.

Record ProjectInfo := mkProjectInfo {
  root : Path;
  configFile : Path;
  type : ConfigType
}.

Record ProjectMetadata := mkProjectMetadata {
  pm_name : JSString;
  pm_database : JSString;
  retention_days : option Z;
  auto_cleanup : bool;
  isolation_level : JSString
}.

Section FileSystem.

(** [fs.existsSync] *)
Variable existsSync : Path -> bool.

(** [fs.readFileSync(path, 'utf8')]; [None] when it throws. *)
Variable readFileSync : Path -> option JSString.

(** [parseInt]; [None] for NaN. *)
Variable parseInt : JSString -> option Z.

(** The loop [while (currentDir !== root)], with [path.dirname] taking the
    innermost name off and [path.join] putting a name on. *)
Fixpoint findProjectRoot (currentDir : Path) : option ProjectInfo :=
  match currentDir with
  | [] => None
  | _ :: parent =>
      if existsSync (lit ".mnemosyne" :: currentDir)
      then Some (mkProjectInfo currentDir (lit ".mnemosyne" :: currentDir) DotMnemosyne)
      else if existsSync (lit ".env" :: currentDir)
      then Some (mkProjectInfo currentDir (lit ".env" :: currentDir) DotEnv)
      else findProjectRoot parent
  end.

(** [None] when [readFileSync] throws. *)
Definition parseEnvFile (filePath : Path) : option Config :=
  option_map parse_content (readFileSync filePath).

Definition getDatabaseName (projectInfo : option ProjectInfo) : option JSString :=
  match projectInfo with
  | None => Some (lit "neo4j")
  | Some info =>
      match parseEnvFile (configFile info) with
      | None => None
      | Some config =>
          let dbName :=
            or_else (get_property config (lit "MNEMOSYNE_DATABASE"))
                    (get_property config (lit "NEO4J_DATABASE")) in
          match dbName with
          | Some (c :: s) => Some (c :: s)
          | _ => Some (lit "neo4j")
          end
      end
  end.

(** The outer [option] is [None] when [readFileSync] throws; the inner one
    is the [null] returned without a project. *)
Definition getProjectMetadata (projectInfo : option ProjectInfo)
  : option (option ProjectMetadata) :=
  match projectInfo with
  | None => Some None
  | Some info =>
      match parseEnvFile (configFile info) with
      | None => None
      | Some config =>
          Some (Some (mkProjectMetadata
            (or_default (get_property config (lit "PROJECT_NAME"))
                        (hd [] (root info)))
            (or_default (or_else (get_property config (lit "MNEMOSYNE_DATABASE"))
                                 (get_property config (lit "NEO4J_DATABASE")))
                        (lit "neo4j"))
            (match get_property config (lit "RETENTION_DAYS") with
             | Some (c :: s) => parseInt (c :: s)
             | _ => Some 90%Z
             end)
            (match get_property config (lit "AUTO_CLEANUP") with
             | Some v => negb (jseqb v (lit "false"))
             | None => true
             end)
            (or_default (get_property config (lit "ISOLATION_LEVEL"))
                        (lit "project"))))
      end
  end.

End FileSystem.

End Router.

(** ** Reading a key/value bag *)

(** [m[k]] for an own property [k] of the object [m]. *)
Definition own_property (m : Metadata) (k : string) : option MetaValue :=
  option_map snd (find (fun kv => String.eqb (fst kv) k) m).

(** The value a parsed JSON object has at [k]: of several members with the
    same name the last one counts. *)
Definition parsed_member (source : Metadata) (k : string) : option MetaValue :=
  own_property (rev source) k.

(** ** Further predicates on stores *)

(** Every version in the store began, and every closed version ended, no
    later than [t]. *)
Definition changes_by (t vFrom : Z) (vTo : option Z) : bool :=
  Z.leb vFrom t
  && match vTo with
     | None => true
     | Some closed => Z.leb closed t
     end.

Definition all_changes_by (t : Z) (s : Store) : bool :=
  forallb (fun n => changes_by t (n_validFrom n) (n_validTo n)) (nodes s)
  && forallb (fun e => changes_by t (r_validFrom (e_props e)) (r_validTo (e_props e)))
             (edges s).



(** The settings [createFromEnvironment] computes from the environment. *)
Definition mock_requested (env : EmbeddingServiceFactory.Environment) : bool :=
  match EmbeddingServiceFactory.MOCK_EMBEDDINGS env with
  | Some v => String.eqb v "true"
  | None => false
  end.

Definition provider_setting (toLowerCase : string -> string)
           (env : EmbeddingServiceFactory.Environment) : string :=
  JS.defined_or
    (JS.str_or_null
       (option_map toLowerCase (EmbeddingServiceFactory.EMBEDDING_PROVIDER env)))
    "auto"%string.

(** Everything a stored row holds except the end of its validity. *)
Definition fields_but_validTo (n : Node) :=
  (nid n, n_id n, n_name n, n_entityType n, n_observations n, n_version n,
   n_createdAt n, n_updatedAt n, n_validFrom n, n_changedBy n, n_embedding n).

(** [s'] still holds every row of [s], in place and changed at most in its
    [validTo], followed by the rows added since. *)
Definition extends_history (s s' : Store) : Prop :=
  exists kept added,
    nodes s' = kept ++ added
    /\ map fields_but_validTo kept = map fields_but_validTo (nodes s).

(** The writes that version their data, as opposed to the hard deletes. *)
Definition versioned (op : Operation) : bool :=
  match op with
  | DeleteEntities _ | DeleteRelations _ => false
  | _ => true
  end.

(** * Verification *)

(** ** General facts about the state monad and the store primitives *)

Lemma bind_run {A B} (m : M A) (k : A -> M B) (w : World) :
  bind m k w = k (fst (m w)) (snd (m w)).
Proof. unfold bind. destruct (m w); reflexivity. Qed.

Lemma relation_of_row_core (H : Host) (row : Node * Edge * Node) (w : World) :
  relation_core (fst (relation_of_row H row w)) = row_core row.
Proof. destruct row as [[f e] t]. reflexivity. Qed.

Lemma relation_of_row_store (H : Host) (row : Node * Edge * Node) (w : World) :
  store (snd (relation_of_row H row w)) = store w.
Proof. destruct row as [[f e] t]. reflexivity. Qed.

Lemma mapM_relation_core (H : Host) (rows : list (Node * Edge * Node)) :
  forall w,
    map relation_core (fst (mapM (relation_of_row H) rows w)) = map row_core rows.
Proof.
  induction rows as [|row rest IH]; intro w.
  - reflexivity.
  - cbn [mapM]. rewrite bind_run, bind_run. cbn [ret fst map].
    rewrite relation_of_row_core, IH. reflexivity.
Qed.

Lemma valid_at_spec (timestamp vFrom : Z) (vTo : option Z) :
  valid_at timestamp vFrom vTo = true <-> in_validity_interval timestamp vFrom vTo.
Proof.
  unfold valid_at, in_validity_interval.
  rewrite andb_true_iff, Z.leb_le.
  destruct vTo as [t|].
  - rewrite Z.ltb_lt. split.
    + intros [Hle Hlt]. split; [exact Hle|]. right. exists t. split; [reflexivity|exact Hlt].
    + intros [Hle [Hn|[t' [Ht' Hlt]]]]; [discriminate|].
      injection Ht' as <-. split; assumption.
  - split.
    + intros [Hle _]. split; [exact Hle|left; reflexivity].
    + intros [Hle _]. split; [exact Hle|reflexivity].
Qed.

(** ** getGraphAtTime *)

(** C9. For every instant, [getGraphAtTime] returns exactly the entity rows
    whose validity interval contains the instant ([validFrom <= t], and
    [validTo] is null or [t < validTo]), and its relations are the image of
    exactly the relationship rows whose validity interval contains it. *)
Theorem getGraphAtTime_validity_interval (H : Host) (timestamp : Z) (w : World) :
  let g := fst (getGraphAtTime H timestamp w) in
  (forall e,
      In e (entities g) <->
      exists n, In n (nodes (store w)) /\ e = nodeToEntity n
                /\ in_validity_interval timestamp (n_validFrom n) (n_validTo n))
  /\ exists rows,
      map relation_core (relations g) = map row_core rows
      /\ forall row,
          In row rows <->
          In row (match_edges (store w))
          /\ in_validity_interval timestamp
               (r_validFrom (e_props (snd (fst row))))
               (r_validTo (e_props (snd (fst row)))).
Proof.
  cbv zeta. unfold getGraphAtTime, get_store.
  rewrite bind_run. cbn [fst snd]. rewrite bind_run. cbn [ret fst entities relations].
  split.
  - intro e. rewrite in_map_iff. unfold entities_at. split.
    + intros [n [Hn Hin]]. apply filter_In in Hin. destruct Hin as [Hin Hv].
      exists n. split; [exact Hin|]. split; [symmetry; exact Hn|].
      apply valid_at_spec. exact Hv.
    + intros [n [Hin [He Hv]]]. exists n. split; [symmetry; exact He|].
      apply filter_In. split; [exact Hin|]. apply valid_at_spec. exact Hv.
  - exists (relations_at (store w) timestamp). split.
    + apply mapM_relation_core.
    + intro row. unfold relations_at. rewrite filter_In.
      rewrite valid_at_spec. reflexivity.
Qed.

(** ** NotFound handling: updateRelation and addObservations *)

Lemma world_eta (w : World) : mkWorld (store w) (ticks w) (drawn w) = w.
Proof. destruct w; reflexivity. Qed.

Lemma filter_nil_of_all_false {A} (p : A -> bool) (l : list A) :
  (forall x, In x l -> p x = false) -> filter p l = [].
Proof.
  induction l as [|x rest IH]; intro Hall.
  - reflexivity.
  - cbn [filter]. rewrite (Hall x (or_introl eq_refl)).
    apply IH. intros y Hy. apply Hall. right. exact Hy.
Qed.

Lemma forM_eq_batch {A B} (body : A -> M (list B)) (l : list A) (w : World) :
  match l with [] => ret [] | _ => forM body l end w = forM body l w.
Proof. destruct l; reflexivity. Qed.

Lemma addObservation_unknown (H : Host) (obs : ObservationInput) (w : World) :
  current_named (store w) (entityName obs) = [] ->
  addObservation H obs w = ([], w).
Proof.
  intro Hnone. unfold addObservation.
  destruct (blank_item obs).
  - reflexivity.
  - unfold bind, get_store. rewrite Hnone. reflexivity.
Qed.

(** C3, as the code has it.  An [updateRelation] whose triple matches no
    current relation throws "Relation not found" to the caller and leaves
    the store as it was; an [addObservations] item naming an entity without
    a current row is skipped and the rest of the batch is processed as if
    the item were not there. *)
Theorem notfound_updateRelation_throws_addObservations_skips
        (H : Host) (relation : RelationInput) (w1 : World)
        (obs : ObservationInput) (rest : list ObservationInput) (w2 : World)
        (Hrel : forall e, In e (edges (store w1)) ->
                  edge_matches (store w1) (ri_from relation) (ri_to relation)
                               (ri_relationType relation) e
                  && edge_current e = false)
        (Hobs : current_named (store w2) (entityName obs) = []) :
  updateRelation H relation w1 = (Throw (relation_not_found relation), w1)
  /\ addObservations H (obs :: rest) w2 = addObservations H rest w2.
Proof.
  split.
  - unfold updateRelation, bind, get_store.
    rewrite (filter_nil_of_all_false _ _ Hrel).
    unfold put_store, ret. rewrite world_eta. reflexivity.
  - unfold addObservations at 1. cbn [forM].
    rewrite bind_run, (addObservation_unknown H obs w2 Hobs). cbn [fst snd].
    rewrite bind_run. cbn [ret app].
    unfold addObservations. rewrite forM_eq_batch.
    destruct (forM (addObservation H) rest w2); reflexivity.
Qed.

Lemma notfound_updateRelation_throws_addObservations_skips_witness :
  updateRelation (Example.host None) (Example.relation "a" "b" "knows")
                 Example.populated
  = (Throw "Relation not found: a -> b (knows)", Example.populated)
  /\ addObservations (Example.host None)
       [mkObservationInput "ghost" ["seen"%string];
        mkObservationInput "a" ["tall"%string]] Example.populated
     = addObservations (Example.host None)
         [mkObservationInput "a" ["tall"%string]] Example.populated.
Proof.
  apply (notfound_updateRelation_throws_addObservations_skips
           (Example.host None) (Example.relation "a" "b" "knows")
           Example.populated
           (mkObservationInput "ghost" ["seen"%string])
           [mkObservationInput "a" ["tall"%string]] Example.populated).
  - intros e He. vm_compute in He. destruct He as [<-|[]]. reflexivity.
  - reflexivity.
Defined.

(** C3, counterexample to the claim as stated: on a store without the
    relation, [updateRelation] does not return normally; the error reaches
    the caller. *)
Lemma updateRelation_unknown_edge_is_not_skipped :
  fst (updateRelation (Example.host None) (Example.relation "a" "b" "knows")
                      Example.populated)
  = Throw "Relation not found: a -> b (knows)"
  /\ ~ exists u,
        fst (updateRelation (Example.host None)
                            (Example.relation "a" "b" "knows") Example.populated)
        = Ok u.
Proof.
  split.
  - reflexivity.
  - intros [u Hu]. discriminate Hu.
Qed.

(** ** createRelations *)

Lemma store_eta (s : Store) : mkStore (nodes s) (edges s) (next_nid s) = s.
Proof. destruct s; reflexivity. Qed.

Lemma lookup_node_in (s : Store) (n : Node) :
  In n (nodes s) -> lookup_node s (nid n) <> None.
Proof.
  intros Hin Hnone. unfold lookup_node in Hnone.
  apply (find_none _ _ Hnone) in Hin.
  rewrite Nat.eqb_refl in Hin. discriminate.
Qed.

Lemma endpoint_pairs_in (s : Store) (f t : string) (a b : Node) :
  In (a, b) (endpoint_pairs s f t) -> In a (nodes s) /\ In b (nodes s).
Proof.
  unfold endpoint_pairs, nodes_named. rewrite in_prod_iff, !filter_In. tauto.
Qed.

Lemma create_edges_nil (p : RelProps) (s : Store) : create_edges [] p s = s.
Proof. unfold create_edges. cbn [map]. rewrite app_nil_r. apply store_eta. Qed.

Lemma no_dangling_create_edges (pairs : list (Node * Node)) (p : RelProps) (s : Store) :
  no_dangling s ->
  (forall a b, In (a, b) pairs -> In a (nodes s) /\ In b (nodes s)) ->
  no_dangling (create_edges pairs p s).
Proof.
  intros Hwf Hpairs e He. unfold create_edges in He. cbn [edges] in He.
  unfold lookup_node, create_edges. cbn [nodes].
  apply in_app_or in He. destruct He as [He|He].
  - exact (Hwf e He).
  - apply in_map_iff in He. destruct He as [[a b] [<- Hab]].
    destruct (Hpairs a b Hab) as [Ha Hb]. cbn [e_src e_dst fst snd].
    split; [exact (lookup_node_in s a Ha)|exact (lookup_node_in s b Hb)].
Qed.

Lemma createRelation_store (H : Host) (r : RelationInput) (w : World) :
  exists p,
    store (snd (createRelation H r w))
    = create_edges (endpoint_pairs (store w) (ri_from r) (ri_to r)) p (store w).
Proof.
  unfold createRelation, bind, Date_now, uuid, get_store, put_store, ret.
  cbn [store ticks drawn].
  destruct (endpoint_pairs (store w) (ri_from r) (ri_to r)) as [|[a b] more] eqn:Hp.
  - exists (mkRelProps EmptyString EmptyString None None None 0 0 0 0 None None).
    cbn [snd store]. symmetry. apply create_edges_nil.
  - eexists. cbn [snd store]. reflexivity.
Qed.

Lemma createRelation_no_dangling (H : Host) (r : RelationInput) (w : World) :
  no_dangling (store w) -> no_dangling (store (snd (createRelation H r w))).
Proof.
  intro Hwf. destruct (createRelation_store H r w) as [p ->].
  apply no_dangling_create_edges; [exact Hwf|].
  intros a b. apply endpoint_pairs_in.
Qed.

Lemma forM_createRelation_no_dangling (H : Host) (rels : list RelationInput) :
  forall w, no_dangling (store w) ->
            no_dangling (store (snd (forM (createRelation H) rels w))).
Proof.
  induction rels as [|r rest IH]; intros w Hwf.
  - exact Hwf.
  - cbn [forM]. rewrite bind_run, bind_run. cbn [ret snd].
    apply IH. apply createRelation_no_dangling. exact Hwf.
Qed.

Lemma endpoint_pairs_missing (s : Store) (f t : string) :
  nodes_named s f = [] \/ nodes_named s t = [] -> endpoint_pairs s f t = [].
Proof.
  unfold endpoint_pairs. intros [-> | ->].
  - reflexivity.
  - induction (nodes_named s f) as [|a l IH]; [reflexivity|exact IH].
Qed.

Lemma endpoint_pairs_names (s : Store) (f t : string) (a b : Node) :
  In (a, b) (endpoint_pairs s f t) -> n_name a = f /\ n_name b = t.
Proof.
  unfold endpoint_pairs, nodes_named. rewrite in_prod_iff, !filter_In.
  intros [[_ Ha] [_ Hb]]. split; apply String.eqb_eq; assumption.
Qed.

Lemma endpoint_pairs_stored (s : Store) (f t : string) :
  nodes_named s f <> [] -> nodes_named s t <> [] -> endpoint_pairs s f t <> [].
Proof.
  unfold endpoint_pairs.
  destruct (nodes_named s f) as [|a l]; [contradiction|].
  destruct (nodes_named s t) as [|b l']; [contradiction|].
  discriminate.
Qed.

(** C6, as the code has it.  For a relation of a [createRelations] batch,
    the check is on stored rows of any version: when one of the two endpoint
    names has no stored row at all, the relation is skipped (nothing is
    returned for it, the store is untouched, no error is raised) and the
    batch goes on with the remaining relations; when both names have a
    stored row the relation is created and returned; and a batch never
    leaves a relationship without one of its end nodes. *)
Theorem createRelations_skips_unstored_endpoints
        (H : Host) (relation : RelationInput) (rest : list RelationInput)
        (w1 : World) (relations : list RelationInput) (w2 : World)
        (relation3 : RelationInput) (w3 : World)
        (Hmissing : nodes_named (store w1) (ri_from relation) = []
                    \/ nodes_named (store w1) (ri_to relation) = [])
        (Hattached : no_dangling (store w2))
        (Hstored : nodes_named (store w3) (ri_from relation3) <> []
                   /\ nodes_named (store w3) (ri_to relation3) <> []) :
  (fst (createRelation H relation w1) = []
   /\ store (snd (createRelation H relation w1)) = store w1
   /\ createRelations H (relation :: rest) w1
      = createRelations H rest (snd (createRelation H relation w1)))
  /\ no_dangling (store (snd (createRelations H relations w2)))
  /\ exists created,
      fst (createRelation H relation3 w3) = [created]
      /\ from created = ri_from relation3
      /\ to created = ri_to relation3
      /\ relationType created = ri_relationType relation3
      /\ (List.length (edges (store w3))
          < List.length (edges (store (snd (createRelation H relation3 w3)))))%nat.
Proof.
  split; [|split].
  - assert (Hskip : createRelation H relation w1
                    = ([], mkWorld (store w1) (S (ticks w1)) (S (drawn w1)))).
    { unfold createRelation, bind, Date_now, uuid, get_store. cbn [store ticks drawn].
      rewrite (endpoint_pairs_missing _ _ _ Hmissing). reflexivity. }
    rewrite Hskip. cbn [fst snd store]. split; [reflexivity|]. split; [reflexivity|].
    unfold createRelations at 1. cbn [forM].
    rewrite bind_run, Hskip. cbn [fst snd]. rewrite bind_run. cbn [ret app].
    unfold createRelations. rewrite forM_eq_batch.
    destruct (forM (createRelation H) rest _); reflexivity.
  - unfold createRelations. rewrite forM_eq_batch.
    apply forM_createRelation_no_dangling. exact Hattached.
  - destruct Hstored as [Hf Ht].
    pose proof (endpoint_pairs_stored _ _ _ Hf Ht) as Hpairs.
    unfold createRelation, relationshipToRelation, bind, Date_now, uuid,
      get_store, put_store, ret.
    cbn [store ticks drawn].
    destruct (endpoint_pairs (store w3) (ri_from relation3) (ri_to relation3))
      as [|[a b] more] eqn:Hp; [contradiction|].
    destruct (endpoint_pairs_names (store w3) (ri_from relation3)
                                   (ri_to relation3) a b) as [Ha Hb].
    { rewrite Hp. left. reflexivity. }
    eexists. cbn [fst snd ret relationshipToRelation store create_edges edges].
    split; [reflexivity|]. cbn [from to relationType].
    split; [exact Ha|]. split; [exact Hb|]. split; [reflexivity|].
    rewrite length_app. cbn [map List.length]. lia.
Qed.

Lemma createRelations_skips_unstored_endpoints_witness :
  (fst (createRelation (Example.host None) (Example.relation "a" "ghost" "knows")
                       Example.populated) = []
   /\ store (snd (createRelation (Example.host None)
                                 (Example.relation "a" "ghost" "knows")
                                 Example.populated))
      = store Example.populated
   /\ createRelations (Example.host None)
        [Example.relation "a" "ghost" "knows"; Example.relation "b" "a" "hosts"]
        Example.populated
      = createRelations (Example.host None) [Example.relation "b" "a" "hosts"]
          (snd (createRelation (Example.host None)
                               (Example.relation "a" "ghost" "knows")
                               Example.populated)))
  /\ no_dangling
       (store (snd (createRelations (Example.host None)
                      [Example.relation "b" "a" "hosts"] Example.populated)))
  /\ exists created,
      fst (createRelation (Example.host None) (Example.relation "b" "a" "hosts")
                          Example.populated) = [created]
      /\ from created = "b"%string
      /\ to created = "a"%string
      /\ relationType created = "hosts"%string
      /\ (List.length (edges (store Example.populated))
          < List.length
              (edges (store (snd (createRelation (Example.host None)
                                    (Example.relation "b" "a" "hosts")
                                    Example.populated)))))%nat.
Proof.
  apply (createRelations_skips_unstored_endpoints
           (Example.host None) (Example.relation "a" "ghost" "knows")
           [Example.relation "b" "a" "hosts"] Example.populated
           [Example.relation "b" "a" "hosts"] Example.populated
           (Example.relation "b" "a" "hosts") Example.populated).
  - right. reflexivity.
  - intros e He. vm_compute in He. destruct He as [<-|[]].
    split; vm_compute; discriminate.
  - split; vm_compute; discriminate.
Defined.

(** C6, counterexample to the claim as stated: "a" has no current version
    (its only row is superseded), yet the relation from "a" to "b" is not
    skipped: a relationship is created and returned. *)
Lemma createRelations_accepts_endpoint_without_current_version :
  getEntity (store Example.superseded_a) "a" = None
  /\ fst (createRelations (Example.host None) [Example.relation "a" "b" "knows"]
                          Example.superseded_a) <> []
  /\ List.length
       (edges (store (snd (createRelations (Example.host None)
                             [Example.relation "a" "b" "knows"]
                             Example.superseded_a)))) = 1%nat.
Proof.
  split; [reflexivity|]. split; [|reflexivity].
  vm_compute. discriminate.
Qed.

(** ** semanticSearch: the lexical path *)

Lemma searchNodes_reads_limit_and_types
      (H : Host) (query : string) (o1 o2 : SearchOptions) (w : World) :
  Qfloor (JS.qnum_or (limit o1) (10 # 1)) = Qfloor (JS.qnum_or (limit o2) (10 # 1)) ->
  entityTypes o1 = entityTypes o2 ->
  searchNodes H query o1 w = searchNodes H query o2 w.
Proof.
  intros Hl Ht. unfold searchNodes. rewrite Hl, Ht. reflexivity.
Qed.

Lemma refloor_nonzero (k : Z) :
  k <> 0 -> Qfloor (JS.qnum_or (Some (inject_Z k)) (10 # 1)) = k.
Proof.
  intro Hk. unfold JS.qnum_or, JS.Qis_zero. cbn [Qnum inject_Z].
  destruct (Z.eqb_spec k 0) as [E|_]; [contradiction|].
  apply Qfloor_Z.
Qed.

Lemma floor_of_limit_nonzero (l : option Q) :
  (forall q, l = Some q -> ~ (0 < q /\ q < 1)%Q) ->
  Qfloor (JS.qnum_or l (10 # 1)) <> 0.
Proof.
  intros Hl. destruct l as [q|]; cbn [JS.qnum_or]; [|discriminate].
  destruct (JS.Qis_zero q) eqn:Hz; [discriminate|].
  intro Hfloor. apply (Hl q eq_refl).
  pose proof (Qfloor_le q) as Hlo. pose proof (Qlt_floor q) as Hhi.
  rewrite Hfloor in Hlo, Hhi.
  unfold JS.Qis_zero in Hz. apply Z.eqb_neq in Hz.
  destruct q as [n d]. unfold Qle, Qlt in *. cbn in *. split; lia.
Qed.

(** The lexical tail of [semanticSearch] agrees with [searchNodes] whenever
    the requested limit does not floor to zero. *)
Lemma text_search_is_searchNodes
      (H : Host) (query : string) (options : SearchOptions) (w : World) :
  (forall q, limit options = Some q -> ~ (0 < q /\ q < 1)%Q) ->
  text_search H query options w = searchNodes H query options w.
Proof.
  intro Hl. unfold text_search.
  apply searchNodes_reads_limit_and_types; [|reflexivity].
  cbn [with_limit limit]. apply refloor_nonzero.
  apply floor_of_limit_nonzero. exact Hl.
Qed.

(** Without an embedding service and without a query vector,
    [semanticSearch] is [searchNodes] on the same query and options, for
    every limit that is not strictly between 0 and 1. *)
Lemma semanticSearch_without_gateway
      (H : Host) (query : string) (options : SearchOptions) (w : World) :
  embeddingService H = None ->
  queryVector options = None ->
  (forall q, limit options = Some q -> ~ (0 < q /\ q < 1)%Q) ->
  semanticSearch H query options w = searchNodes H query options w.
Proof.
  intros Hsvc Hvec Hl. unfold semanticSearch. rewrite Hsvc, Hvec.
  apply text_search_is_searchNodes. exact Hl.
Qed.

(** C8, at the failing input.  No embedding service, no query vector, limit
    1/2, and one stored entity matching the query: [searchNodes] floors the
    limit to 0 and returns nothing, while [semanticSearch] floors it first,
    hands [searchNodes] the limit 0, which is then replaced by the default
    10, and returns the entity. *)
Theorem semanticSearch_differs_from_searchNodes_at_half_limit :
  embeddingService (Example.host None) = None
  /\ queryVector Example.half_limit = None
  /\ fst (searchNodes (Example.host None) "tea" Example.half_limit
                      Example.populated)
     = Ok empty_graph
  /\ fst (semanticSearch (Example.host None) "tea" Example.half_limit
                         Example.populated)
     = fst (searchNodes (Example.host None) "tea" Example.plain_options
                        Example.populated)
  /\ fst (semanticSearch (Example.host None) "tea" Example.half_limit
                         Example.populated)
     <> fst (searchNodes (Example.host None) "tea" Example.half_limit
                         Example.populated).
Proof.
  split; [reflexivity|]. split; [reflexivity|]. split; [reflexivity|].
  split; [reflexivity|]. vm_compute. discriminate.
Qed.

(** ** semanticSearch: strategy selection *)

(** When no vector is supplied and the embedding service is present,
    whatever the service returns, the call ends in the lexical search: the
    vector index is never consulted. *)
Lemma semanticSearch_embeds_then_searches_text
      (H : Host) (generate : string -> option (list Q))
      (query : string) (options : SearchOptions) (w : World) :
  embeddingService H = Some generate ->
  queryVector options = None ->
  semanticSearch H query options w = text_search H query options w.
Proof.
  intros Hsvc Hvec. unfold semanticSearch. rewrite Hsvc, Hvec.
  destruct (generate query) as [v|]; [|reflexivity].
  unfold text_search. cbn [with_queryVector limit].
  apply searchNodes_reads_limit_and_types; reflexivity.
Qed.

(** C1, at the failing input.  The embedding service is present and embeds
    the query "feline" successfully; the vector-index lookup on that vector
    returns the entity "cat"; [semanticSearch] nevertheless returns the
    result of the lexical search, which is empty. *)
Theorem semanticSearch_ignores_the_generated_vector :
  (exists generate,
      embeddingService (Example.host Example.unit_embedder) = Some generate
      /\ generate "feline"%string = Some [1 # 1])
  /\ queryVector Example.plain_options = None
  /\ map name
         (match fst (vector_search (Example.host Example.unit_embedder)
                                   Example.plain_options [1 # 1]
                                   Example.embedded) with
          | Ok g => entities g
          | Throw _ => []
          end) = ["cat"%string]
  /\ fst (semanticSearch (Example.host Example.unit_embedder) "feline"
                         Example.plain_options Example.embedded)
     = Ok empty_graph
  /\ fst (semanticSearch (Example.host Example.unit_embedder) "feline"
                         Example.plain_options Example.embedded)
     = fst (searchNodes (Example.host Example.unit_embedder) "feline"
                        Example.plain_options Example.embedded).
Proof.
  split.
  - eexists. split; reflexivity.
  - repeat split; reflexivity.
Qed.

(** ** semanticSearch: the vector-index lookup *)

(** C7, at the failing input.  The query vector is supplied, the index
    answers, and the allow-list is ["city"]: the direct lookup returns the
    entity "cat" of type "animal", which the allow-list excludes. *)
Theorem semanticSearch_direct_lookup_ignores_entityTypes :
  entityTypes Example.only_cities = Some ["city"%string]
  /\ map (fun e => (name e, entityType e))
         (match fst (semanticSearch (Example.host None) "anything"
                                    Example.only_cities Example.embedded) with
          | Ok g => entities g
          | Throw _ => []
          end)
     = [("cat"%string, "animal"%string)].
Proof. split; reflexivity. Qed.

(** The sibling path: when the direct lookup fails, the original
    implementation does filter by the allow-list, but [findSimilarEntities]
    hands it no result to filter, so the same input yields the empty graph,
    as it does without an allow-list. *)
Lemma semanticSearch_fallback_is_empty :
  fst (semanticSearch Example.picky_host "anything" Example.only_cities
                      Example.embedded)
  = Ok empty_graph
  /\ fst (semanticSearch Example.picky_host "anything"
                         (mkSearchOptions None None None (Some [1 # 1]))
                         Example.embedded)
     = Ok empty_graph.
Proof. split; reflexivity. Qed.

Lemma insert_by_score_In {A} (x y : A * Q) (l : list (A * Q)) :
  In y (insert_by_score x l) <-> y = x \/ In y l.
Proof.
  induction l as [|z rest IH]; cbn [insert_by_score].
  - cbn. intuition congruence.
  - destruct (Qle_bool (snd z) (snd x)).
    + cbn. intuition congruence.
    + cbn [In]. rewrite IH. intuition congruence.
Qed.

Lemma order_by_score_desc_In {A} (y : A * Q) (l : list (A * Q)) :
  In y (order_by_score_desc l) <-> In y l.
Proof.
  induction l as [|x rest IH]; [reflexivity|].
  unfold order_by_score_desc in *. cbn [fold_right].
  rewrite insert_by_score_In, IH. cbn. intuition congruence.
Qed.

(** The similarity floor of the direct lookup: a candidate is kept exactly
    when its score is at least [minSimilarity]. *)
Lemma direct_lookup_similarity_floor {A} (minScore : Q) (rows : list (A * Q))
      (y : A * Q) :
  In y (order_by_score_desc (filter (fun row => Qle_bool minScore (snd row)) rows))
  <-> In y rows /\ (minScore <= snd y)%Q.
Proof.
  rewrite order_by_score_desc_In, filter_In, Qle_bool_iff. reflexivity.
Qed.

(** The records of the lookup are in descending order of score. *)
Lemma insert_by_score_sorted {A} (x : A * Q) (l : list (A * Q)) :
  StronglySorted (fun a b => (snd b <= snd a)%Q) l ->
  StronglySorted (fun a b => (snd b <= snd a)%Q) (insert_by_score x l).
Proof.
  induction l as [|y rest IH]; intro Hs; cbn [insert_by_score].
  - constructor; constructor.
  - inversion Hs as [|y' rest' Hrest Hall]; subst.
    destruct (Qle_bool (snd y) (snd x)) eqn:Hle.
    + apply Qle_bool_iff in Hle. constructor; [exact Hs|].
      constructor; [exact Hle|].
      apply Forall_forall. intros z Hz.
      apply Qle_trans with (y := snd y); [|exact Hle].
      exact (proj1 (Forall_forall _ _) Hall z Hz).
    + assert (Hlt : (snd x <= snd y)%Q).
      { apply Qnot_lt_le. intro Hlt. apply Qlt_le_weak in Hlt.
        apply Qle_bool_iff in Hlt. rewrite Hlt in Hle. discriminate. }
      constructor; [apply IH; exact Hrest|].
      apply Forall_forall. intros z Hz. apply insert_by_score_In in Hz.
      destruct Hz as [->|Hz]; [exact Hlt|].
      exact (proj1 (Forall_forall _ _) Hall z Hz).
Qed.

Lemma order_by_score_desc_sorted {A} (l : list (A * Q)) :
  StronglySorted (fun a b => (snd b <= snd a)%Q) (order_by_score_desc l).
Proof.
  induction l as [|x rest IH]; [constructor|].
  unfold order_by_score_desc in *. cbn [fold_right].
  apply insert_by_score_sorted. exact IH.
Qed.

(** ** getDecayedGraph *)

Lemma mapM_post {A B C} (f : A -> M B) (g : B -> C) (l : list A) :
  forall w,
    mapM (fun x => bind (f x) (fun y => ret (g y))) l w
    = (map g (fst (mapM f l w)), snd (mapM f l w)).
Proof.
  induction l as [|x rest IH]; intro w.
  - reflexivity.
  - cbn [mapM]. rewrite !bind_run. cbn [ret fst snd].
    rewrite IH. cbn [fst snd map]. reflexivity.
Qed.

(** The age that enters the decay is always zero: the relation object has
    neither [validFrom] nor [createdAt], so the subtraction is
    [startTime - startTime] and the confidence is only clamped from below. *)
Lemma apply_decay_ignores_age
      (cfg : DecayConfig) (startTime : Z) (relation : Relation Q) (c : Q) :
  confidence relation = Some c ->
  confidence (apply_decay cfg startTime relation)
  = Some (if Rlt_dec (Q2R c) (minConfidence cfg) then minConfidence cfg else Q2R c).
Proof.
  intro Hc. unfold apply_decay. rewrite Hc.
  unfold relation_validFrom, relation_createdAt. cbn [JS.num_or confidence].
  rewrite Z.sub_diag, Rmult_0_r, exp_0, Rmult_1_r. reflexivity.
Qed.

Lemma getDecayedGraph_relations (H : Host) (cfg : DecayConfig) (w : World) :
  enabled cfg = true ->
  relations (fst (getDecayedGraph H cfg w))
  = map (apply_decay cfg (clock H (ticks w)))
        (fst (mapM (relation_of_row H)
                   (filter (fun row => edge_current (snd (fst row)))
                           (match_edges (store w)))
                   (mkWorld (store w) (S (ticks w)) (drawn w)))).
Proof.
  intro Hen. unfold getDecayedGraph. rewrite Hen. cbn [negb].
  unfold bind at 1. unfold Date_now at 1.
  unfold bind at 1. unfold get_store at 1. cbn [store].
  rewrite bind_run. cbn [ret fst relations].
  rewrite mapM_post. reflexivity.
Qed.

(** Disabled mode returns the loaded graph as it is. *)
Lemma getDecayedGraph_disabled (H : Host) (cfg : DecayConfig) (w : World) :
  enabled cfg = false ->
  getDecayedGraph H cfg w
  = (graph_to_real (fst (loadGraph H w)), snd (loadGraph H w)).
Proof.
  intro Hoff. unfold getDecayedGraph. rewrite Hoff. cbn [negb].
  rewrite bind_run. reflexivity.
Qed.


Lemma thirty_days_halve :
  exp (decayFactor Example.decay30 * IZR (2592001002 - 1002)) = (1 / 2)%R.
Proof.
  replace (decayFactor Example.decay30 * IZR (2592001002 - 1002))%R
    with (ln (1 / 2)).
  - apply exp_ln. lra.
  - unfold decayFactor, halfLifeMs, Example.decay30. cbn [halfLifeDays].
    replace (2592001002 - 1002) with 2592000000 by reflexivity.
    field.
Qed.

(** C5, at the failing input.  Decay is enabled with a half-life of 30 days
    and a floor of 1/10; the only relation has confidence 8/10 and
    [validFrom = 1002]; the graph is read at 2592001002, thirty days later.
    The formula of the claim gives max(1/10, 8/10 * e^(k * dt)) = 4/10; the
    code returns the confidence 8/10, undecayed. *)
Theorem getDecayedGraph_does_not_decay_with_age :
  map r_validFrom (map e_props (edges (store Example.trusted))) = [1002]
  /\ clock Example.month_later (ticks Example.trusted) = 2592001002
  /\ Rmax (minConfidence Example.decay30)
          (Q2R (8 # 10)
           * exp (decayFactor Example.decay30 * IZR (2592001002 - 1002)))
     = (4 / 10)%R
  /\ map confidence
         (relations (fst (getDecayedGraph Example.month_later Example.decay30
                                          Example.trusted)))
     = [Some (Q2R (8 # 10))]
  /\ Q2R (8 # 10) <> (4 / 10)%R.
Proof.
  assert (Hq : Q2R (8 # 10) = (8 / 10)%R).
  { unfold Q2R. cbn [Qnum Qden]. lra. }
  split; [reflexivity|]. split; [reflexivity|]. split; [|split].
  - rewrite thirty_days_halve, Hq. cbn [minConfidence Example.decay30].
    rewrite Rmax_right; lra.
  - rewrite getDecayedGraph_relations by reflexivity.
    match goal with
    | |- context [fst (mapM ?f ?rows ?w)] =>
        let v := eval vm_compute in (fst (mapM f rows w)) in
        change (fst (mapM f rows w)) with v
    end.
    cbn [map].
    erewrite apply_decay_ignores_age by reflexivity.
    destruct (Rlt_dec (Q2R (8 # 10)) (minConfidence Example.decay30)) as [Hlt|_].
    + exfalso. rewrite Hq in Hlt. cbn [minConfidence Example.decay30] in Hlt. lra.
    + reflexivity.
  - rewrite Hq. lra.
Qed.

(** ** LocalEmbeddingService: normalisation *)

Module NormalizeFacts.

Import PrimFloat LocalEmbeddingService.

Lemma normalizeVector_cases (v : list float) :
  ((0 <? l2_norm v)%float = true
   /\ _normalizeVector v = map (fun x => (x / l2_norm v)%float) v)
  \/ ((0 <? l2_norm v)%float = false /\ _normalizeVector v = set_first_to_one v).
Proof.
  unfold _normalizeVector, l2_norm.
  destruct (0 <? sqrt (sum_of_squares v))%float; [left|right]; split; reflexivity.
Qed.

Lemma set_first_to_one_length (v : list float) :
  v <> [] -> List.length (set_first_to_one v) = List.length v.
Proof. destruct v as [|x rest]; [contradiction|reflexivity]. Qed.

Lemma normalizeVector_length (v : list float) :
  v <> [] -> List.length (_normalizeVector v) = List.length v.
Proof.
  intro Hv. destruct (normalizeVector_cases v) as [[_ ->]|[_ ->]].
  - apply length_map.
  - apply set_first_to_one_length. exact Hv.
Qed.

Lemma normalizeVector_nonempty (v : list float) : _normalizeVector v <> [].
Proof.
  destruct (normalizeVector_cases v) as [[Hpos ->]|[_ ->]].
  - destruct v as [|x rest]; [|discriminate].
    vm_compute in Hpos. discriminate.
  - destruct v; discriminate.
Qed.





End NormalizeFacts.




(** ** Current-version uniqueness *)

Lemma current_named_unfold (s : Store) (nm : string) :
  current_named s nm
  = filter (fun n => String.eqb (n_name n) nm && node_current n) (nodes s).
Proof. reflexivity. Qed.

Lemma unique_current_same_nodes (s s' : Store) :
  nodes s' = nodes s -> unique_current s -> unique_current s'.
Proof.
  intros Hn Hu nm. rewrite current_named_unfold, Hn. exact (Hu nm).
Qed.

Lemma filter_filter_length {A} (p q : A -> bool) (l : list A) :
  (List.length (filter p (filter q l)) <= List.length (filter p l))%nat.
Proof.
  induction l as [|x rest IH]; [apply le_n|].
  cbn [filter]. destruct (q x); cbn [filter]; destruct (p x); cbn [List.length]; lia.
Qed.

Lemma closed_not_current (now : Z) (n : Node) :
  node_current (set_node_validTo now n) = false.
Proof. reflexivity. Qed.

(** Closing rows never adds a current row. *)
Lemma closing_shrinks (hit : Node -> bool) (now : Z) (nm : string) (l : list Node) :
  (List.length
     (filter (fun n => String.eqb (n_name n) nm && node_current n)
             (map (fun n => if hit n then set_node_validTo now n else n) l))
   <= List.length
        (filter (fun n => String.eqb (n_name n) nm && node_current n) l))%nat.
Proof.
  induction l as [|x rest IH]; [apply le_n|].
  cbn [map filter]. destruct (hit x).
  - rewrite closed_not_current, andb_false_r.
    destruct (String.eqb (n_name x) nm && node_current x); cbn [List.length]; lia.
  - destruct (String.eqb (n_name x) nm && node_current x); cbn [List.length]; lia.
Qed.

(** Closing every current row of a name leaves none. *)
Lemma closing_all_current (hit : Node -> bool) (now : Z) (nm : string) (l : list Node) :
  (forall n, In n l -> String.eqb (n_name n) nm && node_current n = true ->
             hit n = true) ->
  filter (fun n => String.eqb (n_name n) nm && node_current n)
         (map (fun n => if hit n then set_node_validTo now n else n) l) = [].
Proof.
  induction l as [|x rest IH]; intro Hall; [reflexivity|].
  cbn [map filter].
  destruct (hit x) eqn:Hx.
  - rewrite closed_not_current, andb_false_r.
    apply IH. intros n Hn. apply Hall. right. exact Hn.
  - destruct (String.eqb (n_name x) nm && node_current x) eqn:Hc.
    + rewrite (Hall x (or_introl eq_refl) Hc) in Hx. discriminate.
    + apply IH. intros n Hn. apply Hall. right. exact Hn.
Qed.

Lemma unique_current_head (s : Store) (c : Node) (rest : list Node) (nm : string) :
  unique_current s -> current_named s nm = c :: rest -> rest = [].
Proof.
  intros Hu Hc. specialize (Hu nm). rewrite Hc in Hu.
  destruct rest; [reflexivity|]. cbn [List.length] in Hu. lia.
Qed.

Lemma current_named_head_in (s : Store) (c : Node) (rest : list Node) (nm : string) :
  current_named s nm = c :: rest ->
  In c (nodes s) /\ n_name c = nm /\ n_validTo c = None.
Proof.
  intro Hc.
  assert (Hin : In c (current_named s nm)) by (rewrite Hc; left; reflexivity).
  rewrite current_named_unfold in Hin. apply filter_In in Hin.
  destruct Hin as [Hin Hp]. apply andb_true_iff in Hp. destruct Hp as [Hname Hcur].
  split; [exact Hin|]. split; [apply String.eqb_eq; exact Hname|].
  unfold node_current in Hcur. destruct (n_validTo c); [discriminate|reflexivity].
Qed.

(** Copy-on-write of one entity: the rows carrying the id of the current row
    are closed and one row of the same name is appended. *)
Lemma supersede_keeps_unique
      (s s' : Store) (c : Node) (rest : list Node) (now : Z) (new : Node) :
  unique_current s ->
  current_named s (n_name c) = c :: rest ->
  n_name new = n_name c ->
  nodes s'
  = map (fun n => if String.eqb (n_id n) (n_id c) then set_node_validTo now n else n)
        (nodes s) ++ [new] ->
  unique_current s'.
Proof.
  intros Hu Hc Hname Hnodes nm.
  rewrite current_named_unfold, Hnodes, filter_app, length_app.
  destruct (String.eqb_spec (n_name c) nm) as [Heq|Hneq].
  - rewrite closing_all_current.
    + cbn [filter List.length]. destruct (_ && _); cbn [List.length]; lia.
    + intros n Hn Hp.
      assert (Hin : In n (current_named s nm))
        by (rewrite current_named_unfold; apply filter_In; split; assumption).
      rewrite <- Heq, Hc, (unique_current_head s c rest _ Hu Hc) in Hin.
      destruct Hin as [<-|[]]. apply String.eqb_refl.
  - pose proof (closing_shrinks (fun n => String.eqb (n_id n) (n_id c)) now nm (nodes s))
      as Hshrink.
    pose proof (Hu nm) as Hnm. rewrite current_named_unfold in Hnm.
    cbn [filter]. rewrite Hname.
    destruct (String.eqb_spec (n_name c) nm) as [E|_]; [contradiction|].
    cbn [andb List.length]. lia.
Qed.

(** Appending a row whose name has no current row. *)
Lemma append_fresh_keeps_unique (s s' : Store) (new : Node) :
  unique_current s ->
  current_named s (n_name new) = [] ->
  nodes s' = nodes s ++ [new] ->
  unique_current s'.
Proof.
  intros Hu Hfresh Hnodes nm.
  rewrite current_named_unfold, Hnodes, filter_app, length_app.
  cbn [filter].
  destruct (String.eqb_spec (n_name new) nm) as [Heq|Hneq].
  - rewrite <- Heq, <- current_named_unfold, Hfresh.
    destruct (_ && _); cbn [List.length]; lia.
  - pose proof (Hu nm) as Hnm. rewrite current_named_unfold in Hnm.
    cbn [andb List.length]. lia.
Qed.

Lemma detach_delete_keeps_unique (names : list string) (s : Store) :
  unique_current s -> unique_current (detach_delete names s).
Proof.
  intros Hu nm. rewrite current_named_unfold. unfold detach_delete. cbn [nodes].
  pose proof (Hu nm) as Hnm. rewrite current_named_unfold in Hnm.
  pose proof (filter_filter_length
                (fun n => String.eqb (n_name n) nm && node_current n)
                (fun n => negb (JS.includes names (n_name n))) (nodes s)).
  lia.
Qed.

(** *** What each write operation does to the entity rows *)

Lemma iterM_nodes {A} (body : A -> M unit) (l : list A) :
  (forall x w, nodes (store (snd (body x w))) = nodes (store w)) ->
  forall w, nodes (store (snd (iterM body l w))) = nodes (store w).
Proof.
  intro Hbody. induction l as [|x rest IH]; intro w.
  - reflexivity.
  - cbn [iterM]. rewrite bind_run, IH. apply Hbody.
Qed.

Lemma carried_props_store (H : Host) (i : string) (p : RelProps) (now : Z) (w : World) :
  store (snd (carried_props H i p now w)) = store w.
Proof.
  unfold carried_props. rewrite bind_run. cbn [ret snd].
  destruct (Z.eqb (r_createdAt p) 0); reflexivity.
Qed.

Lemma recreate_outgoing_nodes (H : Host) (i : string) (now : Z)
      (rel : RelProps * Node) (w : World) :
  nodes (store (snd (recreate_outgoing H i now rel w))) = nodes (store w).
Proof.
  unfold recreate_outgoing. rewrite !bind_run.
  unfold put_store, get_store. cbn [fst snd store create_edges nodes].
  rewrite carried_props_store. reflexivity.
Qed.

Lemma recreate_incoming_nodes (H : Host) (i : string) (now : Z)
      (rel : RelProps * Node) (w : World) :
  nodes (store (snd (recreate_incoming H i now rel w))) = nodes (store w).
Proof.
  unfold recreate_incoming. rewrite !bind_run.
  unfold put_store, get_store. cbn [fst snd store create_edges nodes].
  rewrite carried_props_store. reflexivity.
Qed.

(** The four ways an [addObservations] item can go: it is blank; its entity
    has no current row; nothing in it is new; or the first current row of
    the name is superseded by a row holding the old observations followed
    by the new ones. *)
Lemma addObservation_cases (H : Host) (obs : ObservationInput) (w : World) :
  (blank_item obs = true /\ addObservation H obs w = ([], w))
  \/ (blank_item obs = false
      /\ current_named (store w) (entityName obs) = []
      /\ addObservation H obs w = ([], w))
  \/ (blank_item obs = false
      /\ exists c rest,
          current_named (store w) (entityName obs) = c :: rest
          /\ filter (fun content => negb (JS.includes (n_observations c) content))
                    (contents obs) = []
          /\ store (snd (addObservation H obs w)) = store w
          /\ fst (addObservation H obs w)
             = [mkObservationResult (entityName obs) []])
  \/ (blank_item obs = false
      /\ exists c rest now newId,
          current_named (store w) (entityName obs) = c :: rest
          /\ filter (fun content => negb (JS.includes (n_observations c) content))
                    (contents obs) <> []
          /\ nodes (store (snd (addObservation H obs w)))
             = map (fun n => if String.eqb (n_id n) (n_id c)
                             then set_node_validTo now n else n)
                   (nodes (store w))
               ++ [mkNode (next_nid (store w)) newId (n_name c) (n_entityType c)
                          (n_observations c
                           ++ filter (fun content =>
                                        negb (JS.includes (n_observations c) content))
                                     (contents obs))
                          (n_version c + 1) (n_createdAt c) now now
                          None None None]).
Proof.
  unfold addObservation.
  destruct (blank_item obs).
  - left. split; reflexivity.
  - right. rewrite bind_run. change (fst (get_store w)) with (store w).
    change (snd (get_store w)) with w.
    destruct (current_named (store w) (entityName obs)) as [|c rest] eqn:Hc.
    + left. repeat split; reflexivity.
    + right. rewrite bind_run. rewrite bind_run.
      destruct (filter (fun content => negb (JS.includes (n_observations c) content))
                       (contents obs)) as [|o more] eqn:Hnew.
      * left. split; [reflexivity|]. exists c, rest.
        split; [reflexivity|]. split; [exact Hnew|]. split; reflexivity.
      * right. split; [reflexivity|].
        exists c, rest, (clock H (ticks w)), (uuidv4 H (drawn w)).
        split; [reflexivity|]. split; [rewrite Hnew; discriminate|].
        rewrite !bind_run. cbn [ret snd].
        rewrite iterM_nodes by apply recreate_incoming_nodes.
        rewrite iterM_nodes by apply recreate_outgoing_nodes.
        rewrite Hnew. reflexivity.
Qed.

Lemma deleteObservation_effect (H : Host) (deletion : ObservationInput) (w : World) :
  store (snd (deleteObservation H deletion w)) = store w
  \/ exists c rest now new,
      current_named (store w) (entityName deletion) = c :: rest
      /\ n_name new = n_name c
      /\ nodes (store (snd (deleteObservation H deletion w)))
         = map (fun n => if String.eqb (n_id n) (n_id c)
                         then set_node_validTo now n else n)
               (nodes (store w))
           ++ [new].
Proof.
  unfold deleteObservation.
  destruct (blank_item deletion).
  - left. reflexivity.
  - rewrite bind_run. change (fst (get_store w)) with (store w).
    change (snd (get_store w)) with w.
    destruct (current_named (store w) (entityName deletion)) as [|c rest] eqn:Hc.
    + left. reflexivity.
    + right. exists c, rest, (clock H (ticks w)). eexists.
      split; [reflexivity|]. rewrite !bind_run.
      split; [|reflexivity]. reflexivity.
Qed.

Lemma createEntity_nodes (H : Host) (entity : EntityInput) (w : World) :
  exists new,
    n_name new = ei_name entity
    /\ nodes (store (snd (createEntity H entity w))) = nodes (store w) ++ [new].
Proof.
  unfold createEntity. rewrite !bind_run. cbn [ret snd].
  eexists. split; [|reflexivity]. reflexivity.
Qed.

Lemma createRelation_nodes (H : Host) (r : RelationInput) (w : World) :
  nodes (store (snd (createRelation H r w))) = nodes (store w).
Proof. destruct (createRelation_store H r w) as [p ->]. reflexivity. Qed.

Lemma deleteRelation_nodes (r : RelationInput) (w : World) :
  nodes (store (snd (deleteRelation r w))) = nodes (store w).
Proof. reflexivity. Qed.

Lemma updateRelation_nodes (H : Host) (r : RelationInput) (w : World) :
  nodes (store (snd (updateRelation H r w))) = nodes (store w).
Proof.
  unfold updateRelation. rewrite bind_run.
  change (fst (get_store w)) with (store w). change (snd (get_store w)) with w.
  destruct (filter _ (edges (store w))) as [|current more].
  - reflexivity.
  - rewrite !bind_run.
    destruct (undefined_parameters _ _ _) as [|missing more'].
    + rewrite !bind_run. reflexivity.
    + rewrite !bind_run. reflexivity.
Qed.

Lemma forM_store_invariant {A B} (P : Store -> Prop) (body : A -> M (list B))
      (l : list A) :
  (forall x w, P (store w) -> P (store (snd (body x w)))) ->
  forall w, P (store w) -> P (store (snd (forM body l w))).
Proof.
  intro Hbody. induction l as [|x rest IH]; intros w Hw.
  - exact Hw.
  - cbn [forM]. rewrite !bind_run. cbn [ret snd]. apply IH, Hbody, Hw.
Qed.

Lemma iterM_store_invariant {A} (P : Store -> Prop) (body : A -> M unit)
      (l : list A) :
  (forall x w, P (store w) -> P (store (snd (body x w)))) ->
  forall w, P (store w) -> P (store (snd (iterM body l w))).
Proof.
  intro Hbody. induction l as [|x rest IH]; intros w Hw.
  - exact Hw.
  - cbn [iterM]. rewrite bind_run. apply IH, Hbody, Hw.
Qed.

Lemma iterM_eq_batch {A} (body : A -> M unit) (l : list A) (w : World) :
  match l with [] => ret tt | _ => iterM body l end w = iterM body l w.
Proof. destruct l; reflexivity. Qed.

Lemma addObservation_keeps_unique (H : Host) (obs : ObservationInput) (w : World) :
  unique_current (store w) -> unique_current (store (snd (addObservation H obs w))).
Proof.
  intro Hu.
  destruct (addObservation_cases H obs w)
    as [[_ Hrun]|[[_ [_ Hrun]]|[[_ [c [rest [_ [_ [Hsame _]]]]]]
       |[_ [c [rest [now [newId [Hc [_ Hnodes]]]]]]]]]].
  - rewrite Hrun. exact Hu.
  - rewrite Hrun. exact Hu.
  - rewrite Hsame. exact Hu.
  - destruct (current_named_head_in _ _ _ _ Hc) as [_ [Hname _]].
    rewrite <- Hname in Hc.
    eapply supersede_keeps_unique; [exact Hu|exact Hc| |exact Hnodes].
    reflexivity.
Qed.

Lemma deleteObservation_keeps_unique (H : Host) (d : ObservationInput) (w : World) :
  unique_current (store w) -> unique_current (store (snd (deleteObservation H d w))).
Proof.
  intro Hu.
  destruct (deleteObservation_effect H d w)
    as [Hsame|[c [rest [now [new [Hc [Hnew Hnodes]]]]]]].
  - rewrite Hsame. exact Hu.
  - destruct (current_named_head_in _ _ _ _ Hc) as [_ [Hname _]].
    rewrite <- Hname in Hc.
    eapply supersede_keeps_unique; [exact Hu|exact Hc|exact Hnew|exact Hnodes].
Qed.

Lemma createEntities_keeps_unique (H : Host) (l : list EntityInput) :
  forall w, unique_current (store w) -> fresh_names (store w) l ->
            unique_current (store (snd (forM (createEntity H) l w))).
Proof.
  induction l as [|e rest IH]; intros w Hu [Hnodup Hfresh].
  - exact Hu.
  - cbn [forM]. rewrite !bind_run. cbn [ret snd].
    destruct (createEntity_nodes H e w) as [new [Hname Hnodes]].
    inversion Hnodup as [|x xs Hnotin Hnodup' Heq]; subst.
    apply IH.
    + apply (append_fresh_keeps_unique (store w) _ new Hu); [|exact Hnodes].
      rewrite Hname. apply Hfresh. left. reflexivity.
    + split; [exact Hnodup'|].
      intros e' He'. rewrite current_named_unfold, Hnodes, filter_app.
      rewrite <- current_named_unfold, (Hfresh e' (or_intror He')).
      cbn [filter app]. rewrite Hname.
      destruct (String.eqb_spec (ei_name e) (ei_name e')) as [Heq|_]; [|reflexivity].
      exfalso. apply Hnotin. rewrite Heq. apply in_map. exact He'.
Qed.

Lemma perform_keeps_unique (H : Host) (op : Operation) (w : World) :
  unique_current (store w) ->
  match op with
  | CreateEntities l => fresh_names (store w) l
  | _ => True
  end ->
  unique_current (store (perform H op w)).
Proof.
  intros Hu Hfresh. destruct op as [l|l|l|l|r|l|l]; cbn [perform].
  - unfold createEntities. rewrite forM_eq_batch.
    apply createEntities_keeps_unique; assumption.
  - unfold createRelations. rewrite forM_eq_batch.
    apply (forM_store_invariant unique_current); [|exact Hu].
    intros x w' Hw'. apply (unique_current_same_nodes (store w')); [|exact Hw'].
    apply createRelation_nodes.
  - unfold addObservations. rewrite forM_eq_batch.
    apply (forM_store_invariant unique_current); [|exact Hu].
    intros x w'. apply addObservation_keeps_unique.
  - unfold deleteObservations. rewrite iterM_eq_batch.
    apply (iterM_store_invariant unique_current); [|exact Hu].
    intros x w'. apply deleteObservation_keeps_unique.
  - apply (unique_current_same_nodes (store w)); [|exact Hu].
    apply updateRelation_nodes.
  - unfold deleteEntities. destruct l as [|x xs]; [exact Hu|].
    rewrite bind_run. cbn [put_store get_store fst snd store].
    apply detach_delete_keeps_unique. exact Hu.
  - unfold deleteRelations. rewrite iterM_eq_batch.
    apply (iterM_store_invariant unique_current); [|exact Hu].
    intros x w' Hw'. apply (unique_current_same_nodes (store w')); [|exact Hw'].
    apply deleteRelation_nodes.
Qed.

(** C2, as the code has it.  Starting from a store in which every name has
    at most one current row, any sequence of [createEntities],
    [createRelations], [addObservations], [deleteObservations],
    [updateRelation], [deleteEntities] and [deleteRelations] keeps that
    property, provided each [createEntities] batch names pairwise distinct
    entities none of which has a current row when the batch starts. *)
Theorem unique_current_preserved
        (H : Host) (ops : list Operation) (w : World)
        (Hinit : unique_current (store w))
        (Hfresh : creates_only_fresh H ops w) :
  unique_current (store (perform_all H ops w)).
Proof.
  revert w Hinit Hfresh.
  induction ops as [|op rest IH]; intros w Hinit Hfresh.
  - exact Hinit.
  - destruct Hfresh as [Hop Hrest]. cbn [perform_all].
    apply IH; [|exact Hrest].
    apply perform_keeps_unique; assumption.
Qed.

Lemma unique_current_preserved_witness :
  unique_current
    (store
       (perform_all (Example.host None)
          [CreateEntities [Example.entity "a" "person" ["likes tea"%string];
                           Example.entity "b" "city" []];
           CreateRelations [Example.relation "a" "b" "lives_in"];
           AddObservations [mkObservationInput "a" ["tall"%string]];
           DeleteObservations [mkObservationInput "a" ["likes tea"%string]];
           UpdateRelation (Example.relation "a" "b" "lives_in");
           DeleteEntities ["b"%string];
           CreateEntities [Example.entity "b" "town" []]]
          Example.start)).
Proof.
  apply (unique_current_preserved (Example.host None)).
  - intro nm. cbn. lia.
  - cbn [creates_only_fresh].
    split; [split|].
    + repeat constructor; cbn; intuition discriminate.
    + intros e He. cbn in He. destruct He as [<-|[<-|[]]]; reflexivity.
    + do 5 (split; [exact I|]). split; [split|exact I].
      * repeat constructor; cbn; intuition discriminate.
      * intros e He. cbn in He. destruct He as [<-|[]]. reflexivity.
Defined.

(** C2, counterexample to the claim as stated: [createEntities] inserts a
    current row without looking for an existing one, so creating "a" twice
    leaves two rows of that name with [validTo = null]. *)
Lemma createEntities_twice_leaves_two_current_rows :
  map (fun n => (n_name n, n_validTo n))
      (nodes (store
         (perform_all (Example.host None)
            [CreateEntities [Example.entity "a" "person" []];
             CreateEntities [Example.entity "a" "person" []]]
            Example.start)))
  = [("a"%string, None); ("a"%string, None)]
  /\ ~ unique_current
         (store
            (perform_all (Example.host None)
               [CreateEntities [Example.entity "a" "person" []];
                CreateEntities [Example.entity "a" "person" []]]
               Example.start)).
Proof.
  split; [reflexivity|].
  intro Hu. specialize (Hu "a"%string). vm_compute in Hu. lia.
Qed.

(** ** addObservations is idempotent *)

Lemma includes_In (l : list string) (x : string) :
  JS.includes l x = true <-> In x l.
Proof.
  unfold JS.includes. rewrite existsb_exists. split.
  - intros [y [Hy Heq]]. apply String.eqb_eq in Heq. subst y. exact Hy.
  - intro Hin. exists x. split; [exact Hin|apply String.eqb_refl].
Qed.

Lemma nothing_new_iff (known items : list string) :
  filter (fun content => negb (JS.includes known content)) items = []
  <-> forall x, In x items -> In x known.
Proof.
  induction items as [|y rest IH]; cbn [filter].
  - split; [intros _ x []|reflexivity].
  - destruct (JS.includes known y) eqn:Hy; cbn [negb].
    + rewrite IH. apply includes_In in Hy. split.
      * intros Hall x [<-|Hx]; [exact Hy|exact (Hall x Hx)].
      * intros Hall x Hx. apply Hall. right. exact Hx.
    + split; [discriminate|].
      intro Hall. exfalso.
      assert (Hin : In y known) by (apply Hall; left; reflexivity).
      apply includes_In in Hin. rewrite Hin in Hy. discriminate.
Qed.

Lemma settled_same_nodes (s s' : Store) (obs : ObservationInput) :
  nodes s' = nodes s -> settled s obs -> settled s' obs.
Proof.
  intros Hn [Hblank|Hall]; [left; exact Hblank|right].
  intros c rest Hc. apply (Hall c rest).
  rewrite current_named_unfold, <- Hn. exact Hc.
Qed.

(** A settled item changes nothing and reports nothing added. *)
Lemma settled_noop (H : Host) (obs : ObservationInput) (w : World) :
  settled (store w) obs ->
  store (snd (addObservation H obs w)) = store w
  /\ Forall (fun r => addedObservations r = []) (fst (addObservation H obs w)).
Proof.
  intro Hs.
  destruct (addObservation_cases H obs w)
    as [[_ Hrun]|[[_ [_ Hrun]]|[[_ [c [rest [_ [_ [Hsame Hres]]]]]]
       |[Hnb [c [rest [now [newId [Hc [Hnew _]]]]]]]]]].
  - rewrite Hrun. split; [reflexivity|constructor].
  - rewrite Hrun. split; [reflexivity|constructor].
  - rewrite Hsame, Hres. split; [reflexivity|]. repeat constructor.
  - exfalso. destruct Hs as [Hblank|Hall].
    + rewrite Hblank in Hnb. discriminate.
    + apply Hnew. apply nothing_new_iff. exact (Hall c rest Hc).
Qed.

Lemma closing_keeps_only_old (hit : Node -> bool) (now : Z) (nm : string)
      (l : list Node) (n : Node) :
  In n (filter (fun n => String.eqb (n_name n) nm && node_current n)
               (map (fun n => if hit n then set_node_validTo now n else n) l)) ->
  In n (filter (fun n => String.eqb (n_name n) nm && node_current n) l).
Proof.
  induction l as [|x rest IH]; cbn [map filter]; [intros []|].
  destruct (hit x).
  - rewrite closed_not_current, andb_false_r. intro Hin.
    destruct (String.eqb (n_name x) nm && node_current x);
      [right|]; apply IH; exact Hin.
  - destruct (String.eqb (n_name x) nm && node_current x).
    + intros [<-|Hin]; [left; reflexivity|right; apply IH; exact Hin].
    + exact IH.
Qed.

(** After a copy-on-write the new row is the one current row of the name. *)
Lemma superseded_current_row
      (s s' : Store) (c : Node) (rest : list Node) (now : Z) (new : Node) :
  unique_current s ->
  current_named s (n_name c) = c :: rest ->
  n_name new = n_name c ->
  n_validTo new = None ->
  nodes s'
  = map (fun n => if String.eqb (n_id n) (n_id c) then set_node_validTo now n else n)
        (nodes s) ++ [new] ->
  current_named s' (n_name c) = [new].
Proof.
  intros Hu Hc Hname Hcur Hnodes.
  rewrite current_named_unfold, Hnodes, filter_app.
  rewrite closing_all_current.
  - cbn [filter app]. rewrite Hname, String.eqb_refl.
    unfold node_current. rewrite Hcur. reflexivity.
  - intros n Hn Hp.
    assert (Hin : In n (current_named s (n_name c)))
      by (rewrite current_named_unfold; apply filter_In; split; assumption).
    rewrite Hc, (unique_current_head s c rest _ Hu Hc) in Hin.
    destruct Hin as [<-|[]]. apply String.eqb_refl.
Qed.

(** The current rows of every other name were already current. *)
Lemma other_current_rows
      (s s' : Store) (i : string) (now : Z) (new : Node) (nm : string) (n : Node) :
  n_name new <> nm ->
  nodes s'
  = map (fun n => if String.eqb (n_id n) i then set_node_validTo now n else n)
        (nodes s) ++ [new] ->
  In n (current_named s' nm) -> In n (current_named s nm).
Proof.
  intros Hneq Hnodes. rewrite !current_named_unfold, Hnodes, filter_app.
  cbn [filter]. destruct (String.eqb_spec (n_name new) nm) as [E|_]; [contradiction|].
  cbn [andb]. rewrite app_nil_r.
  apply (closing_keeps_only_old (fun n => String.eqb (n_id n) i)).
Qed.

Lemma unique_current_singleton (s : Store) (nm : string) (n : Node) :
  unique_current s -> In n (current_named s nm) -> current_named s nm = [n].
Proof.
  intros Hu Hin. specialize (Hu nm).
  destruct (current_named s nm) as [|c [|c' rest]].
  - destruct Hin.
  - destruct Hin as [<-|[]]. reflexivity.
  - cbn [List.length] in Hu. lia.
Qed.

(** Processing an item leaves it settled. *)
Lemma addObservation_settles (H : Host) (obs : ObservationInput) (w : World) :
  unique_current (store w) ->
  settled (store (snd (addObservation H obs w))) obs.
Proof.
  intro Hu.
  destruct (addObservation_cases H obs w)
    as [[Hblank _]|[[_ [Hnone Hrun]]|[[_ [c [rest [Hc [Hnew [Hsame _]]]]]]
       |[_ [c [rest [now [newId [Hc [_ Hnodes]]]]]]]]]].
  - left. exact Hblank.
  - right. rewrite Hrun. cbn [snd]. rewrite Hnone. discriminate.
  - right. rewrite Hsame. intros c' rest' Hc'. rewrite Hc in Hc'.
    injection Hc' as <- _. apply nothing_new_iff. exact Hnew.
  - right. intros c' rest' Hc' x Hx.
    destruct (current_named_head_in _ _ _ _ Hc) as [_ [Hname _]].
    rewrite <- Hname in Hc, Hc'.
    erewrite superseded_current_row in Hc';
      [|exact Hu|exact Hc| | |exact Hnodes]; [|reflexivity|reflexivity].
    injection Hc' as <- _. cbn [n_observations].
    destruct (JS.includes (n_observations c) x) eqn:Hinc.
    + apply in_or_app. left. apply includes_In. exact Hinc.
    + apply in_or_app. right. apply filter_In. split; [exact Hx|].
      rewrite Hinc. reflexivity.
Qed.

(** Processing any item keeps every settled item settled. *)
Lemma addObservation_preserves_settled
      (H : Host) (obs o : ObservationInput) (w : World) :
  unique_current (store w) ->
  settled (store w) o ->
  settled (store (snd (addObservation H obs w))) o.
Proof.
  intros Hu Hs.
  destruct (addObservation_cases H obs w)
    as [[_ Hrun]|[[_ [_ Hrun]]|[[_ [c [rest [_ [_ [Hsame _]]]]]]
       |[_ [c [rest [now [newId [Hc [_ Hnodes]]]]]]]]]].
  - rewrite Hrun. exact Hs.
  - rewrite Hrun. exact Hs.
  - rewrite Hsame. exact Hs.
  - destruct Hs as [Hblank|Hall]; [left; exact Hblank|right].
    destruct (current_named_head_in _ _ _ _ Hc) as [_ [Hname _]].
    intros c' rest' Hc' x Hx.
    destruct (String.eqb_spec (entityName obs) (entityName o)) as [Heq|Hneq].
    + rewrite <- Heq, <- Hname in Hc'. rewrite <- Hname in Hc.
      erewrite superseded_current_row in Hc';
        [|exact Hu|exact Hc| | |exact Hnodes]; [|reflexivity|reflexivity].
      injection Hc' as <- _. cbn [n_observations].
      apply in_or_app. left. apply (Hall c rest); [|exact Hx].
      rewrite <- Heq, <- Hname. exact Hc.
    + assert (Hin : In c' (current_named (store w) (entityName o))).
      { eapply other_current_rows; [|exact Hnodes|].
        - cbn [n_name]. rewrite Hname. exact Hneq.
        - rewrite Hc'. left. reflexivity. }
      apply (Hall c' []); [|exact Hx].
      apply unique_current_singleton; assumption.
Qed.

Lemma forM_addObservation_keeps_unique (H : Host) (l : list ObservationInput) :
  forall w, unique_current (store w) ->
            unique_current (store (snd (forM (addObservation H) l w))).
Proof.
  apply (forM_store_invariant unique_current).
  intros x w. apply addObservation_keeps_unique.
Qed.

Lemma forM_preserves_settled (H : Host) (o : ObservationInput)
      (l : list ObservationInput) :
  forall w, unique_current (store w) -> settled (store w) o ->
            settled (store (snd (forM (addObservation H) l w))) o.
Proof.
  induction l as [|x rest IH]; intros w Hu Hs.
  - exact Hs.
  - cbn [forM]. rewrite !bind_run. cbn [ret snd]. apply IH.
    + apply addObservation_keeps_unique. exact Hu.
    + apply addObservation_preserves_settled; assumption.
Qed.

(** After a batch every one of its items is settled. *)
Lemma forM_settles_all (H : Host) (l : list ObservationInput) :
  forall w, unique_current (store w) ->
            Forall (settled (store (snd (forM (addObservation H) l w)))) l.
Proof.
  induction l as [|x rest IH]; intros w Hu.
  - constructor.
  - cbn [forM]. rewrite !bind_run. cbn [ret snd]. constructor.
    + apply forM_preserves_settled.
      * apply addObservation_keeps_unique. exact Hu.
      * apply addObservation_settles. exact Hu.
    + apply IH. apply addObservation_keeps_unique. exact Hu.
Qed.

(** A batch of settled items changes nothing and reports nothing added. *)
Lemma forM_settled_noop (H : Host) (l : list ObservationInput) :
  forall w, Forall (settled (store w)) l ->
            store (snd (forM (addObservation H) l w)) = store w
            /\ Forall (fun r => addedObservations r = [])
                      (fst (forM (addObservation H) l w)).
Proof.
  induction l as [|x rest IH]; intros w Hall.
  - split; [reflexivity|constructor].
  - inversion Hall as [|y ys Hx Hrest]; subst.
    destruct (settled_noop H x w Hx) as [Hsame Hnone].
    cbn [forM]. rewrite !bind_run. cbn [ret fst snd].
    assert (Hrest' : Forall (settled (store (snd (addObservation H x w)))) rest).
    { rewrite Hsame. exact Hrest. }
    destruct (IH _ Hrest') as [Hsame' Hnone'].
    split.
    + rewrite Hsame'. exact Hsame.
    + apply Forall_app. split; assumption.
Qed.

(** What a settled item reports: nothing for a blank item or an unknown
    entity, and one result with nothing added otherwise. *)
Lemma settled_result (H : Host) (obs : ObservationInput) (w : World) :
  settled (store w) obs ->
  fst (addObservation H obs w)
  = if blank_item obs then []
    else match current_named (store w) (entityName obs) with
         | [] => []
         | _ :: _ => [mkObservationResult (entityName obs) []]
         end.
Proof.
  intro Hs.
  destruct (addObservation_cases H obs w)
    as [[Hb Hrun]|[[Hb [Hc Hrun]]|[[Hb [c [rest [Hc [_ [_ Hres]]]]]]
       |[Hnb [c [rest [now [newId [Hc [Hnew _]]]]]]]]]].
  - rewrite Hrun, Hb. reflexivity.
  - rewrite Hrun, Hb, Hc. reflexivity.
  - rewrite Hres, Hb, Hc. reflexivity.
  - exfalso. destruct Hs as [Hblank|Hall].
    + rewrite Hblank in Hnb. discriminate.
    + apply Hnew. apply nothing_new_iff. exact (Hall c rest Hc).
Qed.

Lemma forM_settled_result (H : Host) (l : list ObservationInput) :
  forall w, Forall (settled (store w)) l ->
            fst (forM (addObservation H) l w)
            = flat_map
                (fun obs =>
                   if blank_item obs then []
                   else match current_named (store w) (entityName obs) with
                        | [] => []
                        | _ :: _ => [mkObservationResult (entityName obs) []]
                        end)
                l.
Proof.
  induction l as [|x rest IH]; intros w Hall; [reflexivity|].
  inversion Hall as [|y ys Hx Hrest]; subst.
  destruct (settled_noop H x w Hx) as [Hsame _].
  cbn [forM flat_map]. rewrite !bind_run. cbn [ret fst].
  assert (Hrest' : Forall (settled (store (snd (addObservation H x w)))) rest).
  { rewrite Hsame. exact Hrest. }
  rewrite (settled_result H x w Hx), (IH _ Hrest'), Hsame. reflexivity.
Qed.

(** C4, as the code has it.  On a store in which every name has at most
    one current row, calling [addObservations] a second time with the same
    batch reports [addedObservations = []] for every item; the results of
    the second call are exactly one such entry for each item that is not
    blank and names an entity with a current row; and the store is left
    exactly as the first call left it: no row is closed or created, so the
    version and the id of every current row are unchanged. *)
Theorem addObservations_idempotent
        (H : Host) (observations : list ObservationInput) (w : World)
        (Hunique : unique_current (store w)) :
  let w1 := snd (addObservations H observations w) in
  Forall (fun r => addedObservations r = [])
         (fst (addObservations H observations w1))
  /\ store (snd (addObservations H observations w1)) = store w1
  /\ (forall nm,
        map (fun n => (n_id n, n_version n))
            (current_named (store (snd (addObservations H observations w1))) nm)
        = map (fun n => (n_id n, n_version n)) (current_named (store w1) nm))
  /\ fst (addObservations H observations w1)
     = flat_map
         (fun obs =>
            if blank_item obs then []
            else match current_named (store w1) (entityName obs) with
                 | [] => []
                 | _ :: _ => [mkObservationResult (entityName obs) []]
                 end)
         observations.
Proof.
  cbv zeta. unfold addObservations. rewrite !forM_eq_batch.
  pose proof (forM_settles_all H observations w Hunique) as Hall.
  destruct (forM_settled_noop H observations _ Hall) as [Hsame Hnone].
  split; [exact Hnone|]. split; [exact Hsame|]. split.
  - intro nm. rewrite Hsame. reflexivity.
  - exact (forM_settled_result H observations _ Hall).
Qed.

(** C4, as first stated, fails without the premise.  After [createEntities]
    has been called twice for "a" the store holds two current rows of that
    name.  The first call of [addObservations] supersedes the first of them
    by a row that holds "x"; the second, identical call then finds the other
    old row first, which does not hold "x": it reports "x" as added once
    more and writes one more version.  (The rows of a name are listed in the
    order of their creation, and the code reads [records[0]].) *)
Lemma addObservations_repeats_on_a_duplicated_name :
  let w0 := perform_all (Example.host None)
              [CreateEntities [Example.entity "a" "person" []];
               CreateEntities [Example.entity "a" "person" []]]
              Example.start in
  let observations := [mkObservationInput "a" ["x"%string]] in
  let w1 := snd (addObservations (Example.host None) observations w0) in
  let w2 := snd (addObservations (Example.host None) observations w1) in
  List.length (current_named (store w0) "a") = 2%nat
  /\ fst (addObservations (Example.host None) observations w0)
     = [mkObservationResult "a" ["x"%string]]
  /\ fst (addObservations (Example.host None) observations w1)
     = [mkObservationResult "a" ["x"%string]]
  /\ List.length (nodes (store w1)) = 3%nat
  /\ List.length (nodes (store w2)) = 4%nat
  /\ map (fun n => (n_version n, n_observations n)) (current_named (store w2) "a")
     = [(2, ["x"%string]); (2, ["x"%string])].
Proof. cbv zeta. repeat split; reflexivity. Qed.

Lemma populated_unique : unique_current (store Example.populated).
Proof.
  intro nm. rewrite current_named_unfold.
  change (nodes (store Example.populated))
    with (nodes (store (perform (Example.host None)
                          (CreateEntities
                             [Example.entity "a" "person" ["likes tea"%string];
                              Example.entity "b" "city" []])
                          Example.start))).
  cbn -[String.eqb].
  destruct (String.eqb_spec "a" nm) as [Ha|Ha];
    destruct (String.eqb_spec "b" nm) as [Hb|Hb]; cbn; try lia.
  congruence.
Defined.

Lemma addObservations_idempotent_witness :
  Forall (fun r => addedObservations r = [])
         (fst (addObservations (Example.host None) Example.batch
                 (snd (addObservations (Example.host None) Example.batch
                                       Example.populated))))
  /\ store (snd (addObservations (Example.host None) Example.batch
                   (snd (addObservations (Example.host None) Example.batch
                                         Example.populated))))
     = store (snd (addObservations (Example.host None) Example.batch
                                   Example.populated))
  /\ fst (addObservations (Example.host None) Example.batch
            (snd (addObservations (Example.host None) Example.batch
                                  Example.populated)))
     = [mkObservationResult "a" []; mkObservationResult "a" []].
Proof.
  destruct (addObservations_idempotent (Example.host None) Example.batch
                                       Example.populated populated_unique)
    as [Hnone [Hsame [_ Hresult]]].
  split; [exact Hnone|]. split; [exact Hsame|].
  rewrite Hresult. reflexivity.
Defined.

(** ** The scenarios of the specification, run on the model *)

(** Creating an entity and reading it back by name. *)
Example create_then_read :
  option_map (fun e => (version e, validTo e, observations e))
    (getEntity
       (store (perform (Example.host None)
                 (CreateEntities
                    [Example.entity "TypeScript" "programming_language"
                                    ["Compiles to plain text"%string]])
                 Example.start))
       "TypeScript")
  = Some (1, None, ["Compiles to plain text"%string]).
Proof. reflexivity. Qed.

(** After an observation is appended to "a", the relation from "a" to "b"
    is still returned by [openNodes] and is attached to the new current row
    of "a". *)
Example relation_follows_new_version :
  let w := perform (Example.host None)
             (AddObservations [mkObservationInput "a" ["tall"%string]])
             Example.populated in
  map relation_core (relations (fst (openNodes (Example.host None)
                                               ["a"%string; "b"%string] w)))
  = [("a"%string, "b"%string, "lives_in"%string, Some (9 # 10), Some (95 # 100))]
  /\ map (fun row => (n_version (fst (fst row)), n_validTo (fst (fst row))))
         (relations_among (store w) ["a"%string; "b"%string])
     = [(2, None)].
Proof. split; reflexivity. Qed.

(** Two candidates scored 0.59 and 0.61 against the default floor 0.6. *)
Example similarity_floor_scenario :
  map snd
      (order_by_score_desc
         (filter (fun row => Qle_bool (JS.qnum_or None (6 # 10)) (snd row))
                 [("low"%string, 59 # 100); ("high"%string, 61 # 100)]))
  = [61 # 100].
Proof. reflexivity. Qed.

(** * Further properties of the code *)

(** ** createEntities *)

(** What a stored row shows of the input it was created from. *)
Lemma createEntity_run (H : Host) (entity : EntityInput) (w : World) :
  exists n,
    createEntity H entity w
    = ([nodeToEntity n],
       mkWorld (mkStore (nodes (store w) ++ [n]) (edges (store w))
                        (S (next_nid (store w))))
               (S (ticks w)) (S (drawn w)))
    /\ n_name n = ei_name entity
    /\ n_entityType n = ei_entityType entity
    /\ n_observations n = JS.defined_or (ei_observations entity) []
    /\ n_version n = 1
    /\ n_validTo n = None.
Proof.
  eexists. split.
  - unfold createEntity, bind, Date_now, uuid, get_store, put_store, ret,
      create_node.
    cbn [fst snd store ticks drawn]. reflexivity.
  - repeat split; reflexivity.
Qed.

Lemma forM_createEntity_run (H : Host) (l : list EntityInput) :
  forall w,
  exists created,
    nodes (store (snd (forM (createEntity H) l w))) = nodes (store w) ++ created
    /\ edges (store (snd (forM (createEntity H) l w))) = edges (store w)
    /\ fst (forM (createEntity H) l w) = map nodeToEntity created
    /\ Forall2 (fun n i =>
                  n_name n = ei_name i
                  /\ n_entityType n = ei_entityType i
                  /\ n_observations n = JS.defined_or (ei_observations i) []
                  /\ n_version n = 1
                  /\ n_validTo n = None)
               created l.
Proof.
  induction l as [|e rest IH]; intro w.
  - exists []. cbn [forM ret fst snd map]. rewrite app_nil_r.
    repeat split; try reflexivity. constructor.
  - destruct (createEntity_run H e w) as [n [Hrun Hn]].
    cbn [forM]. rewrite !bind_run, Hrun. cbn [fst snd ret].
    destruct (IH (mkWorld (mkStore (nodes (store w) ++ [n]) (edges (store w))
                                   (S (next_nid (store w))))
                          (S (ticks w)) (S (drawn w))))
      as [created [Hnodes [Hedges [Hres Hall]]]].
    exists (n :: created). rewrite Hnodes, Hedges, Hres. cbn [store nodes edges].
    rewrite <- app_assoc. repeat split; try reflexivity.
    constructor; assumption.
Qed.

(** X1.  [createEntities] returns one entity per input, in order, each at
    version 1 and current, with the name, type and observations given,
    whatever the embedding service does; the rows it stores are the ones it
    returns, appended after the existing rows, which are left as they were,
    and no relationship is touched. *)
Theorem createEntities_appends_version_one_rows
        (H : Host) (entities : list EntityInput) (w : World) :
  map (fun e => (name e, entityType e, observations e, version e, validTo e))
      (fst (createEntities H entities w))
  = map (fun i => (ei_name i, ei_entityType i,
                   JS.defined_or (ei_observations i) [], 1, None))
        entities
  /\ (exists created,
        nodes (store (snd (createEntities H entities w)))
        = nodes (store w) ++ created
        /\ fst (createEntities H entities w) = map nodeToEntity created)
  /\ edges (store (snd (createEntities H entities w))) = edges (store w).
Proof.
  unfold createEntities. rewrite !forM_eq_batch.
  destruct (forM_createEntity_run H entities w)
    as [created [Hnodes [Hedges [Hres Hall]]]].
  split; [|split].
  - rewrite Hres. clear Hnodes Hedges Hres.
    induction Hall as [|n i created' l' Hni _ IH]; [reflexivity|].
    destruct Hni as [H1 [H2 [H3 [H4 H5]]]].
    cbn [map nodeToEntity name entityType observations version validTo].
    rewrite H1, H2, H3, H4, H5, <- IH. reflexivity.
  - exists created. split; assumption.
  - exact Hedges.
Qed.

Lemma created_rows_of_other_names
      (R : Node -> EntityInput -> Prop) (created : list Node)
      (l : list EntityInput) (nm : string) :
  (forall n i, R n i -> n_name n = ei_name i) ->
  Forall2 R created l ->
  ~ In nm (map ei_name l) ->
  filter (fun n => String.eqb (n_name n) nm && node_current n) created = [].
Proof.
  intros Hname Hall. induction Hall as [|n i created' l' Hni _ IH]; intro Hnotin.
  - reflexivity.
  - cbn [filter]. rewrite (Hname n i Hni).
    destruct (String.eqb_spec (ei_name i) nm) as [Heq|_].
    + exfalso. apply Hnotin. left. exact Heq.
    + cbn [andb]. apply IH. intro Hin. apply Hnotin. right. exact Hin.
Qed.

Lemma created_row_of_name
      (R : Node -> EntityInput -> Prop) (created : list Node)
      (l : list EntityInput) (e : EntityInput) :
  (forall n i, R n i -> n_name n = ei_name i /\ n_validTo n = None) ->
  Forall2 R created l ->
  NoDup (map ei_name l) ->
  In e l ->
  exists n,
    filter (fun n => String.eqb (n_name n) (ei_name e) && node_current n) created
    = [n]
    /\ R n e.
Proof.
  intros HR Hall. induction Hall as [|n i created' l' Hni Hall' IH];
    intros Hnodup Hin; [destruct Hin|].
  cbn [map] in Hnodup. inversion Hnodup as [|x xs Hnotin Hnodup' Heq]; subst.
  destruct (HR n i Hni) as [Hname Hcur].
  cbn [filter]. rewrite Hname. unfold node_current at 1. rewrite Hcur.
  destruct Hin as [<-|Hin].
  - rewrite String.eqb_refl. cbn [andb JS.is_null]. exists n. split; [|exact Hni].
    f_equal. apply (created_rows_of_other_names R created' l'); [|exact Hall'|exact Hnotin].
    intros n' i' Hn'. exact (proj1 (HR n' i' Hn')).
  - destruct (String.eqb_spec (ei_name i) (ei_name e)) as [Heq|_].
    + exfalso. apply Hnotin. rewrite Heq. apply in_map. exact Hin.
    + cbn [andb]. apply IH; assumption.
Qed.

(** X2.  Create, then read by name: when the names of a batch are pairwise
    distinct and none of them has a current row, [getEntity] on any of them
    afterwards returns the entity just created, at version 1, current, with
    the observations that were passed in. *)
Theorem createEntities_then_getEntity
        (H : Host) (entities : list EntityInput) (w : World) (e : EntityInput)
        (Hfresh : fresh_names (store w) entities)
        (Hin : In e entities) :
  option_map
    (fun x => (name x, entityType x, observations x, version x, validTo x))
    (getEntity (store (snd (createEntities H entities w))) (ei_name e))
  = Some (ei_name e, ei_entityType e, JS.defined_or (ei_observations e) [],
          1, None).
Proof.
  destruct Hfresh as [Hnodup Hnone].
  unfold createEntities. rewrite forM_eq_batch.
  destruct (forM_createEntity_run H entities w)
    as [created [Hnodes [_ [_ Hall]]]].
  destruct (created_row_of_name _ created entities e
              (fun n i Hni => conj (proj1 Hni)
                                   (proj2 (proj2 (proj2 (proj2 Hni)))))
              Hall Hnodup Hin)
    as [n [Hfilter [H1 [H2 [H3 [H4 H5]]]]]].
  unfold getEntity. rewrite current_named_unfold, Hnodes, filter_app.
  rewrite <- current_named_unfold, (Hnone e Hin), Hfilter. cbn [app option_map].
  cbn [nodeToEntity name entityType observations version validTo].
  rewrite H1, H2, H3, H4, H5. reflexivity.
Qed.

Lemma createEntities_then_getEntity_witness :
  option_map
    (fun x => (name x, entityType x, observations x, version x, validTo x))
    (getEntity
       (store (snd (createEntities (Example.host None)
                      [Example.entity "c" "person" [];
                       Example.entity "d" "town" ["quiet"%string]]
                      Example.populated)))
       "d")
  = Some ("d"%string, "town"%string, ["quiet"%string], 1, None).
Proof.
  apply (createEntities_then_getEntity (Example.host None)
           [Example.entity "c" "person" [];
            Example.entity "d" "town" ["quiet"%string]]
           Example.populated (Example.entity "d" "town" ["quiet"%string])).
  - split.
    + repeat constructor; cbn; intuition discriminate.
    + intros e He. cbn in He. destruct He as [<-|[<-|[]]]; reflexivity.
  - right. left. reflexivity.
Defined.

(** ** deleteEntities *)

Lemma filter_all_true {A} (p : A -> bool) (l : list A) :
  (forall x, In x l -> p x = true) -> filter p l = l.
Proof.
  induction l as [|x rest IH]; intro Hall; [reflexivity|].
  cbn [filter]. rewrite (Hall x (or_introl eq_refl)). f_equal.
  apply IH. intros y Hy. apply Hall. right. exact Hy.
Qed.

Lemma filter_idempotent {A} (p : A -> bool) (l : list A) :
  filter p (filter p l) = filter p l.
Proof.
  apply filter_all_true. intros x Hx. apply filter_In in Hx. exact (proj2 Hx).
Qed.

Lemma nat_mem_In (k : nat) (l : list nat) : nat_mem k l = true <-> In k l.
Proof.
  unfold nat_mem. rewrite existsb_exists. split.
  - intros [x [Hx Heq]]. apply Nat.eqb_eq in Heq. subst x. exact Hx.
  - intro Hin. exists k. split; [exact Hin|apply Nat.eqb_refl].
Qed.

Lemma deleteEntities_store (names : list string) (w : World) :
  store (snd (deleteEntities names w)) = detach_delete names (store w).
Proof.
  unfold deleteEntities. destruct names as [|nm rest].
  - cbn [ret snd]. unfold detach_delete. cbn [JS.includes existsb negb].
    rewrite (filter_nil_of_all_false (fun _ : Node => false))
      by (intros; reflexivity).
    cbn [map nat_mem existsb orb negb].
    rewrite !filter_all_true; [symmetry; apply store_eta| |];
      intros x _; reflexivity.
  - rewrite bind_run. reflexivity.
Qed.

Lemma detach_delete_idempotent (names : list string) (s : Store) :
  detach_delete names (detach_delete names s) = detach_delete names s.
Proof.
  unfold detach_delete at 1. cbn [nodes edges next_nid detach_delete].
  rewrite filter_idempotent.
  assert (Hnone : filter (fun n => JS.includes names (n_name n))
                         (filter (fun n => negb (JS.includes names (n_name n)))
                                 (nodes s)) = []).
  { apply filter_nil_of_all_false. intros x Hx. apply filter_In in Hx.
    destruct Hx as [_ Hx]. destruct (JS.includes names (n_name x));
      [discriminate|reflexivity]. }
  rewrite Hnone. cbn [map nat_mem existsb orb negb].
  rewrite (filter_all_true (fun _ => true)); [reflexivity|].
  intros x _. reflexivity.
Qed.

(** X3.  [deleteEntities] is a hard delete.  Afterwards the stored rows are
    exactly the earlier rows whose name was not listed, so no version of a
    listed name is left: its history is empty and [getEntity] finds
    nothing.  The relationships left are exactly those that touched no
    deleted row.  Deleting the same names again changes nothing. *)
Theorem deleteEntities_removes_every_version (entityNames : list string) (w : World) :
  (forall n,
      In n (nodes (store (snd (deleteEntities entityNames w))))
      <-> In n (nodes (store w)) /\ ~ In (n_name n) entityNames)
  /\ (forall nm,
         In nm entityNames ->
         getEntityHistory (store (snd (deleteEntities entityNames w))) nm = []
         /\ getEntity (store (snd (deleteEntities entityNames w))) nm = None)
  /\ (forall e,
         In e (edges (store (snd (deleteEntities entityNames w))))
         <-> In e (edges (store w))
             /\ forall n, In n (nodes (store w)) -> In (n_name n) entityNames ->
                          e_src e <> nid n /\ e_dst e <> nid n)
  /\ store (snd (deleteEntities entityNames (snd (deleteEntities entityNames w))))
     = store (snd (deleteEntities entityNames w)).
Proof.
  rewrite !deleteEntities_store.
  assert (Hnodes : forall n,
             In n (nodes (detach_delete entityNames (store w)))
             <-> In n (nodes (store w)) /\ ~ In (n_name n) entityNames).
  { intro n. unfold detach_delete. cbn [nodes]. rewrite filter_In.
    rewrite negb_true_iff, <- not_true_iff_false, includes_In. reflexivity. }
  split; [exact Hnodes|]. split; [|split].
  - intros nm Hnm.
    assert (Hempty : forall p,
               filter (fun n => String.eqb (n_name n) nm && p n)
                      (nodes (detach_delete entityNames (store w))) = []).
    { intro p. apply filter_nil_of_all_false. intros n Hn.
      apply Hnodes in Hn. destruct Hn as [_ Hn].
      destruct (String.eqb_spec (n_name n) nm) as [Heq|_]; [|reflexivity].
      exfalso. apply Hn. rewrite Heq. exact Hnm. }
    split.
    + unfold getEntityHistory, nodes_named.
      rewrite (filter_ext _ (fun n => String.eqb (n_name n) nm && true)).
      * rewrite (Hempty (fun _ => true)). reflexivity.
      * intro n. rewrite andb_true_r. reflexivity.
    + unfold getEntity. rewrite current_named_unfold, (Hempty node_current).
      reflexivity.
  - intro e. unfold detach_delete. cbn [edges]. rewrite filter_In.
    rewrite negb_true_iff, orb_false_iff.
    split.
    + intros [He [Hsrc Hdst]]. split; [exact He|].
      intros n Hn Hname.
      assert (Hgone : In (nid n)
                         (map nid (filter (fun n => JS.includes entityNames (n_name n))
                                          (nodes (store w))))).
      { apply in_map, filter_In. split; [exact Hn|]. apply includes_In. exact Hname. }
      split; intro Heq; rewrite <- Heq in Hgone; apply nat_mem_In in Hgone; congruence.
    + intros [He Hfree]. split; [exact He|].
      split; apply not_true_iff_false; intro Hmem; apply nat_mem_In in Hmem;
        apply in_map_iff in Hmem; destruct Hmem as [n [Heq Hn]];
        apply filter_In in Hn; destruct Hn as [Hn Hinc];
        apply includes_In in Hinc; destruct (Hfree n Hn Hinc) as [Hs Hd];
        congruence.
  - apply detach_delete_idempotent.
Qed.

(** ** addObservations and deleteObservations: what one item writes *)

Lemma insert_ascending_length {A} (key : A -> Z) (x : A) (l : list A) :
  List.length (insert_ascending key x l) = S (List.length l).
Proof.
  induction l as [|y rest IH]; [reflexivity|].
  cbn [insert_ascending]. destruct (Z.leb (key x) (key y)); cbn [List.length];
    [reflexivity|]. rewrite IH. reflexivity.
Qed.

Lemma order_ascending_length {A} (key : A -> Z) (l : list A) :
  List.length (order_ascending key l) = List.length l.
Proof.
  induction l as [|x rest IH]; [reflexivity|].
  unfold order_ascending in *. cbn [fold_right].
  rewrite insert_ascending_length, IH. reflexivity.
Qed.

Lemma closing_keeps_names (hit : Node -> bool) (now : Z) (nm : string) (l : list Node) :
  List.length
    (filter (fun n => String.eqb (n_name n) nm)
            (map (fun n => if hit n then set_node_validTo now n else n) l))
  = List.length (filter (fun n => String.eqb (n_name n) nm) l).
Proof.
  induction l as [|x rest IH]; [reflexivity|].
  cbn [map filter].
  assert (Hname : n_name (if hit x then set_node_validTo now x else x) = n_name x)
    by (destruct (hit x); reflexivity).
  rewrite Hname. destruct (String.eqb (n_name x) nm); cbn [List.length];
    rewrite IH; reflexivity.
Qed.

Lemma closing_closes_hit (hit : Node -> bool) (now : Z) (l : list Node) (c : Node) :
  In c l -> hit c = true ->
  In (set_node_validTo now c)
     (map (fun n => if hit n then set_node_validTo now n else n) l).
Proof.
  intros Hin Hhit. apply in_map_iff. exists c. rewrite Hhit. split; [reflexivity|exact Hin].
Qed.

(** The run of an item that has something new to add. *)
Lemma addObservation_new_run (H : Host) (obs : ObservationInput) (w : World)
      (c : Node) (rest : list Node) :
  blank_item obs = false ->
  current_named (store w) (entityName obs) = c :: rest ->
  filter (fun content => negb (JS.includes (n_observations c) content))
         (contents obs) <> [] ->
  fst (addObservation H obs w)
  = [mkObservationResult
       (entityName obs)
       (filter (fun content => negb (JS.includes (n_observations c) content))
               (contents obs))]
  /\ nodes (store (snd (addObservation H obs w)))
     = map (fun n => if String.eqb (n_id n) (n_id c)
                     then set_node_validTo (clock H (ticks w)) n else n)
           (nodes (store w))
       ++ [mkNode (next_nid (store w)) (uuidv4 H (drawn w)) (n_name c)
                  (n_entityType c)
                  (n_observations c
                   ++ filter (fun content =>
                                negb (JS.includes (n_observations c) content))
                             (contents obs))
                  (n_version c + 1) (n_createdAt c)
                  (clock H (ticks w)) (clock H (ticks w)) None None None].
Proof.
  intros Hblank Hc Hnew. unfold addObservation. rewrite Hblank.
  rewrite bind_run. change (fst (get_store w)) with (store w).
  change (snd (get_store w)) with w. rewrite Hc.
  rewrite bind_run. rewrite bind_run.
  destruct (filter (fun content => negb (JS.includes (n_observations c) content))
                   (contents obs)) as [|o more] eqn:Hf; [contradiction|].
  rewrite !bind_run. cbn [ret fst snd]. split; [reflexivity|].
  rewrite iterM_nodes by apply recreate_incoming_nodes.
  rewrite iterM_nodes by apply recreate_outgoing_nodes.
  reflexivity.
Qed.

Lemma addObservations_singleton (H : Host) (obs : ObservationInput) (w : World) :
  fst (addObservations H [obs] w) = fst (addObservation H obs w)
  /\ store (snd (addObservations H [obs] w))
     = store (snd (addObservation H obs w)).
Proof.
  unfold addObservations. cbn [forM]. rewrite !bind_run. cbn [ret fst snd].
  rewrite app_nil_r. split; reflexivity.
Qed.

(** X4.  On a store with one current row [c] for the entity, an
    [addObservations] item that brings something new reports exactly the
    contents not yet observed, in the order given; the entity's current row
    afterwards holds the old observations followed by those, at the next
    version and with the creation time of [c]; [c] itself stays in the
    store, closed at the time of the call, and the history of the name is
    one row longer. *)
Theorem addObservations_appends_new_version
        (H : Host) (obs : ObservationInput) (w : World) (c : Node)
        (Hunique : unique_current (store w))
        (Hitem : blank_item obs = false)
        (Hcurrent : current_named (store w) (entityName obs) = [c])
        (Hnew : filter (fun content => negb (JS.includes (n_observations c) content))
                       (contents obs) <> []) :
  let added := filter (fun content => negb (JS.includes (n_observations c) content))
                      (contents obs) in
  let s' := store (snd (addObservations H [obs] w)) in
  fst (addObservations H [obs] w) = [mkObservationResult (entityName obs) added]
  /\ option_map (fun e => (observations e, version e, createdAt e, validTo e))
                (getEntity s' (entityName obs))
     = Some (n_observations c ++ added, n_version c + 1, n_createdAt c, None)
  /\ In (set_node_validTo (clock H (ticks w)) c) (nodes s')
  /\ List.length (getEntityHistory s' (entityName obs))
     = S (List.length (getEntityHistory (store w) (entityName obs))).
Proof.
  cbv zeta.
  destruct (addObservations_singleton H obs w) as [-> ->].
  destruct (addObservation_new_run H obs w c [] Hitem Hcurrent Hnew) as [Hres Hnodes].
  destruct (current_named_head_in _ _ _ _ Hcurrent) as [Hin [Hname _]].
  split; [exact Hres|]. split; [|split].
  - unfold getEntity. rewrite <- Hname in Hcurrent |- *.
    erewrite superseded_current_row;
      [|exact Hunique|exact Hcurrent| | |exact Hnodes]; [|reflexivity|reflexivity].
    reflexivity.
  - rewrite Hnodes. apply in_or_app. left.
    apply (closing_closes_hit (fun n => String.eqb (n_id n) (n_id c)));
      [exact Hin|apply String.eqb_refl].
  - unfold getEntityHistory, nodes_named. rewrite !length_map, !order_ascending_length.
    rewrite Hnodes, filter_app, length_app.
    rewrite (closing_keeps_names (fun n => String.eqb (n_id n) (n_id c))).
    cbn [filter n_name]. rewrite Hname, String.eqb_refl. cbn [List.length]. lia.
Qed.

Lemma addObservations_appends_new_version_witness :
  fst (addObservations (Example.host None)
         [mkObservationInput "a" ["tall"%string; "likes tea"%string; "kind"%string]]
         Example.populated)
  = [mkObservationResult "a" ["tall"%string; "kind"%string]]
  /\ option_map (fun e => (observations e, version e, createdAt e, validTo e))
       (getEntity
          (store (snd (addObservations (Example.host None)
                         [mkObservationInput "a"
                            ["tall"%string; "likes tea"%string; "kind"%string]]
                         Example.populated)))
          "a")
     = Some (["likes tea"%string; "tall"%string; "kind"%string], 2, 1000, None).
Proof.
  destruct (addObservations_appends_new_version
              (Example.host None)
              (mkObservationInput "a"
                 ["tall"%string; "likes tea"%string; "kind"%string])
              Example.populated
              (mkNode 0 "u" "a" "person" ["likes tea"%string] 1 1000 1000 1000
                      None None None)
              populated_unique eq_refl eq_refl)
    as [Hres [Hget _]].
  - vm_compute. discriminate.
  - split; [exact Hres|exact Hget].
Defined.

(** The run of a deletion whose entity has a current row. *)
Lemma deleteObservation_run (H : Host) (deletion : ObservationInput) (w : World)
      (c : Node) (rest : list Node) :
  blank_item deletion = false ->
  current_named (store w) (entityName deletion) = c :: rest ->
  nodes (store (snd (deleteObservation H deletion w)))
  = map (fun n => if String.eqb (n_id n) (n_id c)
                  then set_node_validTo (clock H (ticks w)) n else n)
        (nodes (store w))
    ++ [mkNode (next_nid (store w)) (uuidv4 H (drawn w)) (n_name c)
               (n_entityType c)
               (filter (fun o => negb (JS.includes (contents deletion) o))
                       (n_observations c))
               (n_version c + 1) (n_createdAt c)
               (clock H (ticks w)) (clock H (ticks w)) None None None].
Proof.
  intros Hblank Hc. unfold deleteObservation. rewrite Hblank.
  rewrite bind_run. change (fst (get_store w)) with (store w).
  change (snd (get_store w)) with w. rewrite Hc.
  rewrite !bind_run. reflexivity.
Qed.

Lemma deleteObservation_edges (H : Host) (deletion : ObservationInput) (w : World) :
  edges (store (snd (deleteObservation H deletion w))) = edges (store w).
Proof.
  unfold deleteObservation. destruct (blank_item deletion); [reflexivity|].
  rewrite bind_run. change (fst (get_store w)) with (store w).
  change (snd (get_store w)) with w.
  destruct (current_named (store w) (entityName deletion)); [reflexivity|].
  rewrite !bind_run. reflexivity.
Qed.

Lemma iterM_edges {A} (body : A -> M unit) (l : list A) :
  (forall x w, edges (store (snd (body x w))) = edges (store w)) ->
  forall w, edges (store (snd (iterM body l w))) = edges (store w).
Proof.
  intro Hbody. induction l as [|x rest IH]; intro w.
  - reflexivity.
  - cbn [iterM]. rewrite bind_run, IH. apply Hbody.
Qed.

(** X5.  [deleteObservations] never touches a relationship, whatever the
    batch: unlike [addObservations] it does not move the entity's
    relationships onto the new row.  And for a deletion naming an entity
    with one current row [c], the current row afterwards holds the
    observations of [c] that were not listed, at the next version (also when
    none of the listed observations was present) and with the creation time
    of [c], while [c] stays in the store, closed at the time of the call. *)
Theorem deleteObservations_supersedes_without_relinking
        (H : Host) (deletions : list ObservationInput) (w0 : World)
        (deletion : ObservationInput) (w : World) (c : Node)
        (Hunique : unique_current (store w))
        (Hitem : blank_item deletion = false)
        (Hcurrent : current_named (store w) (entityName deletion) = [c]) :
  edges (store (snd (deleteObservations H deletions w0))) = edges (store w0)
  /\ option_map (fun e => (observations e, version e, createdAt e, validTo e))
       (getEntity (store (snd (deleteObservations H [deletion] w)))
                  (entityName deletion))
     = Some (filter (fun o => negb (JS.includes (contents deletion) o))
                    (n_observations c),
             n_version c + 1, n_createdAt c, None)
  /\ In (set_node_validTo (clock H (ticks w)) c)
        (nodes (store (snd (deleteObservations H [deletion] w)))).
Proof.
  split.
  - unfold deleteObservations. rewrite iterM_eq_batch.
    apply iterM_edges. intros x w'. apply deleteObservation_edges.
  - assert (Hone : store (snd (deleteObservations H [deletion] w))
                   = store (snd (deleteObservation H deletion w))).
    { unfold deleteObservations. cbn [iterM]. rewrite bind_run. reflexivity. }
    rewrite Hone.
    pose proof (deleteObservation_run H deletion w c [] Hitem Hcurrent) as Hnodes.
    destruct (current_named_head_in _ _ _ _ Hcurrent) as [Hin [Hname _]].
    split.
    + unfold getEntity. rewrite <- Hname in Hcurrent |- *.
      erewrite superseded_current_row;
        [|exact Hunique|exact Hcurrent| | |exact Hnodes]; [|reflexivity|reflexivity].
      reflexivity.
    + rewrite Hnodes. apply in_or_app. left.
      apply (closing_closes_hit (fun n => String.eqb (n_id n) (n_id c)));
        [exact Hin|apply String.eqb_refl].
Qed.

Lemma deleteObservations_supersedes_without_relinking_witness :
  edges (store (snd (deleteObservations (Example.host None)
                       [mkObservationInput "a" ["likes tea"%string];
                        mkObservationInput "b" ["nothing"%string]]
                       Example.populated)))
  = edges (store Example.populated)
  /\ option_map (fun e => (observations e, version e, createdAt e, validTo e))
       (getEntity
          (store (snd (deleteObservations (Example.host None)
                         [mkObservationInput "b" ["nothing"%string]]
                         Example.populated)))
          "b")
     = Some ([], 2, 1001, None).
Proof.
  destruct (deleteObservations_supersedes_without_relinking
              (Example.host None)
              [mkObservationInput "a" ["likes tea"%string];
               mkObservationInput "b" ["nothing"%string]]
              Example.populated
              (mkObservationInput "b" ["nothing"%string])
              Example.populated
              (mkNode 1 "iu" "b" "city" [] 1 1001 1001 1001 None None None)
              populated_unique eq_refl eq_refl)
    as [Hedges [Hget _]].
  split; [exact Hedges|exact Hget].
Defined.

(** ** Relationships always have their two end nodes *)

Lemma lookup_node_iff (s : Store) (k : nat) :
  lookup_node s k <> None <-> In k (map nid (nodes s)).
Proof.
  split.
  - unfold lookup_node. destruct (find _ (nodes s)) as [n|] eqn:Hf; [|congruence].
    intros _. apply find_some in Hf. destruct Hf as [Hin Heq].
    apply Nat.eqb_eq in Heq. subst k. apply in_map. exact Hin.
  - intro Hin. apply in_map_iff in Hin. destruct Hin as [n [<- Hn]].
    apply lookup_node_in. exact Hn.
Qed.

(** A step that keeps every node identity, and whose relationships either
    have the end nodes of an earlier relationship or are attached to stored
    nodes, keeps the store free of dangling relationships. *)
Lemma no_dangling_step (s s' : Store) :
  no_dangling s ->
  (forall k, In k (map nid (nodes s)) -> In k (map nid (nodes s'))) ->
  (forall e, In e (edges s') ->
             (exists e0, In e0 (edges s) /\ e_src e0 = e_src e /\ e_dst e0 = e_dst e)
             \/ (In (e_src e) (map nid (nodes s'))
                 /\ In (e_dst e) (map nid (nodes s')))) ->
  no_dangling s'.
Proof.
  intros Hwf Hnids Hedges e He. rewrite !lookup_node_iff.
  destruct (Hedges e He) as [[e0 [He0 [Hs Hd]]]|Hatt]; [|exact Hatt].
  destruct (Hwf e0 He0) as [Hsrc Hdst]. rewrite lookup_node_iff in Hsrc, Hdst.
  rewrite <- Hs, <- Hd. split; apply Hnids; assumption.
Qed.

Lemma map_nid_closing (hit : Node -> bool) (now : Z) (l : list Node) :
  map nid (map (fun n => if hit n then set_node_validTo now n else n) l)
  = map nid l.
Proof.
  rewrite map_map. apply map_ext. intro n. destruct (hit n); reflexivity.
Qed.

Lemma no_dangling_invalidate_entity_and_rels (i : string) (now : Z) (s : Store) :
  no_dangling s -> no_dangling (invalidate_entity_and_rels i now s).
Proof.
  intro Hwf. apply (no_dangling_step s); [exact Hwf| |].
  - intros k Hk. unfold invalidate_entity_and_rels. cbn [nodes].
    rewrite map_nid_closing. exact Hk.
  - intros e He. left. unfold invalidate_entity_and_rels in He. cbn [edges] in He.
    apply in_map_iff in He. destruct He as [e0 [Heq He0]].
    exists e0. split; [exact He0|]. subst e.
    destruct (_ && _); split; reflexivity.
Qed.

Lemma no_dangling_invalidate_entity (i : string) (now : Z) (s : Store) :
  no_dangling s -> no_dangling (invalidate_entity i now s).
Proof.
  intro Hwf. apply (no_dangling_step s); [exact Hwf| |].
  - intros k Hk. unfold invalidate_entity. cbn [nodes].
    rewrite (map_nid_closing (fun n => String.eqb (n_id n) i)). exact Hk.
  - intros e He. left. exists e. split; [exact He|]. split; reflexivity.
Qed.

Lemma no_dangling_create_node (mk : nat -> Node) (s : Store) :
  no_dangling s -> no_dangling (snd (create_node mk s)).
Proof.
  intro Hwf. apply (no_dangling_step s); [exact Hwf| |].
  - intros k Hk. unfold create_node. cbn [snd nodes].
    rewrite map_app. apply in_or_app. left. exact Hk.
  - intros e He. left. exists e. split; [exact He|]. split; reflexivity.
Qed.

Lemma no_dangling_invalidate_relation (s : Store) (f t i : string) (now : Z) :
  no_dangling s -> no_dangling (invalidate_relation s f t i now).
Proof.
  intro Hwf. apply (no_dangling_step s); [exact Hwf| |].
  - intros k Hk. exact Hk.
  - intros e He. left. unfold invalidate_relation in He. cbn [edges] in He.
    apply in_map_iff in He. destruct He as [e0 [Heq He0]].
    exists e0. split; [exact He0|]. subst e.
    destruct (lookup_node s (e_src e0)); [|split; reflexivity].
    destruct (lookup_node s (e_dst e0)); [|split; reflexivity].
    destruct (_ && _); split; reflexivity.
Qed.

Lemma no_dangling_detach_delete (names : list string) (s : Store) :
  no_dangling s -> no_dangling (detach_delete names s).
Proof.
  intros Hwf e He. unfold detach_delete in He. cbn [edges] in He.
  apply filter_In in He. destruct He as [He Hkeep].
  apply negb_true_iff, orb_false_iff in Hkeep. destruct Hkeep as [Hsrc Hdst].
  destruct (Hwf e He) as [Hs Hd].
  assert (Hkept : forall k,
             lookup_node s k <> None ->
             nat_mem k (map nid (filter (fun n => JS.includes names (n_name n))
                                        (nodes s))) = false ->
             lookup_node (detach_delete names s) k <> None).
  { intros k Hk Hfree. apply lookup_node_iff. apply lookup_node_iff in Hk.
    apply in_map_iff in Hk. destruct Hk as [n [Hn Hin]].
    apply in_map_iff. exists n. split; [exact Hn|].
    unfold detach_delete. cbn [nodes]. apply filter_In. split; [exact Hin|].
    apply negb_true_iff, not_true_iff_false. intro Hgone.
    apply not_true_iff_false in Hfree. apply Hfree. apply nat_mem_In.
    rewrite <- Hn. apply in_map, filter_In. split; assumption. }
  split; apply Hkept; assumption.
Qed.

Lemma recreate_outgoing_store (H : Host) (i : string) (now : Z)
      (rel : RelProps * Node) (w : World) :
  exists pairs p,
    store (snd (recreate_outgoing H i now rel w)) = create_edges pairs p (store w)
    /\ forall a b, In (a, b) pairs ->
                   In a (nodes (store w)) /\ In b (nodes (store w)).
Proof.
  unfold recreate_outgoing, carried_props, bind, uuid, get_store, put_store,
    Date_now, ret.
  destruct (Z.eqb (r_createdAt (fst rel)) 0); cbn [fst snd store];
    eexists; eexists; (split; [reflexivity|]);
    intros a b Hab; apply in_prod_iff in Hab; unfold nodes_with_id in Hab;
    rewrite !filter_In in Hab; tauto.
Qed.

Lemma recreate_incoming_store (H : Host) (i : string) (now : Z)
      (rel : RelProps * Node) (w : World) :
  exists pairs p,
    store (snd (recreate_incoming H i now rel w)) = create_edges pairs p (store w)
    /\ forall a b, In (a, b) pairs ->
                   In a (nodes (store w)) /\ In b (nodes (store w)).
Proof.
  unfold recreate_incoming, carried_props, bind, uuid, get_store, put_store,
    Date_now, ret.
  destruct (Z.eqb (r_createdAt (fst rel)) 0); cbn [fst snd store];
    eexists; eexists; (split; [reflexivity|]);
    intros a b Hab; apply in_prod_iff in Hab; unfold nodes_with_id in Hab;
    rewrite !filter_In in Hab; tauto.
Qed.

Lemma recreate_outgoing_no_dangling (H : Host) (i : string) (now : Z)
      (rel : RelProps * Node) (w : World) :
  no_dangling (store w) ->
  no_dangling (store (snd (recreate_outgoing H i now rel w))).
Proof.
  intro Hwf. destruct (recreate_outgoing_store H i now rel w) as [pairs [p [-> Hp]]].
  apply no_dangling_create_edges; assumption.
Qed.

Lemma recreate_incoming_no_dangling (H : Host) (i : string) (now : Z)
      (rel : RelProps * Node) (w : World) :
  no_dangling (store w) ->
  no_dangling (store (snd (recreate_incoming H i now rel w))).
Proof.
  intro Hwf. destruct (recreate_incoming_store H i now rel w) as [pairs [p [-> Hp]]].
  apply no_dangling_create_edges; assumption.
Qed.

Lemma addObservation_no_dangling (H : Host) (obs : ObservationInput) (w : World) :
  no_dangling (store w) -> no_dangling (store (snd (addObservation H obs w))).
Proof.
  intro Hwf. unfold addObservation. destruct (blank_item obs); [exact Hwf|].
  rewrite bind_run. change (fst (get_store w)) with (store w).
  change (snd (get_store w)) with w.
  destruct (current_named (store w) (entityName obs)) as [|c rest]; [exact Hwf|].
  rewrite bind_run. rewrite bind_run.
  destruct (filter _ (contents obs)) as [|o more]; [exact Hwf|].
  rewrite !bind_run. cbn [ret snd].
  apply (iterM_store_invariant no_dangling).
  { intros x w'. apply recreate_incoming_no_dangling. }
  apply (iterM_store_invariant no_dangling).
  { intros x w'. apply recreate_outgoing_no_dangling. }
  cbn [put_store get_store fst snd store].
  apply no_dangling_create_node, no_dangling_invalidate_entity_and_rels. exact Hwf.
Qed.

Lemma deleteObservation_no_dangling (H : Host) (d : ObservationInput) (w : World) :
  no_dangling (store w) -> no_dangling (store (snd (deleteObservation H d w))).
Proof.
  intro Hwf. unfold deleteObservation. destruct (blank_item d); [exact Hwf|].
  rewrite bind_run. change (fst (get_store w)) with (store w).
  change (snd (get_store w)) with w.
  destruct (current_named (store w) (entityName d)) as [|c rest]; [exact Hwf|].
  rewrite !bind_run. cbn [put_store get_store fst snd store].
  apply no_dangling_create_node, no_dangling_invalidate_entity. exact Hwf.
Qed.

Lemma updateRelation_no_dangling (H : Host) (r : RelationInput) (w : World) :
  no_dangling (store w) -> no_dangling (store (snd (updateRelation H r w))).
Proof.
  intro Hwf. unfold updateRelation. rewrite bind_run.
  change (fst (get_store w)) with (store w). change (snd (get_store w)) with w.
  destruct (filter _ (edges (store w))) as [|current more].
  - rewrite bind_run. cbn [put_store ret snd store]. exact Hwf.
  - rewrite !bind_run.
    destruct (undefined_parameters _ _ _) as [|missing more'].
    + rewrite !bind_run. cbn [put_store get_store ret fst snd store].
      apply no_dangling_create_edges.
      * apply no_dangling_invalidate_relation. exact Hwf.
      * intros a b. apply endpoint_pairs_in.
    + rewrite !bind_run. cbn [put_store ret snd store]. exact Hwf.
Qed.

Lemma deleteRelation_no_dangling (r : RelationInput) (w : World) :
  no_dangling (store w) -> no_dangling (store (snd (deleteRelation r w))).
Proof.
  intro Hwf. apply (no_dangling_step (store w)); [exact Hwf| |].
  - intros k Hk. exact Hk.
  - intros e He. left. exists e. split; [|split; reflexivity].
    unfold deleteRelation in He. rewrite bind_run in He.
    cbn [put_store get_store fst snd store edges] in He.
    apply filter_In in He. exact (proj1 He).
Qed.

Lemma createEntities_no_dangling (H : Host) (l : list EntityInput) (w : World) :
  no_dangling (store w) -> no_dangling (store (snd (createEntities H l w))).
Proof.
  intro Hwf. unfold createEntities. rewrite forM_eq_batch.
  destruct (forM_createEntity_run H l w) as [created [Hnodes [Hedges _]]].
  apply (no_dangling_step (store w)); [exact Hwf| |].
  - intros k Hk. rewrite Hnodes, map_app. apply in_or_app. left. exact Hk.
  - intros e He. left. exists e. rewrite Hedges in He.
    split; [exact He|split; reflexivity].
Qed.

Lemma perform_no_dangling (H : Host) (op : Operation) (w : World) :
  no_dangling (store w) -> no_dangling (store (perform H op w)).
Proof.
  intro Hwf. destruct op as [l|l|l|l|r|l|l]; cbn [perform].
  - apply createEntities_no_dangling. exact Hwf.
  - unfold createRelations. rewrite forM_eq_batch.
    apply forM_createRelation_no_dangling. exact Hwf.
  - unfold addObservations. rewrite forM_eq_batch.
    apply (forM_store_invariant no_dangling); [|exact Hwf].
    intros x w'. apply addObservation_no_dangling.
  - unfold deleteObservations. rewrite iterM_eq_batch.
    apply (iterM_store_invariant no_dangling); [|exact Hwf].
    intros x w'. apply deleteObservation_no_dangling.
  - apply updateRelation_no_dangling. exact Hwf.
  - rewrite deleteEntities_store. apply no_dangling_detach_delete. exact Hwf.
  - unfold deleteRelations. rewrite iterM_eq_batch.
    apply (iterM_store_invariant no_dangling); [|exact Hwf].
    intros x w'. apply deleteRelation_no_dangling.
Qed.

(** X6.  No write operation ever leaves a relationship without one of its
    end nodes: starting from a store whose relationships all have both end
    nodes, any sequence of [createEntities], [createRelations],
    [addObservations], [deleteObservations], [updateRelation],
    [deleteEntities] and [deleteRelations] ends in such a store. *)
Theorem no_dangling_preserved
        (H : Host) (ops : list Operation) (w : World)
        (Hinit : no_dangling (store w)) :
  no_dangling (store (perform_all H ops w)).
Proof.
  revert w Hinit. induction ops as [|op rest IH]; intros w Hinit.
  - exact Hinit.
  - cbn [perform_all]. apply IH. apply perform_no_dangling. exact Hinit.
Qed.

Lemma no_dangling_preserved_witness :
  no_dangling
    (store
       (perform_all (Example.host None)
          [CreateEntities [Example.entity "a" "person" []; Example.entity "b" "city" []];
           CreateRelations [Example.relation "a" "b" "lives_in";
                            Example.relation "b" "b" "borders"];
           AddObservations [mkObservationInput "b" ["old"%string]];
           UpdateRelation (Example.relation "a" "b" "lives_in");
           DeleteObservations [mkObservationInput "a" ["x"%string]];
           DeleteRelations [Example.relation "b" "b" "borders"];
           DeleteEntities ["a"%string]]
          Example.start)).
Proof.
  apply (no_dangling_preserved (Example.host None)).
  intros e He. destruct He.
Defined.

(** ** updateRelation, then getRelation *)

Lemma lookup_node_unique (s : Store) (n : Node) :
  NoDup (map nid (nodes s)) -> In n (nodes s) -> lookup_node s (nid n) = Some n.
Proof.
  unfold lookup_node. induction (nodes s) as [|x rest IH]; intros Hnodup Hin.
  - destruct Hin.
  - cbn [map] in Hnodup. inversion Hnodup as [|k ks Hnotin Hnodup' Heq]; subst.
    cbn [find]. destruct (Nat.eqb_spec (nid x) (nid n)) as [Heq|Hneq].
    + destruct Hin as [->|Hin]; [reflexivity|].
      exfalso. apply Hnotin. rewrite Heq. apply in_map. exact Hin.
    + destruct Hin as [->|Hin]; [contradiction|]. apply IH; assumption.
Qed.

Lemma match_edges_app (ns : list Node) (e1 e2 : list Edge) (k : nat) :
  match_edges (mkStore ns (e1 ++ e2) k)
  = match_edges (mkStore ns e1 k) ++ match_edges (mkStore ns e2 k).
Proof. unfold match_edges. cbn [edges]. apply flat_map_app. Qed.

Lemma match_edges_row (s : Store) (a b : Node) (e : Edge) :
  In (a, e, b) (match_edges s) ->
  In e (edges s) /\ lookup_node s (e_src e) = Some a
  /\ lookup_node s (e_dst e) = Some b.
Proof.
  unfold match_edges. rewrite in_flat_map. intros [e0 [He0 Hrow]].
  destruct (lookup_node s (e_src e0)) as [a0|] eqn:Ha; [|destruct Hrow].
  destruct (lookup_node s (e_dst e0)) as [b0|] eqn:Hb; [|destruct Hrow].
  destruct Hrow as [Heq|[]]. injection Heq as <- <- <-.
  repeat split; assumption.
Qed.

(** The rows of the relationships just created between matched pairs. *)
Lemma match_edges_created (ns : list Node) (k : nat) (p : RelProps)
      (pairs : list (Node * Node)) :
  NoDup (map nid ns) ->
  (forall a b, In (a, b) pairs -> In a ns /\ In b ns) ->
  match_edges (mkStore ns (map (fun ft => mkEdge (nid (fst ft)) (nid (snd ft)) p) pairs) k)
  = map (fun ft => (fst ft, mkEdge (nid (fst ft)) (nid (snd ft)) p, snd ft)) pairs.
Proof.
  intros Hnodup Hin. unfold match_edges. cbn [edges].
  induction pairs as [|[a b] rest IH]; [reflexivity|].
  cbn [map flat_map fst snd e_src e_dst].
  destruct (Hin a b (or_introl eq_refl)) as [Ha Hb].
  rewrite (lookup_node_unique (mkStore ns _ k) a Hnodup Ha).
  rewrite (lookup_node_unique (mkStore ns _ k) b Hnodup Hb).
  cbn [app]. f_equal. apply IH. intros a' b' Hab. apply Hin. right. exact Hab.
Qed.

Lemma updateRelation_run (H : Host) (relation : RelationInput) (w : World)
      (current : Edge) (more : list Edge) :
  filter (fun e =>
            edge_matches (store w) (ri_from relation) (ri_to relation)
                         (ri_relationType relation) e
            && edge_current e)
         (edges (store w)) = current :: more ->
  undefined_parameters
    (carried_forward (ri_strength relation) (r_strength (e_props current)))
    (carried_forward (ri_confidence relation) (r_confidence (e_props current)))
    (carried_forward (ri_metadata relation) (r_metadata (e_props current))) = [] ->
  fst (updateRelation H relation w) = Ok tt
  /\ store (snd (updateRelation H relation w))
     = create_edges
         (endpoint_pairs (store w) (ri_from relation) (ri_to relation))
         (mkRelProps (uuidv4 H (drawn w)) (ri_relationType relation)
                     (carried_forward (ri_strength relation)
                                      (r_strength (e_props current)))
                     (carried_forward (ri_confidence relation)
                                      (r_confidence (e_props current)))
                     (carried_forward (ri_metadata relation)
                                      (r_metadata (e_props current)))
                     (r_version (e_props current) + 1)
                     (r_createdAt (e_props current))
                     (clock H (ticks w)) (clock H (ticks w)) None
                     (JS.str_or_null (ri_changedBy relation)))
         (invalidate_relation (store w) (ri_from relation) (ri_to relation)
                              (r_id (e_props current)) (clock H (ticks w))).
Proof.
  intros Hget Hdefined. unfold updateRelation. rewrite bind_run.
  change (fst (get_store w)) with (store w). change (snd (get_store w)) with w.
  rewrite Hget. rewrite !bind_run. rewrite Hdefined. rewrite !bind_run.
  split; reflexivity.
Qed.

(** A field left out by the request and absent from the current version
    makes the update fail, and the store is as it was. *)
Lemma updateRelation_undefined (H : Host) (relation : RelationInput) (w : World)
      (current : Edge) (more : list Edge) (name : string) (names : list string) :
  filter (fun e =>
            edge_matches (store w) (ri_from relation) (ri_to relation)
                         (ri_relationType relation) e
            && edge_current e)
         (edges (store w)) = current :: more ->
  undefined_parameters
    (carried_forward (ri_strength relation) (r_strength (e_props current)))
    (carried_forward (ri_confidence relation) (r_confidence (e_props current)))
    (carried_forward (ri_metadata relation) (r_metadata (e_props current)))
  = name :: names ->
  fst (updateRelation H relation w) = Throw (missing_parameters (name :: names))
  /\ store (snd (updateRelation H relation w)) = store w.
Proof.
  intros Hget Hmissing. unfold updateRelation. rewrite bind_run.
  change (fst (get_store w)) with (store w). change (snd (get_store w)) with w.
  rewrite Hget. rewrite !bind_run. rewrite Hmissing. rewrite !bind_run.
  split; reflexivity.
Qed.

Lemma find_in_nodes (s : Store) (k : nat) (n : Node) :
  lookup_node s k = Some n -> In n (nodes s).
Proof. unfold lookup_node. intro Hf. apply find_some in Hf. exact (proj1 Hf). Qed.

Lemma edge_matches_spec (s : Store) (f t ty : string) (e : Edge) :
  edge_matches s f t ty e = true ->
  exists a b,
    lookup_node s (e_src e) = Some a /\ lookup_node s (e_dst e) = Some b
    /\ n_name a = f /\ n_name b = t /\ r_relationType (e_props e) = ty.
Proof.
  unfold edge_matches.
  destruct (lookup_node s (e_src e)) as [a|]; [|discriminate].
  destruct (lookup_node s (e_dst e)) as [b|]; [|discriminate].
  rewrite !andb_true_iff, !String.eqb_eq. intros [[Ha Hb] Hty].
  exists a, b. repeat split; assumption.
Qed.

Lemma filter_all_true_map {A B} (g : A -> B) (q c : B -> bool) (l : list A) :
  (forall x, In x l -> q (g x) = true /\ c (g x) = true) ->
  filter c (filter q (map g l)) = map g l.
Proof.
  intro Hall. rewrite !filter_all_true; [reflexivity| |].
  - intros y Hy. apply in_map_iff in Hy. destruct Hy as [x [<- Hx]].
    exact (proj1 (Hall x Hx)).
  - intros y Hy. rewrite filter_all_true in Hy.
    + apply in_map_iff in Hy. destruct Hy as [x [<- Hx]]. exact (proj2 (Hall x Hx)).
    + intros z Hz. apply in_map_iff in Hz. destruct Hz as [x [<- Hx]].
      exact (proj1 (Hall x Hx)).
Qed.

(** After the update, the current rows of the relation are the rows just
    created, one per pair of end nodes. *)
Lemma updateRelation_current_rows
      (s : Store) (f t ty i : string) (now : Z) (p : RelProps) (current : Edge) :
  NoDup (map nid (nodes s)) ->
  filter (fun e => edge_matches s f t ty e && edge_current e) (edges s) = [current] ->
  i = r_id (e_props current) ->
  r_relationType p = ty ->
  r_validTo p = None ->
  filter (fun row => edge_current (snd (fst row)))
         (relation_rows
            (create_edges (endpoint_pairs s f t) p (invalidate_relation s f t i now))
            f t ty)
  = map (fun ft => (fst ft, mkEdge (nid (fst ft)) (nid (snd ft)) p, snd ft))
        (endpoint_pairs s f t).
Proof.
  intros Hnodup Hone Hi Hty Hcur.
  unfold relation_rows, create_edges, invalidate_relation.
  cbn [nodes edges next_nid]. rewrite match_edges_app, !filter_app.
  rewrite (match_edges_created (nodes s) (next_nid s) p (endpoint_pairs s f t) Hnodup)
    by (intros a b; apply endpoint_pairs_in).
  match goal with
  | |- ?old ++ ?new = _ => assert (Hold : old = []); [|rewrite Hold; cbn [app]]
  end.
  - apply filter_nil_of_all_false. intros [[a e'] b] Hrow.
    apply filter_In in Hrow. destruct Hrow as [Hrow Hq].
    apply match_edges_row in Hrow. cbn [edges] in Hrow.
    destruct Hrow as [He' [Ha Hb]].
    apply in_map_iff in He'. destruct He' as [e [Heq He]].
    change (lookup_node (mkStore (nodes s) _ (next_nid s)) (e_src e'))
      with (lookup_node s (e_src e')) in Ha.
    change (lookup_node (mkStore (nodes s) _ (next_nid s)) (e_dst e'))
      with (lookup_node s (e_dst e')) in Hb.
    assert (Hends : e_src e' = e_src e /\ e_dst e' = e_dst e).
    { rewrite <- Heq. destruct (lookup_node s (e_src e)); [|split; reflexivity].
      destruct (lookup_node s (e_dst e)); [|split; reflexivity].
      destruct (_ && _); split; reflexivity. }
    destruct Hends as [Hs Hd]. rewrite Hs in Ha. rewrite Hd in Hb.
    rewrite Ha, Hb in Heq.
    rewrite !andb_true_iff, !String.eqb_eq in Hq. destruct Hq as [[Hfa Htb] Htype].
    rewrite Hfa, Htb, !String.eqb_refl in Heq. cbn [andb] in Heq.
    cbn [fst snd].
    destruct (String.eqb_spec (r_id (e_props e)) i) as [Hid|Hid].
    + subst e'. reflexivity.
    + subst e'. apply not_true_iff_false. intro Hlive.
      assert (Hin : In e (filter (fun e => edge_matches s f t ty e && edge_current e)
                                 (edges s))).
      { apply filter_In. split; [exact He|]. rewrite Hlive, andb_true_r.
        unfold edge_matches. rewrite Ha, Hb, Hfa, Htb, Htype, !String.eqb_refl.
        reflexivity. }
      rewrite Hone in Hin. destruct Hin as [<-|[]]. apply Hid. symmetry. exact Hi.
  - apply filter_all_true_map.
    intros [a b] Hab. cbn [fst snd e_props].
    destruct (endpoint_pairs_names s f t a b Hab) as [Ha Hb].
    split.
    + rewrite Ha, Hb, Hty, !String.eqb_refl. reflexivity.
    + unfold edge_current. cbn [e_props]. rewrite Hcur. reflexivity.
Qed.

(** X7. updateRelation followed by getRelation.  In a store whose node
    identities are distinct and which holds exactly one current version of
    the relation, the outcome turns on the strength, confidence and metadata
    of the new version, each taken from the request or, when the request
    leaves it out, from the current version.  When all three are defined,
    updateRelation succeeds, closes the current version at the current
    time, leaves the nodes alone, and getRelation then returns the relation
    with that strength and confidence.  When one of them is undefined, the
    call throws and the store is left as it was. *)
Theorem updateRelation_then_getRelation
        (H : Host) (relation : RelationInput) (w : World) (current : Edge) :
  NoDup (map nid (nodes (store w))) ->
  filter (fun e =>
            edge_matches (store w) (ri_from relation) (ri_to relation)
                         (ri_relationType relation) e
            && edge_current e)
         (edges (store w)) = [current] ->
  let strength :=
    carried_forward (ri_strength relation) (r_strength (e_props current)) in
  let confidence :=
    carried_forward (ri_confidence relation) (r_confidence (e_props current)) in
  let metadata :=
    carried_forward (ri_metadata relation) (r_metadata (e_props current)) in
  ((strength <> None /\ confidence <> None /\ metadata <> None) ->
   fst (updateRelation H relation w) = Ok tt
   /\ option_map relation_core
        (fst (getRelation H (ri_from relation) (ri_to relation)
                          (ri_relationType relation)
                          (snd (updateRelation H relation w))))
      = Some (ri_from relation, ri_to relation, ri_relationType relation,
              strength, confidence)
   /\ In (set_edge_validTo (clock H (ticks w)) current)
         (edges (store (snd (updateRelation H relation w))))
   /\ nodes (store (snd (updateRelation H relation w))) = nodes (store w))
  /\ ((strength = None \/ confidence = None \/ metadata = None) ->
      (exists message, fst (updateRelation H relation w) = Throw message)
      /\ store (snd (updateRelation H relation w)) = store w).
Proof.
  intros Hnodup Hone strength confidence metadata. split.
  - intros [Hs [Hc Hm]].
    assert (Hdefined : undefined_parameters strength confidence metadata = []).
    { destruct strength; [|contradiction]. destruct confidence; [|contradiction].
      destruct metadata; [|contradiction]. reflexivity. }
    destruct (updateRelation_run H relation w current [] Hone Hdefined)
      as [Hok Hstore].
    assert (Hcur : In current
                      (filter (fun e =>
                                 edge_matches (store w) (ri_from relation)
                                              (ri_to relation)
                                              (ri_relationType relation) e
                                 && edge_current e)
                              (edges (store w)))).
    { rewrite Hone. left. reflexivity. }
    apply filter_In in Hcur. destruct Hcur as [Hin Hmatch].
    apply andb_true_iff in Hmatch. destruct Hmatch as [Hmatch _].
    destruct (edge_matches_spec _ _ _ _ _ Hmatch) as [a [b [Ha [Hb [Hfa [Htb _]]]]]].
    split; [exact Hok|]. split; [|split].
    + unfold getRelation. rewrite bind_run.
      match goal with
      | |- context [fst (get_store ?w1)] =>
          change (fst (get_store w1)) with (store w1);
          change (snd (get_store w1)) with w1
      end.
      rewrite Hstore.
      rewrite (updateRelation_current_rows (store w) _ _ _ _ _ _ current Hnodup Hone)
        by reflexivity.
      assert (Hpairs : endpoint_pairs (store w) (ri_from relation) (ri_to relation)
                       <> []).
      { apply endpoint_pairs_stored.
        - intro Hnil.
          assert (Hina : In a (nodes_named (store w) (ri_from relation))).
          { apply filter_In. split; [exact (find_in_nodes _ _ _ Ha)|].
            apply String.eqb_eq. exact Hfa. }
          rewrite Hnil in Hina. exact Hina.
        - intro Hnil.
          assert (Hinb : In b (nodes_named (store w) (ri_to relation))).
          { apply filter_In. split; [exact (find_in_nodes _ _ _ Hb)|].
            apply String.eqb_eq. exact Htb. }
          rewrite Hnil in Hinb. exact Hinb. }
      destruct (endpoint_pairs (store w) (ri_from relation) (ri_to relation))
        as [|[a0 b0] rest] eqn:Heq; [contradiction|].
      assert (Hnames : n_name a0 = ri_from relation /\ n_name b0 = ri_to relation).
      { apply (endpoint_pairs_names (store w)). rewrite Heq. left. reflexivity. }
      destruct Hnames as [Hna Hnb].
      cbn [map fst snd]. rewrite bind_run. cbn [ret fst option_map].
      rewrite relation_of_row_core. cbn [row_core e_props r_relationType r_strength
                                         r_confidence].
      rewrite Hna, Hnb. reflexivity.
    + rewrite Hstore. unfold create_edges, invalidate_relation. cbn [edges].
      apply in_or_app. left. apply in_map_iff. exists current. split; [|exact Hin].
      rewrite Ha, Hb, Hfa, Htb, !String.eqb_refl. reflexivity.
    + rewrite Hstore. reflexivity.
  - intro Hsome.
    destruct (undefined_parameters strength confidence metadata)
      as [|name names] eqn:Hmissing.
    + exfalso. unfold undefined_parameters in Hmissing.
      destruct strength; [|discriminate]. destruct confidence; [|discriminate].
      destruct metadata; [|discriminate].
      destruct Hsome as [Hs|[Hc|Hm]]; discriminate.
    + destruct (updateRelation_undefined H relation w current [] name names
                  Hone Hmissing) as [Hthrow Hstore].
      split; [|exact Hstore]. eexists. exact Hthrow.
Qed.

Lemma updateRelation_then_getRelation_witness :
  NoDup (map nid (nodes (store Example.populated)))
  /\ fst (updateRelation (Example.host None)
            (mkRelationInput "a" "b" "lives_in" (Some (1 # 2)) (Some (3 # 4))
                             (Some [("since"%string, MNum 2020)]) None None
                             None None)
            Example.populated) = Ok tt
  /\ option_map relation_core
       (fst (getRelation (Example.host None) "a" "b" "lives_in"
               (snd (updateRelation (Example.host None)
                       (mkRelationInput "a" "b" "lives_in" (Some (1 # 2))
                                        (Some (3 # 4))
                                        (Some [("since"%string, MNum 2020)])
                                        None None None None)
                       Example.populated))))
     = Some ("a"%string, "b"%string, "lives_in"%string, Some (1 # 2), Some (3 # 4))
  /\ (exists message,
        fst (updateRelation (Example.host None)
               (mkRelationInput "a" "b" "lives_in" (Some (1 # 2)) None None None
                                None None None)
               Example.populated) = Throw message).
Proof.
  assert (Hnodup : NoDup (map nid (nodes (store Example.populated)))).
  { vm_compute. repeat constructor; cbn; intuition discriminate. }
  split; [exact Hnodup|].
  destruct (proj1 (updateRelation_then_getRelation (Example.host None)
                     (mkRelationInput "a" "b" "lives_in" (Some (1 # 2)) (Some (3 # 4))
                                      (Some [("since"%string, MNum 2020)]) None None
                                      None None)
                     Example.populated
                     (hd (mkEdge 0 0 (mkRelProps "" "" None None None 0 0 0 0 None None))
                         (edges (store Example.populated)))
                     Hnodup eq_refl))
    as [Hok [Hget _]].
  { repeat split; discriminate. }
  split; [exact Hok|]. split; [exact Hget|].
  destruct (proj2 (updateRelation_then_getRelation (Example.host None)
                     (mkRelationInput "a" "b" "lives_in" (Some (1 # 2)) None None None
                                      None None None)
                     Example.populated
                     (hd (mkEdge 0 0 (mkRelProps "" "" None None None 0 0 0 0 None None))
                         (edges (store Example.populated)))
                     Hnodup eq_refl))
    as [Hthrow _].
  { right. left. reflexivity. }
  exact Hthrow.
Defined.

(** ** Embeddings stored on entity rows *)

Lemma filter_map_commute {A} (p : A -> bool) (g : A -> A) (l : list A) :
  (forall x, p (g x) = p x) -> filter p (map g l) = map g (filter p l).
Proof.
  intro Hp. induction l as [|x l IH]; [reflexivity|].
  cbn [map filter]. rewrite Hp. destruct (p x); cbn [map]; rewrite IH; reflexivity.
Qed.

Lemma updateEntityEmbedding_run (H : Host) (entityName : string)
      (embedding : EntityEmbedding) (w : World) (c : Node) (rest : list Node) :
  current_named (store w) entityName = c :: rest ->
  fst (updateEntityEmbedding H entityName embedding w) = Ok tt
  /\ store (snd (updateEntityEmbedding H entityName embedding w))
     = mkStore
         (map (fun e =>
                 if String.eqb (n_name e) entityName && node_current e
                 then set_node_embedding (vector embedding) (clock H (ticks w)) e
                 else e)
              (nodes (store w)))
         (edges (store w)) (next_nid (store w)).
Proof.
  intro Hc. unfold updateEntityEmbedding. rewrite bind_run.
  change (fst (get_store w)) with (store w). change (snd (get_store w)) with w.
  unfold getEntity. rewrite Hc. rewrite !bind_run. split; reflexivity.
Qed.

Lemma current_named_after_embedding (s : Store) (entityName : string)
      (v : list Q) (now : Z) :
  current_named
    (mkStore
       (map (fun e =>
               if String.eqb (n_name e) entityName && node_current e
               then set_node_embedding v now e
               else e)
            (nodes s))
       (edges s) (next_nid s))
    entityName
  = map (set_node_embedding v now) (current_named s entityName).
Proof.
  unfold current_named. cbn [nodes].
  rewrite filter_map_commute.
  - apply map_ext_in. intros e He. apply filter_In in He.
    destruct He as [_ He]. rewrite He. reflexivity.
  - intro e. destruct (String.eqb (n_name e) entityName && node_current e) eqn:He;
      [|exact He].
    exact He.
Qed.

(** X8. An embedding written by updateEntityEmbedding is read back by
    getEntityEmbedding.  For a name without a current version the update
    throws [Entity <name> not found], changes nothing, and the read answers
    null.  For a name with a current version the update succeeds, the read
    then returns exactly the stored vector under the model name "unknown",
    and the update creates no new version: the rows keep their number,
    identities, names, versions and validity, rows other than the current
    rows of that name are untouched, and the relationships are unchanged. *)
Theorem updateEntityEmbedding_then_getEntityEmbedding
        (H : Host) (entityName : string) (embedding : EntityEmbedding) (w : World) :
  (current_named (store w) entityName = [] ->
   fst (updateEntityEmbedding H entityName embedding w)
   = Throw (entity_not_found entityName)
   /\ store (snd (updateEntityEmbedding H entityName embedding w)) = store w
   /\ fst (getEntityEmbedding H entityName w) = None)
  /\ (current_named (store w) entityName <> [] ->
      fst (updateEntityEmbedding H entityName embedding w) = Ok tt
      /\ option_map (fun e => (vector e, model e))
           (fst (getEntityEmbedding H entityName
                   (snd (updateEntityEmbedding H entityName embedding w))))
         = Some (vector embedding, "unknown"%string)
      /\ map (fun n => (nid n, n_id n, n_name n, n_version n, n_validFrom n, n_validTo n))
             (nodes (store (snd (updateEntityEmbedding H entityName embedding w))))
         = map (fun n => (nid n, n_id n, n_name n, n_version n, n_validFrom n, n_validTo n))
               (nodes (store w))
      /\ filter (fun n => negb (String.eqb (n_name n) entityName && node_current n))
                (nodes (store (snd (updateEntityEmbedding H entityName embedding w))))
         = filter (fun n => negb (String.eqb (n_name n) entityName && node_current n))
                  (nodes (store w))
      /\ edges (store (snd (updateEntityEmbedding H entityName embedding w)))
         = edges (store w)).
Proof.
  split.
  - intro Hnone. unfold updateEntityEmbedding, getEntityEmbedding.
    rewrite !bind_run.
    change (fst (get_store w)) with (store w). change (snd (get_store w)) with w.
    unfold getEntity. rewrite Hnone. repeat split; reflexivity.
  - intro Hsome.
    destruct (current_named (store w) entityName) as [|c rest] eqn:Hc; [contradiction|].
    destruct (updateEntityEmbedding_run H entityName embedding w c rest Hc)
      as [Hok Hstore].
    split; [exact Hok|]. split; [|split; [|split]].
    + unfold getEntityEmbedding. rewrite bind_run.
      match goal with
      | |- context [fst (get_store ?w1)] =>
          change (fst (get_store w1)) with (store w1);
          change (snd (get_store w1)) with w1
      end.
      unfold getEntity. rewrite Hstore, current_named_after_embedding, Hc.
      cbn [map set_node_embedding n_embedding]. rewrite bind_run. reflexivity.
    + rewrite Hstore. cbn [nodes]. rewrite map_map. apply map_ext.
      intro n. destruct (_ && _); reflexivity.
    + rewrite Hstore. cbn [nodes]. rewrite filter_map_commute.
      * rewrite <- (map_id (filter _ (nodes (store w)))) at 2.
        apply map_ext_in. intros n Hn. apply filter_In in Hn.
        destruct Hn as [_ Hn]. apply negb_true_iff in Hn. rewrite Hn. reflexivity.
      * intro n.
        destruct (String.eqb (n_name n) entityName && node_current n) eqn:Hn;
          [|rewrite Hn; reflexivity].
        change (n_name (set_node_embedding (vector embedding) (clock H (ticks w)) n))
          with (n_name n).
        change (node_current
                  (set_node_embedding (vector embedding) (clock H (ticks w)) n))
          with (node_current n).
        rewrite Hn. reflexivity.
    + rewrite Hstore. reflexivity.
Qed.

Lemma updateEntityEmbedding_then_getEntityEmbedding_witness :
  fst (updateEntityEmbedding (Example.host None) "a"
         (mkEntityEmbedding [1 # 2; 1 # 3] "some-model" 7) Example.populated) = Ok tt
  /\ option_map (fun e => (vector e, model e))
       (fst (getEntityEmbedding (Example.host None) "a"
               (snd (updateEntityEmbedding (Example.host None) "a"
                       (mkEntityEmbedding [1 # 2; 1 # 3] "some-model" 7)
                       Example.populated))))
     = Some ([1 # 2; 1 # 3], "unknown"%string).
Proof.
  destruct (proj2 (updateEntityEmbedding_then_getEntityEmbedding
                     (Example.host None) "a"
                     (mkEntityEmbedding [1 # 2; 1 # 3] "some-model" 7)
                     Example.populated))
    as [Hok [Hget _]].
  - vm_compute. discriminate.
  - split; [exact Hok|exact Hget].
Defined.

(** ** What searchNodes and openNodes return *)

Lemma mapM_relation_of_row_store (H : Host) (rows : list (Node * Edge * Node)) :
  forall w, store (snd (mapM (relation_of_row H) rows w)) = store w.
Proof.
  induction rows as [|row rest IH]; intro w.
  - reflexivity.
  - cbn [mapM]. rewrite !bind_run. cbn [ret snd].
    rewrite IH. apply relation_of_row_store.
Qed.

Lemma relations_among_closed (H : Host) (s : Store) (names : list string) (w : World)
      (r : Relation Q) :
  In r (fst (mapM (relation_of_row H) (relations_among s names) w)) ->
  In (from r) names /\ In (to r) names.
Proof.
  intro Hr.
  assert (Hcore : In (relation_core r) (map row_core (relations_among s names))).
  { rewrite <- (mapM_relation_core H _ w). apply in_map. exact Hr. }
  apply in_map_iff in Hcore. destruct Hcore as [[[f e] t] [Heq Hrow]].
  unfold relations_among in Hrow. apply filter_In in Hrow.
  destruct Hrow as [_ Hrow].
  rewrite !andb_true_iff, !includes_In in Hrow. destruct Hrow as [[Hf Ht] _].
  unfold row_core, relation_core in Heq. injection Heq as Hfrom Hto _ _ _.
  rewrite <- Hfrom, <- Hto. split; assumption.
Qed.

Lemma In_firstn_In {A} (k : nat) (l : list A) (x : A) :
  In x (firstn k l) -> In x l.
Proof.
  intro Hx. rewrite <- (firstn_skipn k l). apply in_or_app. left. exact Hx.
Qed.

Lemma cypher_limit_ok {A} (n : Z) (rows out : list A) :
  cypher_limit n rows = Ok out ->
  (0 <= n)%Z /\ out = firstn (Z.to_nat n) rows.
Proof.
  unfold cypher_limit. destruct (Z.ltb_spec n 0); [discriminate|].
  intro Heq. injection Heq as <-. split; [assumption|reflexivity].
Qed.

(** X9. A graph returned by searchNodes is well formed.  It holds at most
    floor(limit || 10) entities; each of them is a current row of the store
    that matches the query and whose type passes the entityTypes filter;
    every relation it lists starts and ends at a listed entity; and the
    search leaves the store as it was. *)
Theorem searchNodes_result_well_formed
        (H : Host) (query : string) (options : SearchOptions) (w : World)
        (g : KnowledgeGraph Q) :
  fst (searchNodes H query options w) = Ok g ->
  (Z.of_nat (List.length (entities g))
   <= Qfloor (JS.qnum_or (limit options) (10 # 1)))%Z
  /\ (forall e, In e (entities g) ->
        exists n, In n (nodes (store w)) /\ e = nodeToEntity n
                  /\ node_current n = true
                  /\ node_matches H query n = true
                  /\ entityType_allowed (entityTypes options) (n_entityType n) = true)
  /\ (forall r, In r (relations g) ->
        In (from r) (map name (entities g)) /\ In (to r) (map name (entities g)))
  /\ store (snd (searchNodes H query options w)) = store w.
Proof.
  unfold searchNodes. rewrite !bind_run.
  change (fst (get_store w)) with (store w). change (snd (get_store w)) with w.
  destruct (cypher_limit _ _) as [records|msg] eqn:Hlimit;
    [|cbn [ret fst]; discriminate].
  apply cypher_limit_ok in Hlimit. destruct Hlimit as [Hpos Hrecords].
  assert (Hlen : (Z.of_nat (List.length (map nodeToEntity records))
                  <= Qfloor (JS.qnum_or (limit options) (10 # 1)))%Z).
  { rewrite length_map, Hrecords.
    pose proof (firstn_le_length
                  (Z.to_nat (Qfloor (JS.qnum_or (limit options) (10 # 1))))
                  (filter (fun e =>
                             node_matches H query e
                             && entityType_allowed (entityTypes options) (n_entityType e)
                             && node_current e)
                          (nodes (store w)))) as Hle.
    rewrite length_firstn. lia. }
  assert (Hrows : forall e, In e (map nodeToEntity records) ->
            exists n, In n (nodes (store w)) /\ e = nodeToEntity n
                      /\ node_current n = true
                      /\ node_matches H query n = true
                      /\ entityType_allowed (entityTypes options) (n_entityType n)
                         = true).
  { intros e He. apply in_map_iff in He. destruct He as [n [<- Hn]].
    rewrite Hrecords in Hn. apply In_firstn_In in Hn. apply filter_In in Hn.
    destruct Hn as [Hin Hn]. rewrite !andb_true_iff in Hn.
    destruct Hn as [[Hm Hty] Hc]. exists n. repeat split; assumption. }
  destruct (map name (map nodeToEntity records)) as [|nm names] eqn:Hnames.
  - cbn [ret fst snd]. intro Hg. injection Hg as <-. cbn [entities relations].
    split; [exact Hlen|]. split; [exact Hrows|]. split; [|reflexivity].
    intros r [].
  - rewrite !bind_run. cbn [ret fst snd]. intro Hg. injection Hg as <-.
    cbn [entities relations].
    split; [exact Hlen|]. split; [exact Hrows|]. split.
    + intros r Hr. rewrite Hnames.
      exact (relations_among_closed H _ _ _ r Hr).
    + apply mapM_relation_of_row_store.
Qed.

Lemma searchNodes_result_well_formed_witness :
  exists g,
    fst (searchNodes (Example.host None) "a" Example.plain_options Example.populated)
    = Ok g
    /\ (Z.of_nat (List.length (entities g)) <= 10)%Z
    /\ entities g <> [].
Proof.
  destruct (fst (searchNodes (Example.host None) "a" Example.plain_options
                             Example.populated)) as [g|msg] eqn:Hrun;
    [|vm_compute in Hrun; discriminate].
  exists g. split; [reflexivity|].
  destruct (searchNodes_result_well_formed (Example.host None) "a"
              Example.plain_options Example.populated g Hrun) as [Hlen _].
  split; [exact Hlen|].
  vm_compute in Hrun. injection Hrun as <-. discriminate.
Defined.

Lemma openNodes_run (H : Host) (names : list string) (w : World) :
  entities (fst (openNodes H names w))
  = map nodeToEntity
        (filter (fun e => JS.includes names (n_name e) && node_current e)
                (nodes (store w)))
  /\ (forall r, In r (relations (fst (openNodes H names w))) ->
        In (from r) names /\ In (to r) names)
  /\ store (snd (openNodes H names w)) = store w.
Proof.
  destruct names as [|nm names].
  - cbn [openNodes ret fst snd entities relations]. split; [|split].
    + rewrite (filter_nil_of_all_false
                 (fun e : Node => JS.includes [] (n_name e) && node_current e))
        by (intros; reflexivity).
      reflexivity.
    + intros r [].
    + reflexivity.
  - unfold openNodes. rewrite !bind_run.
    change (fst (get_store w)) with (store w). change (snd (get_store w)) with w.
    cbn [ret fst snd entities relations]. split; [reflexivity|]. split.
    + intros r Hr. exact (relations_among_closed H _ _ _ r Hr).
    + apply mapM_relation_of_row_store.
Qed.

Lemma openNodes_names (H : Host) (names : list string) (w : World) (nm : string) :
  In nm (map name (entities (fst (openNodes H names w))))
  <-> In nm names /\ current_named (store w) nm <> [].
Proof.
  destruct (openNodes_run H names w) as [Hent _].
  rewrite Hent, map_map. rewrite in_map_iff. split.
  - intros [n [Hname Hn]]. apply filter_In in Hn. destruct Hn as [Hin Hn].
    apply andb_true_iff in Hn. destruct Hn as [Hinc Hcur].
    change (name (nodeToEntity n)) with (n_name n) in Hname.
    split.
    + rewrite <- Hname. apply includes_In. exact Hinc.
    + intro Hnil.
      assert (Hc : In n (current_named (store w) nm)).
      { apply filter_In. split; [exact Hin|].
        rewrite Hname, String.eqb_refl, Hcur. reflexivity. }
      rewrite Hnil in Hc. exact Hc.
  - intros [Hreq Hsome].
    destruct (current_named (store w) nm) as [|c rest] eqn:Hc; [contradiction|].
    assert (Hin : In c (current_named (store w) nm)) by (rewrite Hc; left; reflexivity).
    apply filter_In in Hin. destruct Hin as [Hin Hp].
    apply andb_true_iff in Hp. destruct Hp as [Hname Hcur].
    apply String.eqb_eq in Hname.
    exists c. split; [exact Hname|].
    apply filter_In. split; [exact Hin|].
    rewrite Hname, Hcur, andb_true_r. apply includes_In. exact Hreq.
Qed.

Lemma openNodes_entities_current (H : Host) (names : list string) (w : World)
      (e : Entity) :
  In e (entities (fst (openNodes H names w))) ->
  exists n, In n (nodes (store w)) /\ e = nodeToEntity n /\ node_current n = true.
Proof.
  destruct (openNodes_run H names w) as [Hent _].
  intro He. rewrite Hent in He. apply in_map_iff in He.
  destruct He as [n [<- Hn]]. apply filter_In in Hn. destruct Hn as [Hin Hn].
  apply andb_true_iff in Hn. exists n. repeat split; [exact Hin|exact (proj2 Hn)].
Qed.

(** X10. openNodes answers for exactly the requested names that have a
    current version: a name occurs among the returned entities if and only
    if it was requested and some row of that name is current.  Every
    returned entity is a current row, every returned relation starts and
    ends at a requested name, and the store is left as it was. *)
Theorem openNodes_returns_requested_current_entities
        (H : Host) (names : list string) (w : World) :
  (forall nm,
      In nm (map name (entities (fst (openNodes H names w))))
      <-> In nm names /\ current_named (store w) nm <> [])
  /\ (forall e, In e (entities (fst (openNodes H names w))) ->
        exists n, In n (nodes (store w)) /\ e = nodeToEntity n
                  /\ node_current n = true)
  /\ (forall r, In r (relations (fst (openNodes H names w))) ->
        In (from r) names /\ In (to r) names)
  /\ store (snd (openNodes H names w)) = store w.
Proof.
  destruct (openNodes_run H names w) as [_ [Hrel Hstore]].
  split; [|split; [|split; assumption]].
  - intro nm. apply openNodes_names.
  - intros e He. exact (openNodes_entities_current H names w e He).
Qed.

(** ** getGraphAtTime once every change lies in the past *)

Lemma valid_at_after_changes (t vFrom : Z) (vTo : option Z) :
  changes_by t vFrom vTo = true -> valid_at t vFrom vTo = JS.is_null vTo.
Proof.
  unfold changes_by, valid_at. rewrite andb_true_iff. intros [Hfrom Hto].
  rewrite Hfrom. destruct vTo as [closed|]; [|reflexivity].
  cbn [andb JS.is_null]. apply Z.leb_le in Hto. apply Z.ltb_ge. exact Hto.
Qed.

(** X11. Reading the graph at a time by which every stored version began
    and every closed version ended gives the current graph: getGraphAtTime
    then returns what loadGraph returns. *)
Theorem getGraphAtTime_after_all_changes_is_loadGraph
        (H : Host) (timestamp : Z) (w : World) :
  all_changes_by timestamp (store w) = true ->
  fst (getGraphAtTime H timestamp w) = fst (loadGraph H w).
Proof.
  unfold all_changes_by. rewrite andb_true_iff, !forallb_forall.
  intros [Hnodes Hedges].
  unfold getGraphAtTime, loadGraph. rewrite !bind_run.
  change (fst (get_store w)) with (store w). change (snd (get_store w)) with w.
  assert (Hent : entities_at (store w) timestamp = filter node_current (nodes (store w))).
  { unfold entities_at. apply filter_ext_in. intros n Hn.
    apply valid_at_after_changes. exact (Hnodes n Hn). }
  assert (Hrel : relations_at (store w) timestamp
                 = filter (fun row => edge_current (snd (fst row)))
                          (match_edges (store w))).
  { unfold relations_at. apply filter_ext_in. intros [[a e] b] Hrow.
    apply match_edges_row in Hrow. destruct Hrow as [He _].
    cbn [fst snd]. apply valid_at_after_changes. exact (Hedges e He). }
  rewrite Hent, Hrel. reflexivity.
Qed.

Lemma getGraphAtTime_after_all_changes_is_loadGraph_witness :
  all_changes_by 5000
    (store (perform_all (Example.host None)
              [AddObservations [mkObservationInput "a" ["tall"%string]]]
              Example.populated)) = true
  /\ List.length
       (nodes (store (perform_all (Example.host None)
                        [AddObservations [mkObservationInput "a" ["tall"%string]]]
                        Example.populated))) = 3%nat
  /\ fst (getGraphAtTime (Example.host None) 5000
            (perform_all (Example.host None)
               [AddObservations [mkObservationInput "a" ["tall"%string]]]
               Example.populated))
     = fst (loadGraph (Example.host None)
              (perform_all (Example.host None)
                 [AddObservations [mkObservationInput "a" ["tall"%string]]]
                 Example.populated)).
Proof.
  split; [reflexivity|]. split; [reflexivity|].
  apply (getGraphAtTime_after_all_changes_is_loadGraph (Example.host None) 5000).
  reflexivity.
Defined.

(** ** getDecayedGraph in general *)






(** ** findSimilarEntities *)

Lemma getEntity_own_name (s : Store) (nm : string) (e : Entity) :
  getEntity s nm = Some e ->
  name e = nm /\ validTo e = None /\ getEntity s (name e) = Some e.
Proof.
  unfold getEntity. destruct (current_named s nm) as [|c rest] eqn:Hc; [discriminate|].
  intro Heq. injection Heq as <-.
  assert (Hin : In c (current_named s nm)) by (rewrite Hc; left; reflexivity).
  apply filter_In in Hin. destruct Hin as [_ Hp].
  apply andb_true_iff in Hp. destruct Hp as [Hname Hcur].
  apply String.eqb_eq in Hname.
  change (name (nodeToEntity c)) with (n_name c).
  change (validTo (nodeToEntity c)) with (n_validTo c).
  split; [exact Hname|]. split.
  - unfold node_current in Hcur. destruct (n_validTo c); [discriminate|reflexivity].
  - rewrite Hname, Hc. reflexivity.
Qed.

Lemma strictly_null_never {A} (x : option A) :
  strictly_null (read_property x) = false.
Proof. destruct x; reflexivity. Qed.

Lemma slice0_nil {A} (e : Z) : slice0 (@nil A) e = [].
Proof. unfold slice0. destruct (Z.ltb e 0); apply firstn_nil. Qed.

Lemma findSimilarEntities_nil (H : Host) (s : Store) (queryVector : list Q) (lim : Z) :
  findSimilarEntities H s queryVector lim = [].
Proof.
  unfold findSimilarEntities.
  destruct (vector_queryNodes H (nodes s) lim queryVector) as [rows|]; [|reflexivity].
  rewrite filter_nil_of_all_false; [apply slice0_nil|].
  intros entity _. apply strictly_null_never.
Qed.

(** X13. findSimilarEntities never returns a result, whatever the vector
    index answers and whatever the limit.  The entities it builds come from
    getEntity, which reads current rows only; a current row has no validTo
    property, so the field is undefined, and the final filter keeps only
    entities whose validTo is identical to null.  In consequence the
    fallback of semanticSearch, taken when the direct index lookup fails,
    always answers with the empty graph. *)
Theorem findSimilarEntities_returns_nothing
        (H : Host) (s : Store) (vector : list Q) (lim : Z) :
  findSimilarEntities H s vector lim = []
  /\ (forall entity,
        (exists nm, getEntity s nm = Some entity) ->
        validTo entity = None
        /\ read_property (validTo entity) = Undefined
        /\ strictly_null (read_property (validTo entity)) = false)
  /\ (forall query options w,
        store w = s ->
        queryVector options = Some vector ->
        vector_queryNodes H (nodes s)
                          (Qfloor (JS.qnum_or (limit options) (10 # 1))) vector
        = None ->
        fst (semanticSearch H query options w) = Ok empty_graph
        /\ store (snd (semanticSearch H query options w)) = s).
Proof.
  split; [apply findSimilarEntities_nil|]. split.
  - intros entity [nm Hget].
    destruct (getEntity_own_name s nm entity Hget) as [_ [Hnone _]].
    split; [exact Hnone|]. split; [rewrite Hnone; reflexivity|].
    apply strictly_null_never.
  - intros query options w Hs Hv Hindex.
    unfold semanticSearch. rewrite Hv. unfold vector_search. rewrite bind_run.
    change (fst (get_store w)) with (store w). change (snd (get_store w)) with w.
    rewrite Hs, Hindex, findSimilarEntities_nil.
    cbn [filter]. rewrite slice0_nil. split; [reflexivity|exact Hs].
Qed.

Lemma findSimilarEntities_returns_nothing_witness :
  option_map (map (fun row => n_name (fst row)))
             (vector_queryNodes Example.picky_host
                                (nodes (store Example.embedded)) 20 [1 # 1])
  = Some ["cat"%string]
  /\ option_map (fun e => validTo e) (getEntity (store Example.embedded) "cat")
     = Some None
  /\ findSimilarEntities Example.picky_host (store Example.embedded) [1 # 1] 20 = []
  /\ fst (semanticSearch Example.picky_host "anything"
                         (mkSearchOptions None None None (Some [1 # 1]))
                         Example.embedded)
     = Ok empty_graph.
Proof.
  split; [reflexivity|]. split; [reflexivity|]. split.
  - exact (proj1 (findSimilarEntities_returns_nothing
                    Example.picky_host (store Example.embedded) [1 # 1] 20)).
  - exact (proj1 (proj2 (proj2 (findSimilarEntities_returns_nothing
                                  Example.picky_host (store Example.embedded)
                                  [1 # 1] 20))
                        "anything"%string
                        (mkSearchOptions None None None (Some [1 # 1]))
                        Example.embedded eq_refl eq_refl eq_refl)).
Defined.

(** ** semanticSearch with a query vector *)

Lemma getEntity_some_current (s : Store) (nm : string) (e : Entity) :
  getEntity s nm = Some e -> current_named s (name e) <> [].
Proof.
  intros Hget Hnil. destruct (getEntity_own_name s nm e Hget) as [_ [_ Hown]].
  unfold getEntity in Hown. rewrite Hnil in Hown. discriminate.
Qed.

Lemma slice0_In {A} (l : list A) (e : Z) (x : A) : In x (slice0 l e) -> In x l.
Proof. unfold slice0. destruct (Z.ltb e 0); apply In_firstn_In. Qed.

Lemma findSimilarEntities_In (H : Host) (s : Store) (v : list Q) (lim : Z)
      (e : Entity) (score : Q) :
  In (e, score) (findSimilarEntities H s v lim) -> getEntity s (name e) = Some e.
Proof.
  unfold findSimilarEntities.
  destruct (vector_queryNodes H (nodes s) lim v) as [rows|]; [|intros []].
  intro He. apply slice0_In in He. apply filter_In in He.
  destruct He as [He _]. apply in_flat_map in He.
  destruct He as [record [_ He]].
  destruct (getEntity s (n_name (fst record))) as [entity|] eqn:Hget; [|destruct He].
  destruct He as [Heq|[]]. injection Heq as <- _.
  exact (proj2 (proj2 (getEntity_own_name s _ entity Hget))).
Qed.

(** A graph opened for names that all have a current version is closed:
    its relations start and end at entities it lists. *)
Lemma openNodes_closed (H : Host) (names : list string) (w : World) :
  (forall nm, In nm names -> current_named (store w) nm <> []) ->
  (forall e, In e (entities (fst (openNodes H names w))) ->
     exists n, In n (nodes (store w)) /\ e = nodeToEntity n /\ node_current n = true)
  /\ (forall r, In r (relations (fst (openNodes H names w))) ->
        In (from r) (map name (entities (fst (openNodes H names w))))
        /\ In (to r) (map name (entities (fst (openNodes H names w)))))
  /\ store (snd (openNodes H names w)) = store w.
Proof.
  intro Hnames. destruct (openNodes_run H names w) as [_ [Hrel Hstore]].
  split; [|split; [|exact Hstore]].
  - intros e He. exact (openNodes_entities_current H names w e He).
  - intros r Hr. destruct (Hrel r Hr) as [Hf Ht].
    split; apply openNodes_names; split; auto.
Qed.

Lemma vector_search_run (H : Host) (options : SearchOptions) (v : list Q) (w : World) :
  (fst (vector_search H options v w) = Ok empty_graph
   /\ store (snd (vector_search H options v w)) = store w)
  \/ exists names,
       (forall nm, In nm names -> current_named (store w) nm <> [])
       /\ vector_search H options v w
          = (Ok (fst (openNodes H names w)), snd (openNodes H names w)).
Proof.
  unfold vector_search. rewrite bind_run.
  change (fst (get_store w)) with (store w). change (snd (get_store w)) with w.
  destruct (vector_queryNodes H (nodes (store w)) _ v) as [rows|].
  - destruct (order_by_score_desc _) as [|record records] eqn:Hrows;
      [left; split; reflexivity|].
    destruct (flat_map _ (record :: records)) as [|e es] eqn:Hent;
      [left; split; reflexivity|].
    right. exists (map name (e :: es)). split.
    + intros nm Hnm. apply in_map_iff in Hnm. destruct Hnm as [e' [<- He']].
      rewrite <- Hent in He'. apply in_flat_map in He'.
      destruct He' as [rec [_ He']].
      destruct (getEntity (store w) (n_name (fst rec))) as [entity|] eqn:Hget;
        [|destruct He'].
      destruct He' as [<-|[]]. exact (getEntity_some_current _ _ _ Hget).
    + rewrite bind_run. reflexivity.
  - destruct (slice0 _ _) as [|r rs] eqn:Hres; [left; split; reflexivity|].
    right. exists (map (fun r => name (fst r)) (r :: rs)). split.
    + intros nm Hnm. apply in_map_iff in Hnm. destruct Hnm as [[e score] [<- He]].
      rewrite <- Hres in He. apply slice0_In in He.
      apply filter_In in He. destruct He as [He _].
      apply filter_In in He. destruct He as [He _].
      apply findSimilarEntities_In in He. cbn [fst].
      exact (getEntity_some_current _ _ _ He).
    + rewrite bind_run. reflexivity.
Qed.

(** X14. semanticSearch called with a query vector in its options never
    throws and does not read the text query.  The graph it returns lists
    only current rows of the store, each of its relations starts and ends
    at a listed entity, and the store is left as it was. *)
Theorem semanticSearch_with_queryVector
        (H : Host) (query : string) (options : SearchOptions) (v : list Q)
        (w : World) :
  queryVector options = Some v ->
  (exists g,
      fst (semanticSearch H query options w) = Ok g
      /\ (forall e, In e (entities g) ->
            exists n, In n (nodes (store w)) /\ e = nodeToEntity n
                      /\ node_current n = true)
      /\ (forall r, In r (relations g) ->
            In (from r) (map name (entities g)) /\ In (to r) (map name (entities g))))
  /\ store (snd (semanticSearch H query options w)) = store w
  /\ (forall query', semanticSearch H query' options w
                     = semanticSearch H query options w).
Proof.
  intro Hv.
  assert (Hrun : forall q, semanticSearch H q options w = vector_search H options v w).
  { intro q. unfold semanticSearch. rewrite Hv. reflexivity. }
  split; [|split].
  - rewrite Hrun.
    destruct (vector_search_run H options v w) as [[Hempty _]|[names [Hnames Heq]]].
    + exists empty_graph. split; [exact Hempty|]. split.
      * intros e [].
      * intros r [].
    + exists (fst (openNodes H names w)). rewrite Heq. split; [reflexivity|].
      destruct (openNodes_closed H names w Hnames) as [Hent [Hrel _]].
      split; assumption.
  - rewrite Hrun.
    destruct (vector_search_run H options v w) as [[_ Hstore]|[names [Hnames Heq]]].
    + exact Hstore.
    + rewrite Heq. exact (proj2 (proj2 (openNodes_closed H names w Hnames))).
  - intro q. rewrite !Hrun. reflexivity.
Qed.

Lemma semanticSearch_with_queryVector_witness :
  queryVector Example.only_cities = Some [1 # 1]
  /\ option_map (fun g => List.length (entities g))
       (match fst (semanticSearch (Example.host Example.unit_embedder) "cat"
                                  Example.only_cities Example.embedded) with
        | Ok g => Some g
        | Throw _ => None
        end) = Some 1%nat
  /\ store (snd (semanticSearch (Example.host Example.unit_embedder) "cat"
                                Example.only_cities Example.embedded))
     = store Example.embedded.
Proof.
  split; [reflexivity|]. split; [reflexivity|].
  exact (proj1 (proj2 (semanticSearch_with_queryVector
                         (Example.host Example.unit_embedder) "cat"
                         Example.only_cities [1 # 1] Example.embedded eq_refl))).
Defined.

(** ** LocalEmbeddingService.generateEmbeddings *)

Module BatchFacts.

Import PrimFloat LocalEmbeddingService LocalEmbeddingBatch.

Lemma typed_slice_nil (start stop : float) : typed_slice (@nil float) start stop = [].
Proof. unfold typed_slice. rewrite skipn_nil. apply firstn_nil. Qed.

Lemma typed_slice_exact {A} (data : list A) (start stop : float) (a size : Z) :
  ToIntegerOrInfinity start = Finite a ->
  ToIntegerOrInfinity stop = Finite (a + size) ->
  (0 <= a)%Z -> (0 <= size)%Z ->
  (a + size <= Z.of_nat (List.length data))%Z ->
  List.length (typed_slice data start stop) = Z.to_nat size.
Proof.
  intros Hstart Hstop Ha Hsize Hfit. unfold typed_slice.
  rewrite Hstart, Hstop. cbn [position].
  destruct (Z.ltb_spec a 0) as [Hneg|_]; [lia|].
  destruct (Z.ltb_spec (a + size) 0) as [Hneg|_]; [lia|].
  rewrite length_firstn, length_skipn. lia.
Qed.

Lemma embeddings_from_length (data : list float) (size : float) (remaining : nat) :
  forall i, List.length (embeddings_from data size i remaining) = remaining.
Proof.
  induction remaining as [|n IH]; intro i; [reflexivity|].
  cbn [embeddings_from List.length]. rewrite IH. reflexivity.
Qed.

Lemma embeddings_from_nonempty (data : list float) (size : float) (remaining : nat) :
  forall i, Forall (fun v => v <> []) (embeddings_from data size i remaining).
Proof.
  induction remaining as [|n IH]; intro i; [constructor|].
  cbn [embeddings_from]. constructor; [|apply IH].
  apply NormalizeFacts.normalizeVector_nonempty.
Qed.

(** With no data every slice is empty, and normalising the empty vector
    gives the vector (1). *)
Lemma embeddings_from_no_data (size : float) (remaining : nat) :
  forall i, embeddings_from [] size i remaining = repeat [1%float] remaining.
Proof.
  induction remaining as [|n IH]; intro i; [reflexivity|].
  cbn [embeddings_from repeat]. rewrite typed_slice_nil, IH. reflexivity.
Qed.

Lemma embeddings_from_dimensions (data : list float) (size : float) (d : Z)
      (remaining : nat) :
  (0 < d)%Z ->
  forall i k,
    (0 <= k)%Z ->
    exact_layout size i d k remaining = true ->
    ((k + Z.of_nat remaining) * d <= Z.of_nat (List.length data))%Z ->
    Forall (fun v => Z.of_nat (List.length v) = d)
           (embeddings_from data size i remaining).
Proof.
  intro Hd. induction remaining as [|n IH]; intros i k Hk Hexact Hfit; [constructor|].
  cbn [embeddings_from exact_layout] in *.
  destruct (ToIntegerOrInfinity (i * size)%float) as [a| |] eqn:Hstart;
    try discriminate.
  destruct (ToIntegerOrInfinity (i * size + size)%float) as [b| |] eqn:Hstop;
    try discriminate.
  rewrite !andb_true_iff, !Z.eqb_eq in Hexact.
  destruct Hexact as [[Ha Hb] Hrest]. subst a b.
  constructor.
  - assert (Hlen : List.length (typed_slice data (i * size) (i * size + size))
                   = Z.to_nat d).
    { apply (typed_slice_exact data _ _ (k * d) d Hstart Hstop); nia. }
    rewrite NormalizeFacts.normalizeVector_length.
    + rewrite Hlen. lia.
    + intro Hnil. rewrite Hnil in Hlen. cbn [List.length] in Hlen. lia.
  - apply (IH (i + 1)%float (k + 1)%Z); [lia|exact Hrest|nia].
Qed.

End BatchFacts.

(** X15. A successful generateEmbeddings returns one vector per text, none
    of them empty; the model was then loaded and its run did not throw.
    When the run returns no data at all, every text gets the vector (1)
    rather than an error.  When [dimensions] stands for a positive integer
    [d], the index arithmetic of the loop is exact for the number of texts,
    and the data holds at least [d] numbers per text, every vector has [d]
    components. *)
Theorem generateEmbeddings_one_vector_per_text
        (initialized : LocalEmbeddingService.Extractor (list string))
        (dimensions : PrimFloat.float) (texts : list string)
        (vectors : list (list PrimFloat.float)) :
  LocalEmbeddingBatch.generateEmbeddings initialized dimensions texts = Ok vectors ->
  List.length vectors = List.length texts
  /\ Forall (fun v => v <> []) vectors
  /\ exists run data,
       initialized = Ok (Some run) /\ run texts = Ok data
       /\ (data = [] ->
           vectors = repeat [PrimFloat.one] (List.length texts))
       /\ (forall d,
             (0 < d)%Z ->
             LocalEmbeddingBatch.exact_layout dimensions PrimFloat.zero d 0
                                              (List.length texts) = true ->
             (Z.of_nat (List.length texts) * d <= Z.of_nat (List.length data))%Z ->
             Forall (fun v => Z.of_nat (List.length v) = d) vectors).
Proof.
  unfold LocalEmbeddingBatch.generateEmbeddings.
  destruct initialized as [[run|]|message]; try discriminate.
  destruct (run texts) as [data|message] eqn:Hrun; [|discriminate].
  intro Hok. injection Hok as <-.
  split; [apply BatchFacts.embeddings_from_length|].
  split; [apply BatchFacts.embeddings_from_nonempty|].
  exists run, data. split; [reflexivity|]. split; [exact Hrun|]. split.
  - intros ->. apply BatchFacts.embeddings_from_no_data.
  - intros d Hd Hexact Hfit.
    apply (BatchFacts.embeddings_from_dimensions data dimensions d _ Hd _ 0%Z);
      [lia|exact Hexact|lia].
Qed.

Lemma generateEmbeddings_one_vector_per_text_witness :
  LocalEmbeddingBatch.generateEmbeddings
    (Ok (Some (fun _ => Ok LocalEmbeddingBatch.two_by_two))) PrimFloat.two
    ["one"%string; "two"%string]
  = Ok (LocalEmbeddingBatch.embeddings_from LocalEmbeddingBatch.two_by_two
                                            PrimFloat.two PrimFloat.zero 2)
  /\ LocalEmbeddingBatch.exact_layout PrimFloat.two PrimFloat.zero 2 0 2 = true
  /\ List.length (LocalEmbeddingBatch.embeddings_from
                    LocalEmbeddingBatch.two_by_two PrimFloat.two PrimFloat.zero 2)
     = 2%nat
  /\ Forall (fun v => Z.of_nat (List.length v) = 2%Z)
            (LocalEmbeddingBatch.embeddings_from
               LocalEmbeddingBatch.two_by_two PrimFloat.two PrimFloat.zero 2).
Proof.
  split; [reflexivity|]. split; [reflexivity|].
  destruct (generateEmbeddings_one_vector_per_text
              (Ok (Some (fun _ => Ok LocalEmbeddingBatch.two_by_two))) PrimFloat.two
              ["one"%string; "two"%string]
              (LocalEmbeddingBatch.embeddings_from LocalEmbeddingBatch.two_by_two
                                                   PrimFloat.two PrimFloat.zero 2)
              eq_refl)
    as [Hlen [_ [run [data [Hinit [Hrun [_ Hdims]]]]]]].
  injection Hinit as <-. injection Hrun as <-.
  split; [exact Hlen|].
  apply (Hdims 2%Z); [lia|reflexivity|cbn; lia].
Defined.

(** ** EmbeddingServiceFactory.createFromEnvironment *)

Lemma str_or_null_some (x : option string) (key : string) :
  JS.str_or_null x = Some key <-> x = Some key /\ key <> EmptyString.
Proof.
  unfold JS.str_or_null. destruct x as [k|].
  - destruct (String.eqb_spec k EmptyString) as [->|Hne].
    + split; [discriminate|]. intros [Heq Hne]. injection Heq as <-.
      contradiction.
    + split.
      * intro Heq. injection Heq as <-. split; [reflexivity|exact Hne].
      * intros [Heq _]. exact Heq.
  - split; [discriminate|]. intros [Heq _]. discriminate.
Qed.

(** X16. Which service createFromEnvironment builds.  With
    MOCK_EMBEDDINGS = "true" it is always the default service.  It is the
    OpenAI service exactly when mocks are off, the provider setting is
    "openai" or "auto" (an unset or empty EMBEDDING_PROVIDER counts as
    "auto"), OPENAI_API_KEY is set and not empty, and the constructor does
    not throw; the model is then OPENAI_EMBEDDING_MODEL, or
    "text-embedding-3-small" when that is unset or empty.  It is the local
    service exactly when mocks are off and the provider setting is "local",
    or is "auto" without a usable key; the model is then
    LOCAL_EMBEDDING_MODEL, or "Xenova/bge-base-en-v1.5".  In every other
    case, among them the provider "openai" without a key, it is the default
    service. *)
Theorem createFromEnvironment_choice
        (toLowerCase : string -> string) (openai_constructs : string -> string -> bool)
        (env : EmbeddingServiceFactory.Environment) :
  (mock_requested env = true ->
   EmbeddingServiceFactory.createFromEnvironment toLowerCase openai_constructs env
   = EmbeddingServiceFactory.DefaultEmbeddingService)
  /\ (forall key modelName,
        EmbeddingServiceFactory.createFromEnvironment toLowerCase openai_constructs env
        = EmbeddingServiceFactory.OpenAIEmbeddingService key modelName
        <-> mock_requested env = false
            /\ (provider_setting toLowerCase env = "openai"%string
                \/ provider_setting toLowerCase env = "auto"%string)
            /\ EmbeddingServiceFactory.OPENAI_API_KEY env = Some key
            /\ key <> EmptyString
            /\ modelName
               = JS.defined_or
                   (JS.str_or_null (EmbeddingServiceFactory.OPENAI_EMBEDDING_MODEL env))
                   "text-embedding-3-small"%string
            /\ openai_constructs key modelName = true)
  /\ (forall modelName,
        EmbeddingServiceFactory.createFromEnvironment toLowerCase openai_constructs env
        = EmbeddingServiceFactory.LocalEmbeddingService modelName
        <-> mock_requested env = false
            /\ modelName
               = JS.defined_or
                   (JS.str_or_null (EmbeddingServiceFactory.LOCAL_EMBEDDING_MODEL env))
                   "Xenova/bge-base-en-v1.5"%string
            /\ (provider_setting toLowerCase env = "local"%string
                \/ (provider_setting toLowerCase env = "auto"%string
                    /\ JS.str_or_null (EmbeddingServiceFactory.OPENAI_API_KEY env)
                       = None)))
  /\ (provider_setting toLowerCase env = "openai"%string ->
      JS.str_or_null (EmbeddingServiceFactory.OPENAI_API_KEY env) = None ->
      EmbeddingServiceFactory.createFromEnvironment toLowerCase openai_constructs env
      = EmbeddingServiceFactory.DefaultEmbeddingService).
Proof.
  unfold EmbeddingServiceFactory.createFromEnvironment.
  fold (mock_requested env). fold (provider_setting toLowerCase env).
  set (provider := provider_setting toLowerCase env).
  set (localModel := JS.defined_or
                       (JS.str_or_null (EmbeddingServiceFactory.LOCAL_EMBEDDING_MODEL env))
                       "Xenova/bge-base-en-v1.5"%string).
  set (openaiModel := JS.defined_or
                        (JS.str_or_null
                           (EmbeddingServiceFactory.OPENAI_EMBEDDING_MODEL env))
                        "text-embedding-3-small"%string).
  destruct (mock_requested env).
  { split; [reflexivity|]. split; [|split].
    - intros key modelName. split; [discriminate|]. intros [Hm _]. discriminate.
    - intro modelName. split; [discriminate|]. intros [Hm _]. discriminate.
    - intros _ _. reflexivity. }
  split; [discriminate|].
  destruct (String.eqb_spec provider "local") as [Hlocal|Hlocal].
  { split; [|split].
    - intros key modelName. split; [discriminate|].
      intros [_ [[Hp|Hp] _]]; rewrite Hlocal in Hp; discriminate.
    - intro modelName. split.
      + intro Heq. injection Heq as <-. split; [reflexivity|].
        split; [reflexivity|]. left. exact Hlocal.
      + intros [_ [-> _]]. reflexivity.
    - intro Hp. rewrite Hlocal in Hp. discriminate. }
  destruct (String.eqb_spec provider "openai") as [Hopenai|Hopenai];
    destruct (String.eqb_spec provider "auto") as [Hauto|Hauto];
    cbn [orb];
    try (rewrite Hopenai in Hauto; discriminate).
  - (* "openai" *)
    destruct (JS.str_or_null (EmbeddingServiceFactory.OPENAI_API_KEY env))
      as [k|] eqn:Hk.
    + apply str_or_null_some in Hk. destruct Hk as [Hset Hne].
      destruct (openai_constructs k openaiModel) eqn:Hbuild.
      * split; [|split].
        -- intros key modelName. split.
           ++ intro Heq. injection Heq as <- <-. split; [reflexivity|].
              split; [left; exact Hopenai|]. repeat split; assumption.
           ++ intros [_ [_ [Hset' [_ [-> _]]]]].
              rewrite Hset in Hset'. injection Hset' as <-. reflexivity.
        -- intro modelName. split; [discriminate|].
           intros [_ [_ [Hp|[Hp _]]]]; contradiction.
        -- discriminate.
      * split; [|split].
        -- intros key modelName. split; [discriminate|].
           intros [_ [_ [Hset' [_ [-> Hb]]]]].
           rewrite Hset in Hset'. injection Hset' as <-.
           rewrite Hbuild in Hb. discriminate.
        -- intro modelName. split; [discriminate|].
           intros [_ [_ [Hp|[Hp _]]]]; contradiction.
        -- discriminate.
    + split; [|split].
      * intros key modelName. split; [discriminate|].
        intros [_ [_ [Hset [Hne _]]]].
        assert (Hsome : JS.str_or_null (EmbeddingServiceFactory.OPENAI_API_KEY env)
                        = Some key) by (apply str_or_null_some; split; assumption).
        rewrite Hk in Hsome. discriminate.
      * intro modelName. split; [discriminate|].
        intros [_ [_ [Hp|[Hp _]]]]; contradiction.
      * intros _ _. reflexivity.
  - (* "auto" *)
    destruct (JS.str_or_null (EmbeddingServiceFactory.OPENAI_API_KEY env))
      as [k|] eqn:Hk.
    + apply str_or_null_some in Hk. destruct Hk as [Hset Hne].
      destruct (openai_constructs k openaiModel) eqn:Hbuild.
      * split; [|split].
        -- intros key modelName. split.
           ++ intro Heq. injection Heq as <- <-. split; [reflexivity|].
              split; [right; exact Hauto|]. repeat split; assumption.
           ++ intros [_ [_ [Hset' [_ [-> _]]]]].
              rewrite Hset in Hset'. injection Hset' as <-. reflexivity.
        -- intro modelName. split; [discriminate|].
           intros [_ [_ [Hp|[_ Hnone]]]]; [contradiction|discriminate].
        -- intro Hp. contradiction.
      * split; [|split].
        -- intros key modelName. split; [discriminate|].
           intros [_ [_ [Hset' [_ [-> Hb]]]]].
           rewrite Hset in Hset'. injection Hset' as <-.
           rewrite Hbuild in Hb. discriminate.
        -- intro modelName. split; [discriminate|].
           intros [_ [_ [Hp|[_ Hnone]]]]; [contradiction|discriminate].
        -- intro Hp. contradiction.
    + split; [|split].
      * intros key modelName. split; [discriminate|].
        intros [_ [_ [Hset [Hne _]]]].
        assert (Hsome : JS.str_or_null (EmbeddingServiceFactory.OPENAI_API_KEY env)
                        = Some key) by (apply str_or_null_some; split; assumption).
        rewrite Hk in Hsome. discriminate.
      * intro modelName. split.
        -- intro Heq. injection Heq as <-. split; [reflexivity|].
           split; [reflexivity|]. right. split; [exact Hauto|reflexivity].
        -- intros [_ [-> _]]. reflexivity.
      * intro Hp. contradiction.
  - (* any other provider *)
    split; [|split].
    + intros key modelName. split; [discriminate|].
      intros [_ [[Hp|Hp] _]]; contradiction.
    + intro modelName. split; [discriminate|].
      intros [_ [_ [Hp|[Hp _]]]]; contradiction.
    + intro Hp. contradiction.
Qed.

Lemma createFromEnvironment_choice_witness :
  EmbeddingServiceFactory.createFromEnvironment (fun s => s) (fun _ _ => true)
    (EmbeddingServiceFactory.mkEnvironment None None (Some "sk-1"%string) None None)
  = EmbeddingServiceFactory.OpenAIEmbeddingService "sk-1" "text-embedding-3-small"
  /\ EmbeddingServiceFactory.createFromEnvironment (fun s => s) (fun _ _ => true)
       (EmbeddingServiceFactory.mkEnvironment None (Some "openai"%string) None None None)
     = EmbeddingServiceFactory.DefaultEmbeddingService.
Proof.
  split.
  - apply (proj1 (proj2 (createFromEnvironment_choice
                           (fun s => s) (fun _ _ => true)
                           (EmbeddingServiceFactory.mkEnvironment
                              None None (Some "sk-1"%string) None None))) "sk-1"%string
                 "text-embedding-3-small"%string).
    split; [reflexivity|]. split; [right; reflexivity|]. split; [reflexivity|].
    split; [discriminate|]. split; reflexivity.
  - apply (proj2 (proj2 (proj2 (createFromEnvironment_choice
                                  (fun s => s) (fun _ _ => true)
                                  (EmbeddingServiceFactory.mkEnvironment
                                     None (Some "openai"%string) None None None)))));
      reflexivity.
Defined.

(** ** createRelations, then getRelation *)

Lemma createRelation_run (H : Host) (relation : RelationInput) (w : World) :
  endpoint_pairs (store w) (ri_from relation) (ri_to relation) <> [] ->
  store (snd (createRelation H relation w))
  = create_edges
      (endpoint_pairs (store w) (ri_from relation) (ri_to relation))
      (mkRelProps (uuidv4 H (drawn w)) (ri_relationType relation)
                  (JS.qnum_or_null (ri_strength relation))
                  (JS.qnum_or_null (ri_confidence relation))
                  (ri_metadata relation)
                  1
                  (JS.num_or (ri_createdAt relation) (clock H (ticks w)))
                  (JS.num_or (ri_updatedAt relation) (clock H (ticks w)))
                  (JS.num_or (ri_validFrom relation) (clock H (ticks w)))
                  None
                  (JS.str_or_null (ri_changedBy relation)))
      (store w).
Proof.
  intro Hpairs.
  unfold createRelation, bind, Date_now, uuid, get_store, put_store, ret.
  cbn [store ticks drawn fst snd].
  destruct (endpoint_pairs (store w) (ri_from relation) (ri_to relation))
    as [|[a b] more]; [contradiction|].
  reflexivity.
Qed.

Lemma createRelations_singleton (H : Host) (relation : RelationInput) (w : World) :
  store (snd (createRelations H [relation] w))
  = store (snd (createRelation H relation w)).
Proof.
  unfold createRelations. cbn [forM]. rewrite !bind_run. reflexivity.
Qed.

(** X17. createRelations on a relation whose two names are stored, in a
    store with distinct node identities that holds no current relation of
    the same end points and type.  One relationship is created for every
    pair of a stored row of the first name and a stored row of the second,
    superseded rows included; the earlier relationships and the nodes are
    left alone; and getRelation then returns the relation, with a strength
    or confidence of 0 read back as absent. *)
Theorem createRelations_then_getRelation
        (H : Host) (relation : RelationInput) (w : World) :
  NoDup (map nid (nodes (store w))) ->
  nodes_named (store w) (ri_from relation) <> [] ->
  nodes_named (store w) (ri_to relation) <> [] ->
  filter (fun row => edge_current (snd (fst row)))
         (relation_rows (store w) (ri_from relation) (ri_to relation)
                        (ri_relationType relation)) = [] ->
  (exists created,
      edges (store (snd (createRelations H [relation] w)))
      = edges (store w) ++ created
      /\ List.length created
         = (List.length (nodes_named (store w) (ri_from relation))
            * List.length (nodes_named (store w) (ri_to relation)))%nat)
  /\ nodes (store (snd (createRelations H [relation] w))) = nodes (store w)
  /\ option_map relation_core
       (fst (getRelation H (ri_from relation) (ri_to relation)
                         (ri_relationType relation)
                         (snd (createRelations H [relation] w))))
     = Some (ri_from relation, ri_to relation, ri_relationType relation,
             JS.qnum_or_null (ri_strength relation),
             JS.qnum_or_null (ri_confidence relation)).
Proof.
  intros Hnodup Hfrom Hto Hfresh.
  pose proof (endpoint_pairs_stored _ _ _ Hfrom Hto) as Hpairs.
  pose proof (createRelation_run H relation w Hpairs) as Hstore.
  split; [|split].
  - rewrite createRelations_singleton, Hstore. unfold create_edges. cbn [edges].
    eexists. split; [reflexivity|].
    rewrite length_map. unfold endpoint_pairs. apply length_prod.
  - rewrite createRelations_singleton, Hstore. reflexivity.
  - unfold getRelation. rewrite bind_run.
    match goal with
    | |- context [fst (get_store ?w1)] =>
        change (fst (get_store w1)) with (store w1);
        change (snd (get_store w1)) with w1
    end.
    rewrite createRelations_singleton, Hstore.
    unfold relation_rows at 1, create_edges.
    rewrite match_edges_app, !filter_app.
    rewrite store_eta. fold (relation_rows (store w) (ri_from relation)
                                           (ri_to relation) (ri_relationType relation)).
    rewrite Hfresh. cbn [app].
    rewrite (match_edges_created (nodes (store w)) (next_nid (store w)) _
                                 (endpoint_pairs (store w) (ri_from relation)
                                                 (ri_to relation)) Hnodup)
      by (intros a b; apply endpoint_pairs_in).
    rewrite filter_all_true_map.
    + destruct (endpoint_pairs (store w) (ri_from relation) (ri_to relation))
        as [|[a0 b0] rest] eqn:Heq; [contradiction|].
      assert (Hnames : n_name a0 = ri_from relation /\ n_name b0 = ri_to relation).
      { apply (endpoint_pairs_names (store w)). rewrite Heq. left. reflexivity. }
      destruct Hnames as [Hna Hnb].
      cbn [map fst snd]. rewrite bind_run. cbn [ret fst option_map].
      rewrite relation_of_row_core.
      cbn [row_core e_props r_relationType r_strength r_confidence].
      rewrite Hna, Hnb. reflexivity.
    + intros [a b] Hab. cbn [fst snd e_props r_relationType].
      destruct (endpoint_pairs_names _ _ _ a b Hab) as [Ha Hb].
      split.
      * rewrite Ha, Hb, !String.eqb_refl. reflexivity.
      * reflexivity.
Qed.

Lemma createRelations_then_getRelation_witness :
  NoDup (map nid (nodes (store Example.populated)))
  /\ List.length
       (edges (store (snd (createRelations (Example.host None)
                             [mkRelationInput "b" "a" "hosts" (Some (0 # 1)) (Some (1 # 4))
                                              None None None None None]
                             Example.populated)))) = 2%nat
  /\ option_map relation_core
       (fst (getRelation (Example.host None) "b" "a" "hosts"
               (snd (createRelations (Example.host None)
                       [mkRelationInput "b" "a" "hosts" (Some (0 # 1)) (Some (1 # 4))
                                        None None None None None]
                       Example.populated))))
     = Some ("b"%string, "a"%string, "hosts"%string, None, Some (1 # 4)).
Proof.
  assert (Hnodup : NoDup (map nid (nodes (store Example.populated)))).
  { vm_compute. repeat constructor; cbn; intuition discriminate. }
  split; [exact Hnodup|]. split; [reflexivity|].
  refine (proj2 (proj2 (createRelations_then_getRelation (Example.host None)
            (mkRelationInput "b" "a" "hosts" (Some (0 # 1)) (Some (1 # 4))
                             None None None None None)
            Example.populated Hnodup _ _ eq_refl)));
    vm_compute; discriminate.
Defined.

(** ** deleteRelations *)

Lemma edge_matches_same_nodes (s s' : Store) (f t ty : string) (e : Edge) :
  nodes s' = nodes s -> edge_matches s' f t ty e = edge_matches s f t ty e.
Proof. intro Hn. unfold edge_matches, lookup_node. rewrite Hn. reflexivity. Qed.

Lemma filter_filter {A} (p q : A -> bool) (l : list A) :
  filter p (filter q l) = filter (fun x => q x && p x) l.
Proof.
  induction l as [|x rest IH]; [reflexivity|].
  cbn [filter]. destruct (q x); cbn [filter andb]; rewrite IH; reflexivity.
Qed.

Lemma existsb_pointwise {A} (p q : A -> bool) (l : list A) :
  (forall x, p x = q x) -> existsb p l = existsb q l.
Proof.
  intro Hpq. induction l as [|x rest IH]; [reflexivity|].
  cbn [existsb]. rewrite Hpq, IH. reflexivity.
Qed.

Lemma iterM_deleteRelation_store (relations : list RelationInput) :
  forall w,
    store (snd (iterM deleteRelation relations w))
    = mkStore (nodes (store w))
              (filter (fun e =>
                         negb (existsb
                                 (fun r => edge_matches (store w) (ri_from r) (ri_to r)
                                                        (ri_relationType r) e)
                                 relations))
                      (edges (store w)))
              (next_nid (store w)).
Proof.
  induction relations as [|r rest IH]; intro w.
  - cbn [iterM ret snd existsb negb].
    rewrite filter_all_true by (intros; reflexivity).
    symmetry. apply store_eta.
  - cbn [iterM]. rewrite bind_run, IH.
    unfold deleteRelation. rewrite bind_run.
    change (fst (get_store w)) with (store w). change (snd (get_store w)) with w.
    cbn [put_store snd store nodes edges next_nid].
    rewrite filter_filter. f_equal. apply filter_ext. intro e.
    cbn [existsb]. rewrite negb_orb. reflexivity.
Qed.

Lemma deleteRelations_store (relations : list RelationInput) (w : World) :
  store (snd (deleteRelations relations w))
  = mkStore (nodes (store w))
            (filter (fun e =>
                       negb (existsb
                               (fun r => edge_matches (store w) (ri_from r) (ri_to r)
                                                      (ri_relationType r) e)
                               relations))
                    (edges (store w)))
            (next_nid (store w)).
Proof.
  unfold deleteRelations. rewrite iterM_eq_batch. apply iterM_deleteRelation_store.
Qed.

Lemma relation_rows_match (s : Store) (f t ty : string) (a b : Node) (e : Edge) :
  In (a, e, b) (relation_rows s f t ty) ->
  In e (edges s) /\ edge_matches s f t ty e = true.
Proof.
  unfold relation_rows. rewrite filter_In. intros [Hrow Hq].
  apply match_edges_row in Hrow. destruct Hrow as [He [Ha Hb]].
  split; [exact He|]. unfold edge_matches. rewrite Ha, Hb. exact Hq.
Qed.

(** X18. deleteRelations is a hard delete.  The nodes are left alone; the
    relationships left are exactly the earlier ones that match none of the
    listed relations in end-point names and type, so every version of a
    listed relation is gone: getRelation finds nothing and its history is
    empty.  Deleting the same relations again changes nothing. *)
Theorem deleteRelations_removes_every_version
        (relations : list RelationInput) (w : World) :
  nodes (store (snd (deleteRelations relations w))) = nodes (store w)
  /\ (forall e,
        In e (edges (store (snd (deleteRelations relations w))))
        <-> In e (edges (store w))
            /\ forall r, In r relations ->
                         edge_matches (store w) (ri_from r) (ri_to r)
                                      (ri_relationType r) e = false)
  /\ (forall H r,
        In r relations ->
        fst (getRelation H (ri_from r) (ri_to r) (ri_relationType r)
                         (snd (deleteRelations relations w))) = None
        /\ fst (getRelationHistory H (ri_from r) (ri_to r) (ri_relationType r)
                                   (snd (deleteRelations relations w))) = [])
  /\ store (snd (deleteRelations relations (snd (deleteRelations relations w))))
     = store (snd (deleteRelations relations w)).
Proof.
  assert (Hedges : forall e,
             In e (edges (store (snd (deleteRelations relations w))))
             <-> In e (edges (store w))
                 /\ forall r, In r relations ->
                              edge_matches (store w) (ri_from r) (ri_to r)
                                           (ri_relationType r) e = false).
  { intro e. rewrite deleteRelations_store. cbn [edges]. rewrite filter_In.
    rewrite negb_true_iff. split.
    - intros [He Hnone]. split; [exact He|]. intros r Hr.
      apply not_true_iff_false. intro Hm.
      assert (Hex : existsb (fun r => edge_matches (store w) (ri_from r) (ri_to r)
                                                   (ri_relationType r) e)
                            relations = true).
      { apply existsb_exists. exists r. split; assumption. }
      rewrite Hex in Hnone. discriminate.
    - intros [He Hnone]. split; [exact He|].
      apply not_true_iff_false. intro Hex. apply existsb_exists in Hex.
      destruct Hex as [r [Hr Hm]]. rewrite (Hnone r Hr) in Hm. discriminate. }
  assert (Hnodes : nodes (store (snd (deleteRelations relations w))) = nodes (store w)).
  { rewrite deleteRelations_store. reflexivity. }
  split; [exact Hnodes|]. split; [exact Hedges|]. split.
  - intros H r Hr.
    assert (Hrows : relation_rows (store (snd (deleteRelations relations w)))
                                  (ri_from r) (ri_to r) (ri_relationType r) = []).
    { destruct (relation_rows _ _ _ _) as [|[[a e] b] rest] eqn:Hrows; [reflexivity|].
      exfalso.
      assert (Hin : In (a, e, b)
                       (relation_rows (store (snd (deleteRelations relations w)))
                                      (ri_from r) (ri_to r) (ri_relationType r)))
        by (rewrite Hrows; left; reflexivity).
      apply relation_rows_match in Hin. destruct Hin as [He Hm].
      rewrite (edge_matches_same_nodes _ _ _ _ _ _ Hnodes) in Hm.
      apply Hedges in He. destruct He as [_ Hnone].
      rewrite (Hnone r Hr) in Hm. discriminate. }
    unfold getRelation, getRelationHistory. rewrite !bind_run.
    match goal with
    | |- context [fst (get_store ?w1)] =>
        change (fst (get_store w1)) with (store w1);
        change (snd (get_store w1)) with w1
    end.
    rewrite Hrows. split; reflexivity.
  - rewrite (deleteRelations_store relations (snd (deleteRelations relations w))).
    rewrite Hnodes.
    rewrite (filter_ext
               (fun e =>
                  negb (existsb
                          (fun r => edge_matches
                                      (store (snd (deleteRelations relations w)))
                                      (ri_from r) (ri_to r) (ri_relationType r) e)
                          relations))
               (fun e =>
                  negb (existsb
                          (fun r => edge_matches (store w) (ri_from r) (ri_to r)
                                                 (ri_relationType r) e)
                          relations))).
    + rewrite deleteRelations_store. cbn [edges next_nid].
      rewrite filter_idempotent. reflexivity.
    + intro e. f_equal. apply existsb_pointwise. intro r.
      apply edge_matches_same_nodes. exact Hnodes.
Qed.

(** ** saveGraph *)

Lemma num_or_now_store (H : Host) (x : option Z) (w : World) :
  store (snd (num_or_now H x w)) = store w.
Proof.
  unfold num_or_now. destruct x as [v|]; [destruct (Z.eqb v 0)|]; reflexivity.
Qed.

Lemma str_or_uuid_store (H : Host) (x : option string) (w : World) :
  store (snd (str_or_uuid H x w)) = store w.
Proof. unfold str_or_uuid. destruct (JS.str_or_null x); reflexivity. Qed.

(** The fields of a stored row that [saveGraph] takes from the graph. *)
Lemma saveEntity_run (H : Host) (entity : SavedEntity) (w : World) :
  exists n,
    nodes (store (snd (saveEntity H entity w))) = nodes (store w) ++ [n]
    /\ edges (store (snd (saveEntity H entity w))) = edges (store w)
    /\ (n_name n, n_entityType n, n_observations n, n_version n, n_validTo n)
       = (se_name entity, se_entityType entity,
          JS.defined_or (se_observations entity) [],
          JS.num_or (se_version entity) 1, num_or_null (se_validTo entity)).
Proof.
  unfold saveEntity. rewrite !bind_run.
  match goal with
  | |- context [fst (get_store ?w1)] =>
      change (fst (get_store w1)) with (store w1);
      change (snd (get_store w1)) with w1
  end.
  unfold put_store, create_node. cbn [snd store nodes edges].
  rewrite !num_or_now_store, str_or_uuid_store.
  eexists. split; [reflexivity|]. split; reflexivity.
Qed.

Lemma iterM_saveEntity_run (H : Host) (graphEntities : list SavedEntity) :
  forall w,
  exists rows,
    nodes (store (snd (iterM (saveEntity H) graphEntities w)))
    = nodes (store w) ++ rows
    /\ edges (store (snd (iterM (saveEntity H) graphEntities w))) = edges (store w)
    /\ map (fun n => (n_name n, n_entityType n, n_observations n, n_version n,
                      n_validTo n)) rows
       = map (fun e => (se_name e, se_entityType e,
                        JS.defined_or (se_observations e) [],
                        JS.num_or (se_version e) 1, num_or_null (se_validTo e)))
             graphEntities.
Proof.
  induction graphEntities as [|e rest IH]; intro w.
  - exists []. cbn [iterM ret snd map]. rewrite app_nil_r.
    split; [reflexivity|]. split; reflexivity.
  - cbn [iterM]. rewrite bind_run.
    destruct (saveEntity_run H e w) as [n [Hn [He Hfields]]].
    destruct (IH (snd (saveEntity H e w))) as [rows [Hrows [Hedges Hmap]]].
    exists (n :: rows). rewrite Hrows, Hn, Hedges, He, <- app_assoc.
    split; [reflexivity|]. split; [reflexivity|].
    cbn [map]. rewrite Hfields, Hmap. reflexivity.
Qed.

Lemma saveRelation_store (H : Host) (relation : SavedRelation) (w : World) :
  exists p,
    store (snd (saveRelation H relation w))
    = create_edges (endpoint_pairs (store w) (sr_from relation) (sr_to relation))
                   p (store w).
Proof.
  unfold saveRelation. rewrite !bind_run.
  match goal with
  | |- context [fst (get_store ?w1)] =>
      change (fst (get_store w1)) with (store w1);
      change (snd (get_store w1)) with w1
  end.
  unfold put_store. cbn [snd store].
  rewrite !num_or_now_store, str_or_uuid_store.
  eexists. reflexivity.
Qed.

Lemma saveRelation_nodes (H : Host) (relation : SavedRelation) (w : World) :
  nodes (store (snd (saveRelation H relation w))) = nodes (store w).
Proof. destruct (saveRelation_store H relation w) as [p ->]. reflexivity. Qed.

Lemma saveRelation_no_dangling (H : Host) (relation : SavedRelation) (w : World) :
  no_dangling (store w) -> no_dangling (store (snd (saveRelation H relation w))).
Proof.
  intro Hwf. destruct (saveRelation_store H relation w) as [p ->].
  apply no_dangling_create_edges; [exact Hwf|].
  intros a b. apply endpoint_pairs_in.
Qed.

(** X19. saveGraph replaces the store.  Whatever was stored before, the
    rows afterwards are one per entity of the graph, in order, with its
    name, type and observations, version [version || 1] and validity end
    [validTo || null]; every relationship afterwards has both end nodes
    among them; and loadGraph then lists exactly the entities of the graph
    whose validTo is absent or 0. *)
Theorem saveGraph_replaces_the_store
        (H : Host) (graphEntities : list SavedEntity)
        (graphRelations : list SavedRelation) (w : World) :
  map (fun n => (n_name n, n_entityType n, n_observations n, n_version n, n_validTo n))
      (nodes (store (snd (saveGraph H graphEntities graphRelations w))))
  = map (fun e => (se_name e, se_entityType e, JS.defined_or (se_observations e) [],
                   JS.num_or (se_version e) 1, num_or_null (se_validTo e)))
        graphEntities
  /\ no_dangling (store (snd (saveGraph H graphEntities graphRelations w)))
  /\ map name
         (entities (fst (loadGraph H (snd (saveGraph H graphEntities graphRelations w)))))
     = map se_name
           (filter (fun e => JS.is_null (num_or_null (se_validTo e))) graphEntities).
Proof.
  assert (Hrun : exists w1,
             store (snd (saveGraph H graphEntities graphRelations w))
             = store (snd (iterM (saveRelation H) graphRelations
                                 (snd (iterM (saveEntity H) graphEntities w1))))
             /\ nodes (store w1) = [] /\ edges (store w1) = []).
  { unfold saveGraph. rewrite !bind_run. eexists. split; [reflexivity|].
    split; reflexivity. }
  destruct Hrun as [w1 [Hstore [Hn1 He1]]].
  destruct (iterM_saveEntity_run H graphEntities w1) as [rows [Hrows [Hedges Hmap]]].
  rewrite Hn1 in Hrows. cbn [app] in Hrows. rewrite He1 in Hedges.
  assert (Hnodes : nodes (store (snd (saveGraph H graphEntities graphRelations w)))
                   = rows).
  { rewrite Hstore, (iterM_nodes (saveRelation H) graphRelations (saveRelation_nodes H)).
    exact Hrows. }
  split; [|split].
  - rewrite Hnodes. exact Hmap.
  - rewrite Hstore.
    apply (iterM_store_invariant no_dangling (saveRelation H) graphRelations
                                 (saveRelation_no_dangling H)).
    intros e He. rewrite Hedges in He. destruct He.
  - unfold loadGraph. rewrite !bind_run. cbn [ret fst entities].
    match goal with
    | |- context [fst (get_store ?w2)] => change (fst (get_store w2)) with (store w2)
    end.
    rewrite Hnodes. rewrite map_map.
    change (fun x => name (nodeToEntity x)) with n_name.
    clear - Hmap. revert rows Hmap.
    induction graphEntities as [|e rest IH]; intros [|n rows] Hmap;
      try discriminate; [reflexivity|].
    cbn [map] in Hmap. injection Hmap as Hname _ _ _ Hto Hrest.
    cbn [filter]. unfold node_current at 1. rewrite Hto.
    destruct (JS.is_null (num_or_null (se_validTo e))); cbn [map];
      rewrite ?Hname, (IH rows Hrest); reflexivity.
Qed.

(** ** Versioned writes never drop a row *)

Lemma extends_history_refl (s : Store) : extends_history s s.
Proof.
  exists (nodes s), []. rewrite app_nil_r. split; reflexivity.
Qed.

Lemma extends_history_same_nodes (s s' : Store) :
  nodes s' = nodes s -> extends_history s s'.
Proof.
  intro Hn. exists (nodes s), []. rewrite app_nil_r. split; [exact Hn|reflexivity].
Qed.

Lemma map_eq_app_split {A B} (g : A -> B) (l : list A) (m1 m2 : list B) :
  map g l = m1 ++ m2 ->
  exists l1 l2, l = l1 ++ l2 /\ map g l1 = m1 /\ map g l2 = m2.
Proof.
  revert l. induction m1 as [|y m1 IH]; intros l Heq.
  - exists [], l. repeat split. exact Heq.
  - destruct l as [|x l]; [discriminate|].
    cbn [map app] in Heq. injection Heq as Hx Hrest.
    destruct (IH l Hrest) as [l1 [l2 [-> [H1 H2]]]].
    exists (x :: l1), l2. cbn [map app]. rewrite Hx, H1. repeat split. exact H2.
Qed.

Lemma extends_history_trans (s1 s2 s3 : Store) :
  extends_history s1 s2 -> extends_history s2 s3 -> extends_history s1 s3.
Proof.
  intros [kept [added [Hn Hm]]] [kept' [added' [Hn' Hm']]].
  rewrite Hn, map_app in Hm'.
  destruct (map_eq_app_split _ _ _ _ Hm') as [k1 [k2 [-> [Hk1 Hk2]]]].
  exists k1, (k2 ++ added'). split.
  - rewrite Hn', app_assoc. reflexivity.
  - rewrite Hk1. exact Hm.
Qed.

Lemma extends_history_closing (hit : Node -> bool) (now : Z) (s s' : Store)
      (added : list Node) :
  nodes s' = map (fun n => if hit n then set_node_validTo now n else n) (nodes s)
             ++ added ->
  extends_history s s'.
Proof.
  intro Hn. eexists. exists added. split; [exact Hn|].
  rewrite map_map. apply map_ext. intro n. destruct (hit n); reflexivity.
Qed.

Lemma addObservation_extends (H : Host) (obs : ObservationInput) (w : World) :
  extends_history (store w) (store (snd (addObservation H obs w))).
Proof.
  destruct (addObservation_cases H obs w)
    as [[_ Hrun]|[[_ [_ Hrun]]|[[_ [c [rest [_ [_ [Hsame _]]]]]]
       |[_ [c [rest [now [newId [_ [_ Hnodes]]]]]]]]]].
  - rewrite Hrun. apply extends_history_refl.
  - rewrite Hrun. apply extends_history_refl.
  - rewrite Hsame. apply extends_history_refl.
  - exact (extends_history_closing _ _ _ _ _ Hnodes).
Qed.

Lemma deleteObservation_extends (H : Host) (d : ObservationInput) (w : World) :
  extends_history (store w) (store (snd (deleteObservation H d w))).
Proof.
  destruct (blank_item d) eqn:Hblank.
  - unfold deleteObservation. rewrite Hblank. apply extends_history_refl.
  - destruct (current_named (store w) (entityName d)) as [|c rest] eqn:Hc.
    + unfold deleteObservation. rewrite Hblank, bind_run.
      change (fst (get_store w)) with (store w). rewrite Hc.
      apply extends_history_refl.
    + exact (extends_history_closing _ _ _ _ _
               (deleteObservation_run H d w c rest Hblank Hc)).
Qed.

Lemma perform_extends (H : Host) (op : Operation) (w : World) :
  versioned op = true -> extends_history (store w) (store (perform H op w)).
Proof.
  intro Hop. destruct op as [l|l|l|l|r|l|l]; cbn [perform]; try discriminate.
  - unfold createEntities. rewrite forM_eq_batch.
    destruct (forM_createEntity_run H l w) as [created [Hnodes _]].
    exists (nodes (store w)), created. split; [exact Hnodes|reflexivity].
  - unfold createRelations. rewrite forM_eq_batch.
    apply (forM_store_invariant (extends_history (store w)));
      [|apply extends_history_refl].
    intros x w' Hw'. apply (extends_history_trans _ _ _ Hw').
    apply extends_history_same_nodes, createRelation_nodes.
  - unfold addObservations. rewrite forM_eq_batch.
    apply (forM_store_invariant (extends_history (store w)));
      [|apply extends_history_refl].
    intros x w' Hw'. apply (extends_history_trans _ _ _ Hw').
    apply addObservation_extends.
  - unfold deleteObservations. rewrite iterM_eq_batch.
    apply (iterM_store_invariant (extends_history (store w)));
      [|apply extends_history_refl].
    intros x w' Hw'. apply (extends_history_trans _ _ _ Hw').
    apply deleteObservation_extends.
  - apply extends_history_same_nodes, updateRelation_nodes.
Qed.

Lemma named_rows_kept (nm : string) (kept old : list Node) :
  map fields_but_validTo kept = map fields_but_validTo old ->
  List.length (filter (fun n => String.eqb (n_name n) nm) kept)
  = List.length (filter (fun n => String.eqb (n_name n) nm) old).
Proof.
  revert old. induction kept as [|k kept IH]; intros [|o old] Heq;
    try discriminate; [reflexivity|].
  cbn [map] in Heq.
  assert (Hname : n_name k = n_name o).
  { unfold fields_but_validTo in Heq. congruence. }
  assert (Hrest : map fields_but_validTo kept = map fields_but_validTo old)
    by congruence.
  cbn [filter]. rewrite Hname.
  destruct (String.eqb (n_name o) nm); cbn [List.length]; rewrite (IH old Hrest);
    reflexivity.
Qed.

(** X20. The versioned writes never drop or rewrite a stored row.  After
    any sequence of createEntities, createRelations, addObservations,
    deleteObservations and updateRelation, every row stored before is still
    there, in place and unchanged except possibly for its validTo, and the
    new rows come after; so no entity's history ever gets shorter. *)
Theorem versioned_writes_keep_every_row
        (H : Host) (ops : list Operation) (w : World) :
  forallb versioned ops = true ->
  extends_history (store w) (store (perform_all H ops w))
  /\ forall entityName,
       (List.length (getEntityHistory (store w) entityName)
        <= List.length (getEntityHistory (store (perform_all H ops w)) entityName))%nat.
Proof.
  intro Hops.
  assert (Hext : extends_history (store w) (store (perform_all H ops w))).
  { revert w. induction ops as [|op rest IH]; intro w.
    - apply extends_history_refl.
    - cbn [forallb] in Hops. apply andb_true_iff in Hops. destruct Hops as [Hop Hrest].
      cbn [perform_all].
      apply (extends_history_trans _ (store (perform H op w))).
      + apply perform_extends. exact Hop.
      + apply IH. exact Hrest. }
  split; [exact Hext|].
  intro nm. destruct Hext as [kept [added [Hn Hm]]].
  unfold getEntityHistory. rewrite !length_map, !order_ascending_length.
  unfold nodes_named. rewrite Hn, filter_app, length_app.
  rewrite (named_rows_kept nm kept (nodes (store w)) Hm). lia.
Qed.

Lemma versioned_writes_keep_every_row_witness :
  forallb versioned
          [AddObservations [mkObservationInput "a" ["tall"%string]];
           DeleteObservations [mkObservationInput "a" ["likes tea"%string]];
           UpdateRelation (Example.relation "a" "b" "lives_in")] = true
  /\ List.length (getEntityHistory (store Example.populated) "a") = 1%nat
  /\ List.length
       (getEntityHistory
          (store (perform_all (Example.host None)
                    [AddObservations [mkObservationInput "a" ["tall"%string]];
                     DeleteObservations [mkObservationInput "a" ["likes tea"%string]];
                     UpdateRelation (Example.relation "a" "b" "lives_in")]
                    Example.populated)) "a") = 3%nat
  /\ extends_history (store Example.populated)
       (store (perform_all (Example.host None)
                 [AddObservations [mkObservationInput "a" ["tall"%string]];
                  DeleteObservations [mkObservationInput "a" ["likes tea"%string]];
                  UpdateRelation (Example.relation "a" "b" "lives_in")]
                 Example.populated)).
Proof.
  split; [reflexivity|]. split; [reflexivity|]. split; [reflexivity|].
  exact (proj1 (versioned_writes_keep_every_row (Example.host None)
                  [AddObservations [mkObservationInput "a" ["tall"%string]];
                   DeleteObservations [mkObservationInput "a" ["likes tea"%string]];
                   UpdateRelation (Example.relation "a" "b" "lives_in")]
                  Example.populated eq_refl)).
Defined.

(** ** Reads leave the store alone *)

Lemma searchNodes_store (H : Host) (query : string) (options : SearchOptions)
      (w : World) :
  store (snd (searchNodes H query options w)) = store w.
Proof.
  unfold searchNodes. rewrite !bind_run.
  change (fst (get_store w)) with (store w). change (snd (get_store w)) with w.
  destruct (cypher_limit _ _) as [records|msg]; [|reflexivity].
  destruct (map name (map nodeToEntity records)); [reflexivity|].
  rewrite !bind_run. cbn [ret snd]. apply mapM_relation_of_row_store.
Qed.

Lemma mapM_store {A B} (f : A -> M B) (l : list A) :
  (forall x w, store (snd (f x w)) = store w) ->
  forall w, store (snd (mapM f l w)) = store w.
Proof.
  intro Hf. induction l as [|x rest IH]; intro w.
  - reflexivity.
  - cbn [mapM]. rewrite !bind_run. cbn [ret snd]. rewrite IH. apply Hf.
Qed.

Lemma semanticSearch_store (H : Host) (query : string) (options : SearchOptions)
      (w : World) :
  store (snd (semanticSearch H query options w)) = store w.
Proof.
  unfold semanticSearch.
  destruct (queryVector options) as [v|] eqn:Hv.
  - destruct (vector_search_run H options v w) as [[_ Hstore]|[names [Hnames Heq]]].
    + exact Hstore.
    + rewrite Heq. exact (proj2 (proj2 (openNodes_run H names w))).
  - destruct (embeddingService H) as [generateEmbedding|];
      unfold text_search; apply searchNodes_store.
Qed.

(** X21. The retrieval operations never write.  loadGraph, getGraphAtTime,
    getDecayedGraph, getRelation, getRelationHistory, getEntityEmbedding
    and semanticSearch, on every path including the failing ones, leave
    the nodes and relationships of the store exactly as they were. *)
Theorem reads_leave_the_store_alone
        (H : Host) (cfg : DecayConfig) (w : World) :
  store (snd (loadGraph H w)) = store w
  /\ (forall timestamp, store (snd (getGraphAtTime H timestamp w)) = store w)
  /\ store (snd (getDecayedGraph H cfg w)) = store w
  /\ (forall f t ty, store (snd (getRelation H f t ty w)) = store w)
  /\ (forall f t ty, store (snd (getRelationHistory H f t ty w)) = store w)
  /\ (forall entityName, store (snd (getEntityEmbedding H entityName w)) = store w)
  /\ (forall query options, store (snd (semanticSearch H query options w)) = store w).
Proof.
  split; [|split; [|split; [|split; [|split; [|split]]]]].
  - unfold loadGraph. rewrite !bind_run. cbn [ret snd].
    apply mapM_relation_of_row_store.
  - intro timestamp. unfold getGraphAtTime. rewrite !bind_run. cbn [ret snd].
    apply mapM_relation_of_row_store.
  - unfold getDecayedGraph. destruct (negb (enabled cfg)).
    + rewrite bind_run. cbn [ret snd]. unfold loadGraph. rewrite !bind_run.
      cbn [ret snd]. apply mapM_relation_of_row_store.
    + rewrite !bind_run. cbn [ret snd]. rewrite mapM_store.
      * reflexivity.
      * intros row w'. rewrite bind_run. cbn [ret snd].
        apply relation_of_row_store.
  - intros f t ty. unfold getRelation. rewrite bind_run.
    change (fst (get_store w)) with (store w). change (snd (get_store w)) with w.
    destruct (filter _ _) as [|record rest]; [reflexivity|].
    rewrite bind_run. cbn [ret snd]. apply relation_of_row_store.
  - intros f t ty. unfold getRelationHistory. rewrite bind_run.
    apply mapM_relation_of_row_store.
  - intro entityName. unfold getEntityEmbedding. rewrite bind_run.
    change (fst (get_store w)) with (store w). change (snd (get_store w)) with w.
    destruct (getEntity (store w) entityName) as [entity|]; [|reflexivity].
    destruct (current_named (store w) entityName) as [|record rest]; [reflexivity|].
    destruct (n_embedding record); [|reflexivity].
    rewrite bind_run. cbn [ret snd].
    destruct (Z.eqb (updatedAt entity) 0); reflexivity.
  - intros query options. apply semanticSearch_store.
Qed.

(** ** The router: finding the project *)

Lemma findProjectRoot_none (existsSync : Router.Path -> bool) (startDir : Router.Path) :
  Router.findProjectRoot existsSync startDir = None ->
  forall below dir,
    startDir = below ++ dir -> dir <> [] ->
    existsSync (Router.lit ".mnemosyne" :: dir) = false
    /\ existsSync (Router.lit ".env" :: dir) = false.
Proof.
  induction startDir as [|seg parent IH]; intros Hnone below dir Hsplit Hdir.
  - destruct below; destruct dir; try discriminate. contradiction.
  - cbn [Router.findProjectRoot] in Hnone.
    destruct (existsSync (Router.lit ".mnemosyne" :: seg :: parent)) eqn:Hm;
      [discriminate|].
    destruct (existsSync (Router.lit ".env" :: seg :: parent)) eqn:He;
      [discriminate|].
    destruct below as [|b below].
    + cbn [app] in Hsplit. subst dir. split; assumption.
    + cbn [app] in Hsplit. injection Hsplit as _ Hparent.
      exact (IH Hnone below dir Hparent Hdir).
Qed.

Lemma findProjectRoot_some (existsSync : Router.Path -> bool) (startDir : Router.Path)
      (info : Router.ProjectInfo) :
  Router.findProjectRoot existsSync startDir = Some info ->
  (exists below, startDir = below ++ Router.root info)
  /\ Router.root info <> []
  /\ (forall below dir,
        startDir = below ++ dir ->
        (List.length (Router.root info) < List.length dir)%nat ->
        existsSync (Router.lit ".mnemosyne" :: dir) = false
        /\ existsSync (Router.lit ".env" :: dir) = false)
  /\ existsSync (Router.configFile info) = true
  /\ match Router.type info with
     | Router.DotMnemosyne =>
         Router.configFile info = Router.lit ".mnemosyne" :: Router.root info
     | Router.DotEnv =>
         Router.configFile info = Router.lit ".env" :: Router.root info
         /\ existsSync (Router.lit ".mnemosyne" :: Router.root info) = false
     end.
Proof.
  induction startDir as [|seg parent IH]; intro Hsome; [discriminate|].
  cbn [Router.findProjectRoot] in Hsome.
  assert (Hlonger : forall below dir,
             seg :: parent = below ++ dir ->
             (List.length (seg :: parent) < List.length dir)%nat -> False).
  { intros below dir Hsplit Hlen.
    apply (f_equal (@List.length _)) in Hsplit. rewrite length_app in Hsplit. lia. }
  destruct (existsSync (Router.lit ".mnemosyne" :: seg :: parent)) eqn:Hm.
  { injection Hsome as <-. cbn [Router.root Router.configFile Router.type].
    split; [exists []; reflexivity|]. split; [discriminate|].
    split; [|split; [exact Hm|reflexivity]].
    intros below dir Hsplit Hlen. destruct (Hlonger below dir Hsplit Hlen). }
  destruct (existsSync (Router.lit ".env" :: seg :: parent)) eqn:He.
  { injection Hsome as <-. cbn [Router.root Router.configFile Router.type].
    split; [exists []; reflexivity|]. split; [discriminate|].
    split; [|split; [exact He|split; [reflexivity|exact Hm]]].
    intros below dir Hsplit Hlen. destruct (Hlonger below dir Hsplit Hlen). }
  destruct (IH Hsome) as [[below Hbelow] [Hroot [Hnear [Hfile Htype]]]].
  split; [exists (seg :: below); rewrite Hbelow; reflexivity|].
  split; [exact Hroot|]. split; [|split; assumption].
  intros b dir Hsplit Hlen. destruct b as [|x b].
  - cbn [app] in Hsplit. subst dir. split; assumption.
  - cbn [app] in Hsplit. injection Hsplit as _ Hparent.
    exact (Hnear b dir Hparent Hlen).
Qed.

(** X22. findProjectRoot picks the nearest configured directory.  Walking
    from the start directory outwards, it answers with the first directory
    that holds a [.mnemosyne] or a [.env] entry: every directory nearer to
    the start holds neither, a [.mnemosyne] entry is preferred to a [.env]
    entry of the same directory, and the configuration file named exists.
    The file-system root itself is never inspected, so the answer is never
    the root; and the answer is null exactly when no directory from the
    start outwards, the root apart, holds either entry. *)
Theorem findProjectRoot_nearest_config
        (existsSync : Router.Path -> bool) (startDir : Router.Path) :
  (Router.findProjectRoot existsSync startDir = None
   <-> forall below dir,
         startDir = below ++ dir -> dir <> [] ->
         existsSync (Router.lit ".mnemosyne" :: dir) = false
         /\ existsSync (Router.lit ".env" :: dir) = false)
  /\ (forall info,
        Router.findProjectRoot existsSync startDir = Some info ->
        (exists below, startDir = below ++ Router.root info)
        /\ Router.root info <> []
        /\ (forall below dir,
              startDir = below ++ dir ->
              (List.length (Router.root info) < List.length dir)%nat ->
              existsSync (Router.lit ".mnemosyne" :: dir) = false
              /\ existsSync (Router.lit ".env" :: dir) = false)
        /\ existsSync (Router.configFile info) = true
        /\ match Router.type info with
           | Router.DotMnemosyne =>
               Router.configFile info = Router.lit ".mnemosyne" :: Router.root info
           | Router.DotEnv =>
               Router.configFile info = Router.lit ".env" :: Router.root info
               /\ existsSync (Router.lit ".mnemosyne" :: Router.root info) = false
           end).
Proof.
  split.
  - split; [apply findProjectRoot_none|].
    intro Hall.
    destruct (Router.findProjectRoot existsSync startDir) as [info|] eqn:Hfind;
      [|reflexivity].
    exfalso.
    destruct (findProjectRoot_some existsSync startDir info Hfind)
      as [[below Hbelow] [Hroot [_ [Hfile Htype]]]].
    destruct (Hall below (Router.root info) Hbelow Hroot) as [Hm He].
    destruct (Router.type info).
    + rewrite Htype, Hm in Hfile. discriminate.
    + rewrite (proj1 Htype), He in Hfile. discriminate.
  - intros info Hfind. exact (findProjectRoot_some existsSync startDir info Hfind).
Qed.

(** ** The router: reading one line of the configuration *)

Module RouterFacts.

Import Router.

Local Open Scope N_scope.

Lemma jseqb_eq (a b : JSString) : jseqb a b = true <-> a = b.
Proof.
  revert b. induction a as [|x a IH]; intros [|y b]; cbn [jseqb];
    try (split; [discriminate|discriminate]); [split; reflexivity|].
  rewrite andb_true_iff, N.eqb_eq, IH. split.
  - intros [-> ->]. reflexivity.
  - intro Heq. injection Heq as -> ->. split; reflexivity.
Qed.

Lemma jseqb_refl (a : JSString) : jseqb a a = true.
Proof. apply jseqb_eq. reflexivity. Qed.

Lemma forallb_rev {A} (f : A -> bool) (l : list A) :
  forallb f (rev l) = forallb f l.
Proof.
  induction l as [|x l IH]; [reflexivity|].
  cbn [rev forallb]. rewrite forallb_app, IH. cbn [forallb].
  rewrite andb_true_r. apply andb_comm.
Qed.

Lemma trimStart_blank_app (ws s : JSString) :
  blank ws = true -> trimStart (ws ++ s) = trimStart s.
Proof.
  unfold blank. induction ws as [|c ws IH]; intro Hws; [reflexivity|].
  cbn [forallb] in Hws. apply andb_true_iff in Hws. destruct Hws as [Hc Hws].
  cbn [app trimStart]. rewrite Hc. exact (IH Hws).
Qed.

Lemma trimStart_head (c : N) (s : JSString) :
  is_white_space c = false -> trimStart (c :: s) = c :: s.
Proof. intro Hc. cbn [trimStart]. rewrite Hc. reflexivity. Qed.

Lemma trimEnd_blank_app (s ws : JSString) :
  blank ws = true -> trimEnd (s ++ ws) = trimEnd s.
Proof.
  intro Hws. unfold trimEnd. rewrite rev_app_distr, trimStart_blank_app; [reflexivity|].
  unfold blank in *. rewrite forallb_rev. exact Hws.
Qed.

Lemma trimEnd_last (s : JSString) :
  s <> [] -> is_white_space (last s 0) = false -> trimEnd s = s.
Proof.
  intros Hs Hlast. unfold trimEnd.
  rewrite (app_removelast_last 0 Hs) at 1.
  rewrite rev_app_distr. cbn [rev app]. rewrite trimStart_head by exact Hlast.
  change (last s 0 :: rev (removelast s)) with (rev [last s 0] ++ rev (removelast s)).
  rewrite <- rev_app_distr, rev_involutive. symmetry. exact (app_removelast_last 0 Hs).
Qed.

Lemma tight_ends (c : N) (s : JSString) :
  tight (c :: s) = true ->
  is_white_space c = false /\ is_white_space (last (c :: s) 0) = false.
Proof.
  unfold tight. rewrite andb_true_iff, !negb_true_iff. tauto.
Qed.

(** Trimming takes the padding off a text that has no white space at its
    ends. *)
Lemma trim_padded (p1 s p2 : JSString) :
  blank p1 = true -> blank p2 = true -> tight s = true ->
  trim (p1 ++ s ++ p2) = s.
Proof.
  intros H1 H2 Hs. unfold trim. rewrite trimStart_blank_app by exact H1.
  destruct s as [|c s].
  - cbn [app]. rewrite <- (app_nil_r p2), trimStart_blank_app by exact H2.
    reflexivity.
  - destruct (tight_ends c s Hs) as [Hc Hlast].
    cbn [app]. rewrite trimStart_head by exact Hc.
    change (c :: s ++ p2) with ((c :: s) ++ p2).
    rewrite trimEnd_blank_app by exact H2.
    apply trimEnd_last; [discriminate|exact Hlast].
Qed.

Lemma last_app_nonempty {A} (l1 l2 : list A) (d : A) :
  l2 <> [] -> last (l1 ++ l2) d = last l2 d.
Proof.
  intro Hl2. induction l1 as [|x l1 IH]; [reflexivity|].
  cbn [app]. destruct (l1 ++ l2) as [|y rest] eqn:Happ.
  - destruct l1; destruct l2; try discriminate. contradiction.
  - cbn [last]. exact IH.
Qed.

Ltac nonempty :=
  let Hnil := fresh "Hnil" in
  intro Hnil;
  repeat (apply app_eq_nil in Hnil; destruct Hnil as [_ Hnil]);
  discriminate.

Lemma break_at_first_equals (before rest : JSString) :
  forallb (fun x => negb (N.eqb x 61)) before = true ->
  break_at_equals (before ++ 61 :: rest) = Some (before, rest).
Proof.
  induction before as [|c before IH]; intro Hno; [reflexivity|].
  cbn [forallb] in Hno. apply andb_true_iff in Hno. destruct Hno as [Hc Hno].
  cbn [app break_at_equals]. apply negb_true_iff in Hc. rewrite Hc, (IH Hno).
  reflexivity.
Qed.

Lemma white_space_is_not_equals (c : N) :
  is_white_space c = true -> negb (N.eqb c 61) = true.
Proof.
  intro Hc. apply negb_true_iff. destruct (N.eqb_spec c 61) as [->|_]; [|reflexivity].
  vm_compute in Hc. discriminate.
Qed.

Lemma blank_no_equals (p : JSString) :
  blank p = true -> forallb (fun x => negb (N.eqb x 61)) p = true.
Proof.
  unfold blank. rewrite !forallb_forall. intros Hp x Hx.
  apply white_space_is_not_equals, Hp, Hx.
Qed.

Lemma blank_in_line_blank (p : JSString) : blank_in_line p = true -> blank p = true.
Proof.
  unfold blank_in_line, blank. rewrite !forallb_forall. intros Hp x Hx.
  exact (proj1 (proj1 (andb_true_iff _ _) (Hp x Hx))).
Qed.

Lemma blank_in_line_no_terminator (p : JSString) :
  blank_in_line p = true -> existsb is_line_terminator p = false.
Proof.
  unfold blank_in_line. intro Hp. apply not_true_iff_false. intro Hex.
  apply existsb_exists in Hex. destruct Hex as [x [Hx Hlt]].
  rewrite forallb_forall in Hp. specialize (Hp x Hx).
  rewrite Hlt in Hp. rewrite andb_false_r in Hp. discriminate.
Qed.

(** The line, trimmed, of a padded assignment. *)
Lemma trim_assignment_line (p1 key p2 p3 value p4 : JSString) :
  blank p1 = true -> blank p3 = true -> blank p4 = true ->
  plain_key key = true -> tight value = true ->
  exists after,
    trim (p1 ++ key ++ p2 ++ 61 :: p3 ++ value ++ p4) = key ++ p2 ++ 61 :: after
    /\ trim after = value
    /\ (after = [] \/ after = p3 ++ value).
Proof.
  intros H1 H3 H4 Hkey Hvalue.
  destruct key as [|k key]; [discriminate|].
  unfold plain_key in Hkey. rewrite !andb_true_iff in Hkey.
  destruct Hkey as [[Htight _] _]. destruct (tight_ends k key Htight) as [Hk _].
  destruct value as [|v value].
  - exists []. split; [|split; [reflexivity|left; reflexivity]].
    assert (Hline : p1 ++ (k :: key) ++ p2 ++ 61 :: p3 ++ [] ++ p4
                    = p1 ++ ((k :: key) ++ p2 ++ [61]) ++ (p3 ++ p4)).
    { cbn [app]. rewrite <- !app_assoc. reflexivity. }
    rewrite Hline, trim_padded.
    + reflexivity.
    + exact H1.
    + unfold blank in *. rewrite forallb_app, H3, H4. reflexivity.
    + cbn [app tight]. rewrite Hk. cbn [negb andb].
      change (k :: key ++ p2 ++ [61]) with ((k :: key) ++ p2 ++ [61]).
      rewrite !last_app_nonempty by nonempty. reflexivity.
  - destruct (tight_ends v value Hvalue) as [_ Hlast].
    exists (p3 ++ v :: value). split; [|split; [|right; reflexivity]].
    + assert (Hline : p1 ++ (k :: key) ++ p2 ++ 61 :: p3 ++ (v :: value) ++ p4
                      = p1 ++ ((k :: key) ++ p2 ++ 61 :: p3 ++ v :: value) ++ p4).
      { cbn [app]. rewrite <- !app_assoc. cbn [app]. rewrite <- !app_assoc.
        reflexivity. }
      rewrite Hline, trim_padded; [reflexivity|exact H1|exact H4|].
      cbn [app tight]. rewrite Hk. cbn [negb andb].
      change (k :: key ++ p2 ++ 61 :: p3 ++ v :: value)
        with ((k :: key) ++ p2 ++ (61 :: p3) ++ (v :: value)).
      rewrite !last_app_nonempty by nonempty. rewrite Hlast. reflexivity.
    + rewrite <- (app_nil_r (v :: value)) at 1.
      apply trim_padded; [exact H3|reflexivity|exact Hvalue].
Qed.

End RouterFacts.

(** X23. How parseEnvFile reads one line.  A line made of a key, an [=]
    and a value, with white space allowed before the key, between key and
    [=], between [=] and value (none of it a line terminator) and after the
    value, assigns to exactly that key exactly that value, less one layer
    of matching double or single quotes around it.  The key may be any text
    without [=] that does not begin with [#] and has no white space at its
    ends; the value any text of one line without white space at its ends: it
    may hold further [=] signs and a [#], which does not start a comment
    there. *)
Theorem assignment_of_padded_line
        (p1 key p2 p3 value p4 : Router.JSString) :
  Router.blank p1 = true ->
  Router.blank p2 = true ->
  Router.blank_in_line p3 = true ->
  Router.blank p4 = true ->
  Router.plain_key key = true ->
  Router.plain_value value = true ->
  Router.assignment_of (p1 ++ key ++ p2 ++ 61%N :: p3 ++ value ++ p4)
  = Some (key, Router.unquote value).
Proof.
  intros H1 H2 H3 H4 Hkey Hvalue.
  unfold Router.plain_value in Hvalue. apply andb_true_iff in Hvalue.
  destruct Hvalue as [Htight Hline]. apply negb_true_iff in Hline.
  destruct (RouterFacts.trim_assignment_line p1 key p2 p3 value p4 H1
              (RouterFacts.blank_in_line_blank p3 H3) H4 Hkey Htight)
    as [after [Htrim [Hafter Hshape]]].
  unfold Router.assignment_of. rewrite Htrim.
  destruct key as [|k key]; [discriminate|].
  pose proof Hkey as Hkey'.
  unfold Router.plain_key in Hkey'. rewrite !andb_true_iff in Hkey'.
  destruct Hkey' as [[Hktight Hhash] Hnoeq].
  cbn [app Router.startsWith]. apply negb_true_iff in Hhash. rewrite Hhash.
  change (k :: key ++ p2 ++ 61%N :: after) with ((k :: key) ++ p2 ++ 61%N :: after).
  unfold Router.match_assignment.
  rewrite app_assoc, RouterFacts.break_at_first_equals.
  2:{ rewrite forallb_app, Hnoeq. exact (RouterFacts.blank_no_equals p2 H2). }
  cbn [app].
  assert (Hterm : existsb Router.is_line_terminator after = false).
  { destruct Hshape as [->| ->]; [reflexivity|].
    rewrite existsb_app, Hline, (RouterFacts.blank_in_line_no_terminator p3 H3).
    reflexivity. }
  rewrite Hterm, Hafter.
  change (k :: key ++ p2) with ([] ++ (k :: key) ++ p2).
  rewrite (RouterFacts.trim_padded [] (k :: key) p2 eq_refl H2 Hktight).
  reflexivity.
Qed.

Lemma assignment_of_padded_line_witness :
  Router.assignment_of
    (Router.lit "  " ++ Router.lit "MNEMOSYNE_DATABASE" ++ Router.lit " "
     ++ 61%N :: Router.lit " " ++ Router.lit "'my db=1 #x'" ++ [13%N])
  = Some (Router.lit "MNEMOSYNE_DATABASE", Router.lit "my db=1 #x").
Proof.
  exact (assignment_of_padded_line
           (Router.lit "  ") (Router.lit "MNEMOSYNE_DATABASE") (Router.lit " ")
           (Router.lit " ") (Router.lit "'my db=1 #x'") [13%N]
           eq_refl eq_refl eq_refl eq_refl eq_refl eq_refl).
Defined.

(** ** The router: choosing the database *)

Module ConfigFacts.

Import Router.

Local Open Scope N_scope.

Lemma split_lines_nonempty (content : JSString) : split_lines content <> [].
Proof.
  destruct content as [|c rest]; [discriminate|].
  cbn [split_lines]. destruct (N.eqb c 10); [discriminate|].
  destruct (split_lines rest); discriminate.
Qed.

Lemma split_lines_one (line : JSString) :
  existsb (N.eqb 10) line = false -> split_lines line = [line].
Proof.
  induction line as [|c line IH]; intro Hno; [reflexivity|].
  cbn [existsb] in Hno. apply orb_false_iff in Hno. destruct Hno as [Hc Hno].
  cbn [split_lines]. rewrite N.eqb_sym, Hc, (IH Hno). reflexivity.
Qed.

(** A last line added to a file is a last element added to its lines. *)
Lemma split_lines_last (content line : JSString) :
  existsb (N.eqb 10) line = false ->
  split_lines (content ++ 10 :: line) = split_lines content ++ [line].
Proof.
  intro Hno. induction content as [|c rest IH].
  - cbn [app split_lines]. rewrite N.eqb_refl, (split_lines_one line Hno).
    reflexivity.
  - cbn [app split_lines]. rewrite IH.
    destruct (N.eqb c 10); [reflexivity|].
    pose proof (split_lines_nonempty rest) as Hne.
    destruct (split_lines rest) as [|l ls]; [contradiction|reflexivity].
Qed.

Lemma parse_content_last (content line : JSString) :
  existsb (N.eqb 10) line = false ->
  parse_content (content ++ 10 :: line) = parse_line (parse_content content) line.
Proof.
  intro Hno. unfold parse_content.
  rewrite (split_lines_last content line Hno), fold_left_app. reflexivity.
Qed.

Lemma get_set_same (config : Config) (key value : JSString) :
  jseqb key (lit "__proto__") = false ->
  get_property (set_property config key value) key = Some value.
Proof.
  intro Hkey. unfold set_property. rewrite Hkey.
  cbn [get_property]. rewrite RouterFacts.jseqb_refl. reflexivity.
Qed.

Lemma get_set_other (config : Config) (key key' value : JSString) :
  key <> key' ->
  get_property (set_property config key value) key' = get_property config key'.
Proof.
  intro Hne. unfold set_property. destruct (jseqb key (lit "__proto__")); [reflexivity|].
  cbn [get_property]. destruct (jseqb key key') eqn:Heq; [|reflexivity].
  apply RouterFacts.jseqb_eq in Heq. contradiction.
Qed.

(** Lines that assign other keys leave a key as it was. *)
Lemma get_after_other_lines (key : JSString) (lines : list JSString) :
  (forall line k v, In line lines -> assignment_of line = Some (k, v) -> k <> key) ->
  forall config,
    get_property (fold_left parse_line lines config) key = get_property config key.
Proof.
  induction lines as [|line lines IH]; intros Hother config; [reflexivity|].
  cbn [fold_left]. rewrite IH.
  - unfold parse_line. destruct (assignment_of line) as [[k v]|] eqn:Hline;
      [|reflexivity].
    apply get_set_other. exact (Hother line k v (or_introl eq_refl) Hline).
  - intros l k v Hl. apply Hother. right. exact Hl.
Qed.

End ConfigFacts.

(** X24. Which database the router chooses.  Without a project it is
    "neo4j".  The name returned is never empty, and the call fails only
    when the configuration file cannot be read.  When the last line of the
    file assigns a value that is not empty to MNEMOSYNE_DATABASE, that value
    is chosen whatever the lines before say, NEO4J_DATABASE included; when
    no line assigns MNEMOSYNE_DATABASE or NEO4J_DATABASE it is "neo4j".  The
    database that getProjectMetadata reports is the one getDatabaseName
    chooses, and auto_cleanup is off only for the value "false". *)
Theorem getDatabaseName_choice
        (readFileSync : Router.Path -> option Router.JSString)
        (parseInt : Router.JSString -> option Z) :
  Router.getDatabaseName readFileSync None = Some (Router.lit "neo4j")
  /\ (forall projectInfo database,
        Router.getDatabaseName readFileSync projectInfo = Some database ->
        database <> [])
  /\ (forall info,
        Router.getDatabaseName readFileSync (Some info) = None
        <-> readFileSync (Router.configFile info) = None)
  /\ (forall info content line value,
        readFileSync (Router.configFile info) = Some (content ++ 10%N :: line) ->
        existsb (N.eqb 10) line = false ->
        Router.assignment_of line = Some (Router.lit "MNEMOSYNE_DATABASE", value) ->
        value <> [] ->
        Router.getDatabaseName readFileSync (Some info) = Some value)
  /\ (forall info content,
        readFileSync (Router.configFile info) = Some content ->
        (forall line key value,
            In line (Router.split_lines content) ->
            Router.assignment_of line = Some (key, value) ->
            key <> Router.lit "MNEMOSYNE_DATABASE"
            /\ key <> Router.lit "NEO4J_DATABASE") ->
        Router.getDatabaseName readFileSync (Some info) = Some (Router.lit "neo4j"))
  /\ (forall info metadata,
        Router.getProjectMetadata readFileSync parseInt (Some info)
        = Some (Some metadata) ->
        Router.getDatabaseName readFileSync (Some info)
        = Some (Router.pm_database metadata)
        /\ (Router.auto_cleanup metadata = false
            <-> exists config,
                 Router.parseEnvFile readFileSync (Router.configFile info)
                 = Some config
                 /\ Router.get_property config (Router.lit "AUTO_CLEANUP")
                    = Some (Router.lit "false"))).
Proof.
  split; [reflexivity|]. split; [|split; [|split; [|split]]].
  - intros [info|] database; cbn [Router.getDatabaseName].
    + destruct (Router.parseEnvFile readFileSync (Router.configFile info))
        as [config|]; [|discriminate].
      destruct (Router.or_else _ _) as [[|c s]|]; intro Heq; injection Heq as <-;
        discriminate.
    + intro Heq. injection Heq as <-. discriminate.
  - intro info. cbn [Router.getDatabaseName]. unfold Router.parseEnvFile.
    destruct (readFileSync (Router.configFile info)) as [content|];
      cbn [option_map].
    + destruct (Router.or_else _ _) as [[|c s]|]; split; discriminate.
    + split; reflexivity.
  - intros info content line value Hread Hline Hassign Hvalue.
    cbn [Router.getDatabaseName]. unfold Router.parseEnvFile.
    rewrite Hread. cbn [option_map].
    rewrite (ConfigFacts.parse_content_last content line Hline).
    unfold Router.parse_line. rewrite Hassign.
    rewrite ConfigFacts.get_set_same by reflexivity.
    destruct value as [|c s]; [contradiction|]. reflexivity.
  - intros info content Hread Hother.
    cbn [Router.getDatabaseName]. unfold Router.parseEnvFile.
    rewrite Hread. cbn [option_map]. unfold Router.parse_content.
    rewrite !ConfigFacts.get_after_other_lines.
    + reflexivity.
    + intros line k v Hl Hk. exact (proj2 (Hother line k v Hl Hk)).
    + intros line k v Hl Hk. exact (proj1 (Hother line k v Hl Hk)).
  - intros info metadata. cbn [Router.getProjectMetadata Router.getDatabaseName].
    destruct (Router.parseEnvFile readFileSync (Router.configFile info))
      as [config|]; [|discriminate].
    intro Heq. injection Heq as <-. cbn [Router.pm_database Router.auto_cleanup].
    split.
    + destruct (Router.or_else _ _) as [[|c s]|]; reflexivity.
    + split.
      * intro Hoff. exists config. split; [reflexivity|].
        destruct (Router.get_property config (Router.lit "AUTO_CLEANUP"))
          as [v|]; [|discriminate].
        apply negb_false_iff, RouterFacts.jseqb_eq in Hoff. rewrite Hoff.
        reflexivity.
      * intros [config' [Hcfg Hget]]. injection Hcfg as <-. rewrite Hget.
        reflexivity.
Qed.

Lemma getDatabaseName_choice_witness :
  Router.getDatabaseName
    (fun _ => Some (Router.lit "NEO4J_DATABASE=other" ++ 10%N
                    :: Router.lit "MNEMOSYNE_DATABASE = 'project_a'"))
    (Some (Router.mkProjectInfo [Router.lit "app"]
                                [Router.lit ".mnemosyne"; Router.lit "app"]
                                Router.DotMnemosyne))
  = Some (Router.lit "project_a").
Proof.
  apply (proj1 (proj2 (proj2 (proj2
           (getDatabaseName_choice
              (fun _ => Some (Router.lit "NEO4J_DATABASE=other" ++ 10%N
                              :: Router.lit "MNEMOSYNE_DATABASE = 'project_a'"))
              (fun _ => None)))))
         (Router.mkProjectInfo [Router.lit "app"]
                               [Router.lit ".mnemosyne"; Router.lit "app"]
                               Router.DotMnemosyne)
         (Router.lit "NEO4J_DATABASE=other")
         (Router.lit "MNEMOSYNE_DATABASE = 'project_a'")
         (Router.lit "project_a")).
  - reflexivity.
  - reflexivity.
  - reflexivity.
  - discriminate.
Defined.

(** ** LocalEmbeddingService: what the constructor sets *)

Lemma qnum_or_nonzero (x : option Q) (d : Q) :
  JS.Qis_zero d = false -> JS.Qis_zero (JS.qnum_or x d) = false.
Proof.
  intro Hd. unfold JS.qnum_or. destruct x as [v|]; [|exact Hd].
  destruct (JS.Qis_zero v) eqn:Hv; [exact Hd|exact Hv].
Qed.

Lemma str_or_default_nonempty (x : option string) (d : string) :
  d <> EmptyString -> JS.defined_or (JS.str_or_null x) d <> EmptyString.
Proof.
  intro Hd. unfold JS.str_or_null. destruct x as [v|]; [|exact Hd].
  destruct (String.eqb_spec v EmptyString) as [_|Hv]; [exact Hd|exact Hv].
Qed.

(** X25. What a LocalEmbeddingService is built with.  Whatever the
    configuration, the model name and the version are not empty and the
    dimensions are not 0.  Built the way createFromEnvironment builds it,
    from a model name alone, the service keeps that name and has the
    dimensions of the table of supported models, 768, 384 or 1024, with 768
    for every name the table does not list; so a local service chosen from
    the environment always has one of these three dimensions. *)
Theorem localEmbeddingService_configuration
        (toLowerCase : string -> string) (openai_constructs : string -> string -> bool)
        (env : EmbeddingServiceFactory.Environment)
        (config : LocalEmbeddingModel.LocalEmbeddingConfig) :
  (LocalEmbeddingModel.model (LocalEmbeddingModel.constructor config) <> EmptyString
   /\ LocalEmbeddingModel.version (LocalEmbeddingModel.constructor config)
      <> EmptyString
   /\ JS.Qis_zero (LocalEmbeddingModel.dimensions
                     (LocalEmbeddingModel.constructor config)) = false)
  /\ (forall localModel,
        EmbeddingServiceFactory.createFromEnvironment toLowerCase openai_constructs env
        = EmbeddingServiceFactory.LocalEmbeddingService localModel ->
        LocalEmbeddingModel.model (LocalEmbeddingModel.from_model localModel)
        = localModel
        /\ (LocalEmbeddingModel.dimensions (LocalEmbeddingModel.from_model localModel)
            = (if String.eqb localModel "Xenova/bge-small-en-v1.5" then 384 # 1
               else if String.eqb localModel "Xenova/bge-m3"
                       || String.eqb localModel "Xenova/bge-large-en-v1.5"
                    then 1024 # 1
                    else 768 # 1))).
Proof.
  split.
  - unfold LocalEmbeddingModel.constructor.
    cbn [LocalEmbeddingModel.model LocalEmbeddingModel.version
         LocalEmbeddingModel.dimensions].
    split; [apply str_or_default_nonempty; discriminate|]. split.
    + apply str_or_default_nonempty.
      unfold LocalEmbeddingModel.SUPPORTED_MODELS.
      repeat match goal with
             | |- context [if ?b then _ else _] => destruct b
             end; discriminate.
    + apply qnum_or_nonzero. apply qnum_or_nonzero. reflexivity.
  - intros localModel Hlocal.
    assert (Hname : localModel <> EmptyString).
    { unfold EmbeddingServiceFactory.createFromEnvironment in Hlocal.
      repeat match type of Hlocal with
             | context [if ?b then _ else _] => destruct b
             | context [match ?x with Some _ => _ | None => _ end] => destruct x
             end;
        try discriminate; injection Hlocal as <-;
        apply str_or_default_nonempty; discriminate. }
    unfold LocalEmbeddingModel.from_model, LocalEmbeddingModel.constructor.
    cbn [LocalEmbeddingModel.lc_model LocalEmbeddingModel.lc_dimensions
         LocalEmbeddingModel.model LocalEmbeddingModel.dimensions].
    assert (Hkeep : JS.defined_or (JS.str_or_null (Some localModel))
                                  "Xenova/bge-base-en-v1.5"%string = localModel).
    { unfold JS.str_or_null.
      destruct (String.eqb_spec localModel EmptyString) as [Hempty|_];
        [contradiction|reflexivity]. }
    rewrite Hkeep. split; [reflexivity|].
    unfold LocalEmbeddingModel.SUPPORTED_MODELS.
    destruct (String.eqb_spec localModel "Xenova/bge-base-en-v1.5") as [->|_];
      [reflexivity|].
    destruct (String.eqb localModel "Xenova/bge-small-en-v1.5"); [reflexivity|].
    destruct (String.eqb localModel "Xenova/bge-m3"); [reflexivity|].
    destruct (String.eqb localModel "Xenova/bge-large-en-v1.5"); reflexivity.
Qed.

(** ** The metadata of a relation read from the store *)

Lemma own_property_assign_key (k : string) (v : MetaValue) (m : Metadata) (k' : string) :
  own_property (assign_key k v m) k'
  = if String.eqb k k' then Some v else own_property m k'.
Proof.
  unfold own_property. induction m as [|[k0 v0] rest IH].
  - cbn [assign_key find fst snd option_map].
    destruct (String.eqb k k'); reflexivity.
  - cbn [assign_key]. destruct (String.eqb_spec k k0) as [->|Hne].
    + cbn [find fst snd]. destruct (String.eqb k0 k'); reflexivity.
    + cbn [find fst snd]. destruct (String.eqb_spec k0 k') as [->|Hne'].
      * destruct (String.eqb_spec k k') as [Heq|_]; [contradiction|reflexivity].
      * exact IH.
Qed.

Lemma own_property_app (m1 m2 : Metadata) (k : string) :
  own_property (m1 ++ m2) k
  = match own_property m1 k with
    | Some v => Some v
    | None => own_property m2 k
    end.
Proof.
  unfold own_property. induction m1 as [|[k0 v0] rest IH]; [reflexivity|].
  cbn [app find fst snd]. destruct (String.eqb k0 k); [reflexivity|exact IH].
Qed.

Lemma own_property_Object_assign (source : Metadata) :
  forall (target : Metadata) (k : string),
    own_property (Object_assign target source) k
    = match parsed_member source k with
      | Some v => Some v
      | None => own_property target k
      end.
Proof.
  unfold Object_assign, parsed_member.
  induction source as [|[k0 v0] rest IH]; intros target k; [reflexivity|].
  cbn [fold_left fst snd rev]. rewrite IH, own_property_app, own_property_assign_key.
  destruct (own_property (rev rest) k); [reflexivity|].
  unfold own_property. cbn [find fst snd].
  destruct (String.eqb k0 k); reflexivity.
Qed.

(** X26. The metadata of every relation read from the store.  It always
    has the keys createdAt and updatedAt.  A key of the stored metadata
    keeps its stored value, createdAt and updatedAt included; otherwise
    createdAt and updatedAt are those of the relationship, a value of 0
    being replaced by the time of the read; and no other key appears.  (The
    key [__proto__], which an assignment does not store, is left out.) *)
Theorem relationshipToRelation_metadata
        (H : Host) (rel : RelProps) (fromNode toNode : string) (w : World) :
  let read := fst (relationshipToRelation H rel fromNode toNode w) in
  let stored k := match r_metadata rel with
                  | Some parsedMetadata => parsed_member parsedMetadata k
                  | None => None
                  end in
  (forall k,
      k <> "__proto__"%string ->
      own_property (metadata read) k
      = match stored k with
        | Some v => Some v
        | None =>
            if String.eqb k "createdAt"
            then Some (MNum (JS.num_or (Some (r_createdAt rel)) (clock H (ticks w))))
            else if String.eqb k "updatedAt"
            then Some (MNum (JS.num_or (Some (r_updatedAt rel)) (clock H (ticks w))))
            else None
        end)
  /\ own_property (metadata read) "createdAt" <> None
  /\ own_property (metadata read) "updatedAt" <> None.
Proof.
  intros read stored.
  assert (Hall : forall k,
             own_property (metadata read) k
             = match stored k with
               | Some v => Some v
               | None =>
                   if String.eqb k "createdAt"
                   then Some (MNum (JS.num_or (Some (r_createdAt rel))
                                              (clock H (ticks w))))
                   else if String.eqb k "updatedAt"
                   then Some (MNum (JS.num_or (Some (r_updatedAt rel))
                                              (clock H (ticks w))))
                   else None
               end).
  { intro k. subst read stored. unfold relationshipToRelation.
    rewrite bind_run. cbn [ret fst metadata Date_now].
    destruct (r_metadata rel) as [parsedMetadata|].
    - rewrite own_property_Object_assign.
      destruct (parsed_member parsedMetadata k); [reflexivity|].
      unfold own_property. cbn [find fst snd].
      rewrite (String.eqb_sym "createdAt" k), (String.eqb_sym "updatedAt" k).
      destruct (String.eqb k "createdAt"); [reflexivity|].
      destruct (String.eqb k "updatedAt"); reflexivity.
    - unfold own_property. cbn [find fst snd].
      rewrite (String.eqb_sym "createdAt" k), (String.eqb_sym "updatedAt" k).
      destruct (String.eqb k "createdAt"); [reflexivity|].
      destruct (String.eqb k "updatedAt"); reflexivity. }
  split; [intros k _; exact (Hall k)|]. split.
  - rewrite Hall. destruct (stored "createdAt"%string); discriminate.
  - rewrite Hall. destruct (stored "updatedAt"%string); discriminate.
Qed.

(** ** getEntityHistory *)

Lemma insert_ascending_In {A} (key : A -> Z) (x y : A) (l : list A) :
  In y (insert_ascending key x l) <-> y = x \/ In y l.
Proof.
  induction l as [|z rest IH]; cbn [insert_ascending].
  - cbn [In]. intuition.
  - destruct (Z.leb (key x) (key z)); cbn [In]; [intuition|].
    rewrite IH. intuition.
Qed.

Lemma order_ascending_In {A} (key : A -> Z) (y : A) (l : list A) :
  In y (order_ascending key l) <-> In y l.
Proof.
  unfold order_ascending. induction l as [|x rest IH]; [reflexivity|].
  cbn [fold_right]. rewrite insert_ascending_In, IH. cbn [In]. intuition.
Qed.

Lemma insert_ascending_sorted {A} (key : A -> Z) (x : A) (l : list A) :
  StronglySorted (fun a b => key a <= key b) l ->
  StronglySorted (fun a b => key a <= key b) (insert_ascending key x l).
Proof.
  induction l as [|y rest IH]; intro Hs; cbn [insert_ascending].
  - constructor; constructor.
  - inversion Hs as [|y' rest' Hrest Hall]; subst.
    destruct (Z.leb_spec (key x) (key y)) as [Hle|Hgt].
    + constructor; [exact Hs|]. constructor; [exact Hle|].
      apply Forall_forall. intros z Hz.
      assert (Hyz : key y <= key z) by exact (proj1 (Forall_forall _ _) Hall z Hz).
      lia.
    + constructor; [apply IH; exact Hrest|].
      apply Forall_forall. intros z Hz. apply insert_ascending_In in Hz.
      destruct Hz as [->|Hz]; [lia|].
      exact (proj1 (Forall_forall _ _) Hall z Hz).
Qed.

Lemma order_ascending_sorted {A} (key : A -> Z) (l : list A) :
  StronglySorted (fun a b => key a <= key b) (order_ascending key l).
Proof.
  unfold order_ascending. induction l as [|x rest IH]; [constructor|].
  cbn [fold_right]. apply insert_ascending_sorted. exact IH.
Qed.

Lemma sorted_map {A B} (g : A -> B) (keyA : A -> Z) (keyB : B -> Z) (l : list A) :
  (forall a, keyB (g a) = keyA a) ->
  StronglySorted (fun a b => keyA a <= keyA b) l ->
  StronglySorted (fun a b => keyB a <= keyB b) (map g l).
Proof.
  intros Hkey Hs. induction Hs as [|x l Hl IH Hall]; [constructor|].
  cbn [map]. constructor; [exact IH|].
  apply Forall_forall. intros b Hb. apply in_map_iff in Hb.
  destruct Hb as [a [<- Ha]]. rewrite !Hkey.
  exact (proj1 (Forall_forall _ _) Hall a Ha).
Qed.

(** X27. getEntityHistory lists every stored version of the name, current
    or superseded, and nothing else: as many entries as there are stored
    rows of that name, each entry being one of these rows, each row being
    an entry; and the entries are in ascending order of validFrom. *)
Theorem getEntityHistory_all_versions_in_order (s : Store) (entityName : string) :
  List.length (getEntityHistory s entityName)
  = List.length (nodes_named s entityName)
  /\ (forall e,
        In e (getEntityHistory s entityName)
        <-> exists n, In n (nodes s) /\ n_name n = entityName /\ e = nodeToEntity n)
  /\ StronglySorted (fun a b => validFrom a <= validFrom b)
                    (getEntityHistory s entityName).
Proof.
  unfold getEntityHistory. split; [|split].
  - rewrite length_map. apply order_ascending_length.
  - intro e. rewrite in_map_iff. split.
    + intros [n [<- Hn]]. apply order_ascending_In in Hn.
      apply filter_In in Hn. destruct Hn as [Hin Hname].
      apply String.eqb_eq in Hname. exists n. repeat split; assumption.
    + intros [n [Hin [Hname ->]]]. exists n. split; [reflexivity|].
      apply order_ascending_In, filter_In. split; [exact Hin|].
      apply String.eqb_eq. exact Hname.
  - apply (sorted_map nodeToEntity n_validFrom validFrom); [reflexivity|].
    apply order_ascending_sorted.
Qed.
